(** * flake8-eyeo: the style checks of [flake8_eyeo.py]

    A shallow embedding of the tree visitor, the constant evaluator and the
    token and physical line checks of [flake8_eyeo.py], with the properties
    of the checker stated and proved over it. *)

From Stdlib Require Import ZArith String Ascii List Lia Bool.
From stdpp Require Import base option list strings gmap.

Local Open Scope Z_scope.
Local Open Scope string_scope.
Local Open Scope list_scope.

(** ** Strings *)

(** [str.lower] on ASCII letters. *)
Definition lower_ascii (c : ascii) : ascii :=
  let n := nat_of_ascii c in
  if ((65 <=? n) && (n <=? 90))%nat then ascii_of_nat (n + 32) else c.

Fixpoint lower (s : string) : string :=
  match s with
  | EmptyString => EmptyString
  | String c r => String (lower_ascii c) (lower r)
  end.

(** [needle in hay] for strings. *)
Fixpoint contains (needle hay : string) : bool :=
  String.prefix needle hay ||
  match hay with
  | EmptyString => false
  | String _ r => contains needle r
  end.

(** ** Exceptions and results *)

(** The exception classes the checks can meet.  The first three derive from
    [BaseException] only; every other class derives from [Exception]. *)
Inductive exn : Set :=
  | SystemExit | KeyboardInterrupt | GeneratorExit
  | NameError | UnboundLocalError | TypeError | ValueError | SyntaxError
  | ZeroDivisionError | AttributeError | IndexError | KeyError
  | RecursionError | OverflowError | MemoryError | AssertionError
  | NotImplementedError.

(** [isinstance(e, Exception)] *)
Definition is_Exception (e : exn) : bool :=
  match e with
  | SystemExit | KeyboardInterrupt | GeneratorExit => false
  | _ => true
  end.

Inductive result (A : Type) : Type :=
  | Ok (a : A)
  | Raise (e : exn).
Arguments Ok {A} a.
Arguments Raise {A} e.

(** ** The syntax tree *)

Scheme All for list.
Scheme All for option.

Module ast.

Record position : Set := Pos { lineno : Z; col_offset : Z }.

Inductive operator : Set :=
  | Add | Sub | Mult | Div | Mod | Pow | LShift | RShift
  | BitOr | BitXor | BitAnd | FloorDiv.

Inductive cmpop : Set :=
  | Eq | NotEq | Lt | LtE | Gt | GtE | Is | IsNot | In | NotIn.

Inductive expr_context : Set := Load | Store | Del | Param.

(** The value of a [NameConstant] node. *)
Inductive singleton : Set := PyTrue | PyFalse | PyNone.

Record alias : Set := Alias { name : string; asname : option string }.

(** Every node is an [ast.AST]; a constructor per node class, its
    arguments in the order of the class's [_fields].  Operator and
    context nodes are leaves without a visitor method and are kept as
    plain enumerations. *)
Inductive node : Set :=
  (* mod *)
  | Module (body : list node)
  (* stmt *)
  | FunctionDef (p : position) (name : string) (args : node)
                (body : list node) (decorator_list : list node)
  | ClassDef (p : position) (name : string) (bases : list node)
             (body : list node) (decorator_list : list node)
  | Return (p : position) (value : option node)
  | Assign (p : position) (targets : list node) (value : node)
  | AugAssign (p : position) (target : node) (op : operator) (value : node)
  | For (p : position) (target iter : node) (body orelse : list node)
  | While (p : position) (test : node) (body orelse : list node)
  | If (p : position) (test : node) (body orelse : list node)
  | Raise (p : position) (exc cause : option node)
  | Try (p : position) (body handlers orelse finalbody : list node)
  | TryExcept (p : position) (body handlers orelse : list node)
  | TryFinally (p : position) (body finalbody : list node)
  | Import (p : position) (names : list alias)
  | ImportFrom (p : position) (module : option string) (names : list alias)
  | Global (p : position) (names : list string)
  | Nonlocal (p : position) (names : list string)
  | Expr (p : position) (value : node)
  | Pass (p : position)
  | Break (p : position)
  | Continue (p : position)
  (* expr *)
  | BinOp (p : position) (left : node) (op : operator) (right : node)
  | Lambda (p : position) (args body : node)
  | Dict (p : position) (keys : list (option node)) (values : list node)
  | Set_ (p : position) (elts : list node)
  | ListComp (p : position) (elt : node) (generators : list node)
  | GeneratorExp (p : position) (elt : node) (generators : list node)
  | Yield (p : position) (value : option node)
  | Compare (p : position) (left : node) (ops : list cmpop)
            (comparators : list node)
  | Call (p : position) (func : node) (args : list node)
  | Num (p : position) (n : Z)
  | Str (p : position) (s : string)
  | NameConstant (p : position) (value : singleton)
  | Attribute (p : position) (value : node) (attr : string)
              (ctx : expr_context)
  | Name (p : position) (id : string) (ctx : expr_context)
  | List (p : position) (elts : list node) (ctx : expr_context)
  | Tuple (p : position) (elts : list node) (ctx : expr_context)
  (* comprehension, excepthandler, arguments, arg *)
  | comprehension (target iter : node) (ifs : list node)
  | ExceptHandler (p : position) (type : option node) (name : option string)
                  (body : list node)
  | arguments (args : list node) (defaults : list node)
  | arg (p : position) (arg : string) (annotation : option node).

(** [type(node).__name__] *)
Definition class_name (n : node) : string :=
  match n with
  | Module _ => "Module"
  | FunctionDef _ _ _ _ _ => "FunctionDef"
  | ClassDef _ _ _ _ _ => "ClassDef"
  | Return _ _ => "Return"
  | Assign _ _ _ => "Assign"
  | AugAssign _ _ _ _ => "AugAssign"
  | For _ _ _ _ _ => "For"
  | While _ _ _ _ => "While"
  | If _ _ _ _ => "If"
  | Raise _ _ _ => "Raise"
  | Try _ _ _ _ _ => "Try"
  | TryExcept _ _ _ _ => "TryExcept"
  | TryFinally _ _ _ => "TryFinally"
  | Import _ _ => "Import"
  | ImportFrom _ _ _ => "ImportFrom"
  | Global _ _ => "Global"
  | Nonlocal _ _ => "Nonlocal"
  | Expr _ _ => "Expr"
  | Pass _ => "Pass"
  | Break _ => "Break"
  | Continue _ => "Continue"
  | BinOp _ _ _ _ => "BinOp"
  | Lambda _ _ _ => "Lambda"
  | Dict _ _ _ => "Dict"
  | Set_ _ _ => "Set"
  | ListComp _ _ _ => "ListComp"
  | GeneratorExp _ _ _ => "GeneratorExp"
  | Yield _ _ => "Yield"
  | Compare _ _ _ _ => "Compare"
  | Call _ _ _ => "Call"
  | Num _ _ => "Num"
  | Str _ _ => "Str"
  | NameConstant _ _ => "NameConstant"
  | Attribute _ _ _ _ => "Attribute"
  | Name _ _ _ => "Name"
  | List _ _ _ => "List"
  | Tuple _ _ _ => "Tuple"
  | comprehension _ _ _ => "comprehension"
  | ExceptHandler _ _ _ _ => "ExceptHandler"
  | arguments _ _ => "arguments"
  | arg _ _ _ => "arg"
  end.

(** The [lineno]/[col_offset] attributes; modules, comprehensions and
    argument lists have none. *)
Definition position_of (n : node) : option position :=
  match n with
  | Module _ | comprehension _ _ _ | arguments _ _ => None
  | FunctionDef p _ _ _ _ | ClassDef p _ _ _ _ | Return p _ | Assign p _ _
  | AugAssign p _ _ _ | For p _ _ _ _ | While p _ _ _ | If p _ _ _
  | Raise p _ _ | Try p _ _ _ _ | TryExcept p _ _ _ | TryFinally p _ _
  | Import p _ | ImportFrom p _ _ | Global p _ | Nonlocal p _ | Expr p _
  | Pass p | Break p | Continue p | BinOp p _ _ _ | Lambda p _ _
  | Dict p _ _ | Set_ p _ | ListComp p _ _ | GeneratorExp p _ _
  | Yield p _ | Compare p _ _ _ | Call p _ _ | Num p _ | Str p _
  | NameConstant p _ | Attribute p _ _ _ | Name p _ _ | List p _ _
  | Tuple p _ _ | ExceptHandler p _ _ _ | arg p _ _ => Some p
  end.

End ast.

(** ** The visitor's state *)

(** [Scope = namedtuple('Scope', ['node', 'names', 'globals'])]; [names]
    is a set that the visitor adds to and [globals] a list it appends to. *)
Record Scope : Type := mkScope {
  node : ast.node;
  names : gset string;
  globals : list ast.node;
}.

(** [self.errors] and [self.scope_stack] of a [TreeVisitor].  The top of the
    stack is the last element, as in the source ([append], [[-1]],
    [del ...[-1]]). *)
Record TreeVisitor : Type := mkTreeVisitor {
  errors : list (ast.node * string);
  scope_stack : list Scope;
}.

(** [TreeVisitor.__init__] *)
Definition TreeVisitor_init : TreeVisitor := mkTreeVisitor [] [].

(** Methods of the visitor: state passing over [TreeVisitor], with the
    exceptions that can leave a method. *)
Definition M (A : Type) : Type := TreeVisitor -> result (A * TreeVisitor).

Definition ret {A} (a : A) : M A := fun v => Ok (a, v).

Definition bind {A B} (m : M A) (k : A -> M B) : M B :=
  fun v => match m v with
           | Ok (a, v') => k a v'
           | Raise e => Raise e
           end.

Definition raise {A} (e : exn) : M A := fun _ => Raise e.

Declare Scope visitor_scope.
Delimit Scope visitor_scope with visitor.
Notation "x ← y ; z" := (bind y (fun x => z))
  (at level 20, y at level 100, z at level 200, only parsing) : visitor_scope.
Notation "x ;; z" := (bind x (fun _ => z))
  (at level 100, z at level 200, only parsing, right associativity)
  : visitor_scope.
Local Open Scope visitor_scope.

(** [self.errors.append((node, message))] *)
Definition report (n : ast.node) (message : string) : M unit :=
  fun v => Ok (tt, mkTreeVisitor (errors v ++ [(n, message)]) (scope_stack v)).

(** The visitor after [errs] more findings. *)
Definition with_errors (v : TreeVisitor) (errs : list (ast.node * string))
  : TreeVisitor :=
  mkTreeVisitor (errors v ++ errs) (scope_stack v).

(** ** Blocks *)

(** [isinstance(node, LEAVE_BLOCK)] with
    [LEAVE_BLOCK = (ast.Return, ast.Raise, ast.Continue, ast.Break)] *)
Definition LEAVE_BLOCK (n : ast.node) : bool :=
  match n with
  | ast.Return _ _ | ast.Raise _ _ _ | ast.Continue _ | ast.Break _ => true
  | _ => false
  end.

Definition is_Pass (n : ast.node) : bool :=
  match n with ast.Pass _ => true | _ => false end.

Definition is_Str (n : ast.node) : bool :=
  match n with ast.Str _ _ => true | _ => false end.

(** [get_statement] *)
Definition get_statement (n : ast.node) : string := lower (ast.class_name n).

(** The local variables of [_visit_block]. *)
Record block_locals : Type := mkLocals {
  pass_node : option ast.node;
  has_non_pass : bool;
  leave_node : option ast.node;
  dead_code : bool;
}.

Section visit_block.
Variables (block_required nodes_required docstring can_have_unused_expr : bool).

(** The tail of the loop body, after [leave_node] is updated: the unused
    expression check with its three [continue]s. *)
Definition _visit_block_unused_expr (i : nat) (n : ast.node) : M unit :=
  match n with
  | ast.Expr _ value =>
      if can_have_unused_expr then ret tt
      else if docstring && (i =? 0)%nat && is_Str value then ret tt
      else match value with
           | ast.Call _ _ _ | ast.Yield _ _ => ret tt
           | _ => report n "A203 unused expression"
           end
  | _ => ret tt
  end.

(** One iteration of [for i, node in enumerate(nodes)]. *)
Definition _visit_block_body (i : nat) (n : ast.node) (l : block_locals)
  : M block_locals :=
  let pass_node' := if is_Pass n then Some n else pass_node l in
  let has_non_pass' := if is_Pass n then has_non_pass l else true in
  dead_code' ←
    match leave_node l with
    | Some leave =>
        if negb (dead_code l) then
          report n ("A202 dead code after " +:+ get_statement leave);;
          ret true
        else ret (dead_code l)
    | None => ret (dead_code l)
    end;
  let leave_node' := if LEAVE_BLOCK n then Some n else leave_node l in
  _visit_block_unused_expr i n;;
  ret (mkLocals pass_node' has_non_pass' leave_node' dead_code').

Fixpoint _visit_block_loop (i : nat) (nodes : list ast.node)
  (l : block_locals) : M block_locals :=
  match nodes with
  | [] => ret l
  | n :: rest =>
      l' ← _visit_block_body i n l;
      _visit_block_loop (S i) rest l'
  end.

(** [TreeVisitor._visit_block] *)
Definition _visit_block (nodes : list ast.node) : M unit :=
  l ← _visit_block_loop 0 nodes (mkLocals None false None false);
  match pass_node l with
  | Some pass =>
      (if negb nodes_required || (1 <? length nodes)%nat
       then report pass "A204 redundant pass statement"
       else ret tt);;
      (if negb block_required && negb (has_non_pass l)
       then report pass "A205 empty block"
       else ret tt)
  | None => ret tt
  end.

End visit_block.

(** ** Constant folding *)

(** The values an expression folds to: [None], booleans, integers, strings,
    tuples of values, objects of the interpreter known by name (built-in
    functions, the [builtins] module), objects known by identity only
    ([object()] instances), and every other value (a float, bytes, a
    list, ...), which only the interpreter can tell apart, under a handle
    of its own choice. *)
Inductive value : Set :=
  | VNone
  | VBool (b : bool)
  | VInt (z : Z)
  | VStr (s : string)
  | VTuple (items : list value)
  | VBuiltin (name : string)
  | VObject (id : nat)
  | VOther (handle : nat).

(** [int(x)] of a boolean or an integer. *)
Definition number_of (x : value) : option Z :=
  match x with
  | VBool b => Some (if b then 1 else 0)
  | VInt z => Some z
  | _ => None
  end.

(** [a is b or a == b] on the values that are spelled out. *)
Fixpoint py_eq (a b : value) : bool :=
  match a, b with
  | VNone, VNone => true
  | VStr s, VStr t => String.eqb s t
  | VTuple l, VTuple m =>
      (fix all2 (l m : list value) : bool :=
         match l, m with
         | [], [] => true
         | x :: l', y :: m' => py_eq x y && all2 l' m'
         | _, _ => false
         end) l m
  | VBuiltin s, VBuiltin t => String.eqb s t
  | VObject i, VObject j => (i =? j)%nat
  | (VBool _ | VInt _), (VBool _ | VInt _) =>
      bool_decide (number_of a = number_of b)
  | _, _ => false
  end.

(** A value that is spelled out: no value of another kind in it. *)
Fixpoint plain (a : value) : bool :=
  match a with
  | VTuple items => forallb plain items
  | VOther _ => false
  | _ => true
  end.

(** The names that [compile] does not treat as ordinary names: whether it
    makes a constant of such a name, rejects it or looks it up depends on
    the version of the interpreter. *)
Definition is_special_name (id : string) : bool :=
  existsb (String.eqb id) ["None"; "True"; "False"; "__debug__"].

(** A dict used as the globals of [eval]: its items other than
    [__builtins__], the mapping under [__builtins__] when that key is
    present, whether the dict is a [defaultdict(object)], and the identity
    the next [object()] made by the default factory gets. *)
Record namespace : Type := mkNamespace {
  ns_items : gmap string value;
  ns_builtins : option (gmap string value);
  ns_default_factory : bool;
  ns_next_object : nat;
}.

(** What the checks take from the interpreter: [sys.version_info[0]],
    [vars(builtins)], [eval(compile(ast.Expression(node), '', 'eval'),
    namespace)] for the nodes whose evaluation is not spelled out in
    [py_eval] below (it returns the value or the exception raised, and the
    namespace as evaluation left it), [x is key or x == key] as [in]
    evaluates it for a list item [x] when one of the two values is not
    spelled out (the [__eq__] of such a value may raise),
    [ascii(eval(literal))] for the text of a string literal, and
    [ascii.__name__].  In every version [vars(builtins)] holds [None],
    [True], [False] and [__debug__]. *)
Record interpreter : Type := mkInterpreter {
  version_major : Z;
  vars_builtins : gmap string value;
  eval_compound : ast.node -> namespace -> result value * namespace;
  eq_other : value -> value -> result bool;
  ascii_eval : string -> result string;
  ascii_name : string;
  vars_builtins_special :
    forall id, is_special_name id = true -> is_Some (vars_builtins !! id);
}.

Definition value_of_singleton (c : ast.singleton) : value :=
  match c with
  | ast.PyTrue => VBool true
  | ast.PyFalse => VBool false
  | ast.PyNone => VNone
  end.

Section fold.
Variable py : interpreter.

(** Name lookup in [eval(code, namespace)], where the namespace is both
    globals and locals: [eval] first stores the interpreter's builtins
    under [__builtins__] when the key is missing; the name is then looked
    up in the dict, where a [defaultdict(object)] makes and keeps a new
    object for a missing key; otherwise in the [__builtins__] mapping. *)
Definition load_name (id : string) (ns : namespace)
  : result value * namespace :=
  let ns :=
    match ns_builtins ns with
    | Some _ => ns
    | None => mkNamespace (ns_items ns) (Some (vars_builtins py))
                          (ns_default_factory ns) (ns_next_object ns)
    end in
  if String.eqb id "__builtins__" then (Ok (VBuiltin "__builtins__"), ns)
  else match ns_items ns !! id with
       | Some v => (Ok v, ns)
       | None =>
           if ns_default_factory ns then
             let o := VObject (ns_next_object ns) in
             (Ok o, mkNamespace (<[id := o]> (ns_items ns)) (ns_builtins ns)
                                true (S (ns_next_object ns)))
           else match ns_builtins ns ≫= (.!! id) with
                | Some v => (Ok v, ns)
                | None => (Raise NameError, ns)
                end
       end.

(** [eval(compile(ast.Expression(node), '', 'eval'), namespace)]:
    literals and ordinary names in load context are evaluated here,
    [None] in place of a node is rejected by [compile], everything else
    is the interpreter's.  So is a [Name] node for [None], [True],
    [False] or [__debug__]: Python 2 looks [True] up like any name, later
    versions make constants of such names or refuse the node with
    [ValueError]. *)
Definition py_eval (n : option ast.node) (ns : namespace)
  : result value * namespace :=
  match n with
  | None => (Raise TypeError, ns)
  | Some (ast.Num _ z) => (Ok (VInt z), ns)
  | Some (ast.Str _ s) => (Ok (VStr s), ns)
  | Some (ast.NameConstant _ c) => (Ok (value_of_singleton c), ns)
  | Some (ast.Name _ id ast.Load as name) =>
      if is_special_name id then eval_compound py name ns
      else load_name id ns
  | Some n => eval_compound py n ns
  end.

(** [x is key or x == key] *)
Definition value_eq (x key : value) : result bool :=
  if plain x && plain key then Ok (py_eq x key) else eq_other py x key.

(** [key in keys] on a list: the items are compared in order up to the
    first that is equal; an exception of a comparison leaves the test. *)
Fixpoint contains_value (keys : list value) (key : value) : result bool :=
  match keys with
  | [] => Ok false
  | x :: rest =>
      match value_eq x key with
      | Ok true => Ok true
      | Ok false => contains_value rest key
      | Raise e => Raise e
      end
  end.

(** The result of [evaluate]: a value or the [VOLATILE] sentinel. *)
Inductive folded : Set :=
  | Value (v : value)
  | VOLATILE.

(** [evaluate]: [except Exception] catches the exceptions that derive
    from [Exception]; any other exception leaves the function. *)
Definition evaluate (n : option ast.node) (ns : namespace)
  : result folded * namespace :=
  match py_eval n ns with
  | (Ok v, ns') => (Ok (Value v), ns')
  | (Raise e, ns') =>
      if is_Exception e then (Ok VOLATILE, ns') else (Raise e, ns')
  end.

(** [{'__builtins__': {'True': True, 'False': False, 'None': None}}] *)
Definition const_namespace : namespace :=
  mkNamespace ∅
    (Some (<["True" := VBool true]> (<["False" := VBool false]>
           (<["None" := VNone]> ∅))))
    false 0.

(** [is_const] *)
Definition is_const (n : ast.node) : result bool :=
  match fst (evaluate (Some n) const_namespace) with
  | Ok (Value _) => Ok true
  | Ok VOLATILE => Ok false
  | Raise e => Raise e
  end.

(** [collections.defaultdict(object, vars(builtins))] *)
Definition builtins_namespace : namespace :=
  mkNamespace (vars_builtins py) None true 0.

End fold.

(** ** The tree visitor *)

Definition DISCOURAGED_APIS : gmap string string :=
  <["re.match" := "re.search"]> (<["codecs.open" := "io.open"]> ∅).

(** [get_identifier]; [None] when neither branch applies. *)
Definition get_identifier (n : ast.node) : option string :=
  match n with
  | ast.Name _ id _ => Some id
  | ast.Attribute _ (ast.Name _ id _) attr _ => Some (id +:+ "." +:+ attr)
  | _ => None
  end.

(** [handler.body] for the nodes handed to [_check_redundant_else]. *)
Definition get_body (n : ast.node) : result (list ast.node) :=
  match n with
  | ast.Module body | ast.FunctionDef _ _ _ body _ | ast.ClassDef _ _ _ body _
  | ast.For _ _ _ body _ | ast.While _ _ body _ | ast.If _ _ body _
  | ast.Try _ body _ _ _ | ast.TryExcept _ body _ _ | ast.TryFinally _ body _
  | ast.ExceptHandler _ _ _ body => Ok body
  | ast.Lambda _ _ _ => Raise TypeError
  | _ => Raise AttributeError
  end.

(** [declaration.names]; only [Global] and [Nonlocal] nodes are ever
    appended to a scope's [globals]. *)
Definition get_names (n : ast.node) : result (list string) :=
  match n with
  | ast.Global _ names | ast.Nonlocal _ names => Ok names
  | _ => Raise AttributeError
  end.

Definition is_FunctionDef (n : ast.node) : bool :=
  match n with ast.FunctionDef _ _ _ _ _ => true | _ => false end.

Definition is_Module (n : ast.node) : bool :=
  match n with ast.Module _ => true | _ => false end.

(** [bool(nodes)] of a list *)
Definition nonempty {A} (l : list A) : bool :=
  match l with [] => false | _ => true end.

Section TreeVisitor.
Variable py : interpreter.

(** [ESSENTIAL_BUILTINS] *)
Definition ESSENTIAL_BUILTINS : gset string :=
  dom (vars_builtins py)
    ∖ ({["apply"]} ∪ {["buffer"]} ∪ {["coerce"]} ∪ {["intern"]} ∪ {["file"]}).

(** The loop of [_check_redundant_else] over the handlers: [None] when
    the [else] of the inner loop returns, otherwise the last value of
    [leave_node], [None] there while it is unbound. *)
Fixpoint _check_redundant_else_loop (handlers : list ast.node)
  (leave_node : option ast.node) : result (option (option ast.node)) :=
  match handlers with
  | [] => Ok (Some leave_node)
  | handler :: rest =>
      match get_body handler with
      | Ok body =>
          match List.find LEAVE_BLOCK body with
          | Some child => _check_redundant_else_loop rest (Some child)
          | None => Ok None
          end
      | Raise e => Raise e
      end
  end.

(** [TreeVisitor._check_redundant_else] *)
Definition _check_redundant_else (orelse handlers : list ast.node)
  (clause : string) : M unit :=
  match orelse with
  | [] => ret tt
  | first :: _ =>
      match _check_redundant_else_loop handlers None with
      | Raise e => raise e
      | Ok None => ret tt
      | Ok (Some None) => raise UnboundLocalError
      | Ok (Some (Some leave)) =>
          report first ("A206 Extraneous else statement after " +:+
                        get_statement leave +:+ " in " +:+ clause +:+
                        "-clause")
      end
  end.

(** [self.scope_stack[-1]] *)
Definition top_scope : M Scope :=
  fun v => match last (scope_stack v) with
           | Some scope => Ok (scope, v)
           | None => Raise IndexError
           end.

(** A mutation of the scope object on top of the stack. *)
Definition update_top (f : Scope -> Scope) : M unit :=
  fun v => match last (scope_stack v) with
           | Some scope =>
               Ok (tt, mkTreeVisitor (errors v)
                         (removelast (scope_stack v) ++ [f scope]))
           | None => Raise IndexError
           end.

(** [TreeVisitor._visit_stored_name] *)
Definition _visit_stored_name (n : ast.node) (name : string) : M unit :=
  scope ← top_scope;
  update_top (fun s => mkScope (node s) ({[name]} ∪ names s) (globals s));;
  if bool_decide (name ∈ ESSENTIAL_BUILTINS) && is_FunctionDef (node scope)
  then report n ("A302 redefined built-in " +:+ name)
  else ret tt.

(** [TreeVisitor.visit_Name] *)
Definition visit_Name (n : ast.node) (id : string) (ctx : ast.expr_context)
  : M unit :=
  match ctx with
  | ast.Store | ast.Param => _visit_stored_name n id
  | _ => ret tt
  end.

(** [TreeVisitor.visit_arg] *)
Definition visit_arg (n : ast.node) (arg : string) : M unit :=
  _visit_stored_name n arg.

(** [TreeVisitor._visit_with_scope].  The scope returned is the one deleted
    from the top of the stack: the traversal of the children leaves the
    stack as it found it, so this is the scope pushed here (lemma
    [visit_with_scope_own_scope]). *)
Definition _visit_with_scope (n : ast.node) (generic_visit : M unit)
  : M Scope :=
  (fun v => Ok (tt, mkTreeVisitor (errors v)
                      (scope_stack v ++ [mkScope n ∅ []])));;
  generic_visit;;
  scope ← top_scope;
  (fun v => Ok (tt, mkTreeVisitor (errors v) (removelast (scope_stack v))));;
  ret scope.

(** [TreeVisitor.visit_Module] *)
Definition visit_Module (n : ast.node) (body : list ast.node)
  (generic_visit : M unit) : M unit :=
  _visit_block true false true false body;;
  _visit_with_scope n generic_visit;;
  ret tt.

(** The inner loop of [visit_FunctionDef] over [declaration.names]. *)
Fixpoint _redundant_names (scope : Scope) (declaration : ast.node)
  (names_ : list string) (global_names : gset string) : M (gset string) :=
  match names_ with
  | [] => ret global_names
  | name :: rest =>
      if negb (bool_decide (name ∈ names scope))
         || bool_decide (name ∈ global_names)
      then
        report declaration ("A201 redundant " +:+ get_statement declaration
                            +:+ " declaration for " +:+ name);;
        _redundant_names scope declaration rest global_names
      else _redundant_names scope declaration rest ({[name]} ∪ global_names)
  end.

(** The outer loop of [visit_FunctionDef] over [scope.globals]. *)
Fixpoint _redundant_declarations (scope : Scope)
  (declarations : list ast.node) (global_names : gset string) : M unit :=
  match declarations with
  | [] => ret tt
  | declaration :: rest =>
      match get_names declaration with
      | Ok names_ =>
          global_names' ←
            _redundant_names scope declaration names_ global_names;
          _redundant_declarations scope rest global_names'
      | Raise e => raise e
      end
  end.

(** [TreeVisitor.visit_FunctionDef], also [visit_ClassDef] *)
Definition visit_FunctionDef (n : ast.node) (name : string)
  (body : list ast.node) (generic_visit : M unit) : M unit :=
  _visit_stored_name n name;;
  _visit_block true true true false body;;
  scope ← _visit_with_scope n generic_visit;
  _redundant_declarations scope (globals scope) ∅.

(** [TreeVisitor.visit_Global], also [visit_Nonlocal] *)
Definition visit_Global (n : ast.node) : M unit :=
  scope ← top_scope;
  update_top (fun s => mkScope (node s) (names s) (globals s ++ [n]));;
  if is_Module (node scope)
  then report n ("A201 " +:+ get_statement n +:+
                 " declaration on top-level")
  else ret tt.

(** [TreeVisitor._visit_iter] *)
Definition _visit_iter (n : ast.node) : M unit :=
  match n with
  | ast.Tuple _ _ _ | ast.Set_ _ _ =>
      report n "A101 use lists for data that have order"
  | _ => ret tt
  end.

(** [TreeVisitor.visit_If] *)
Definition visit_If (n : ast.node) (body orelse : list ast.node)
  (generic_visit : M unit) : M unit :=
  _visit_block (nonempty orelse) true false false body;;
  _visit_block false true false false orelse;;
  _check_redundant_else orelse [n] "if";;
  generic_visit.

(** [TreeVisitor.visit_Try] *)
Definition visit_Try (body handlers orelse finalbody : list ast.node)
  (generic_visit : M unit) : M unit :=
  _visit_block false true false (nonempty handlers) body;;
  _visit_block false true false false orelse;;
  _visit_block false true false false finalbody;;
  _check_redundant_else orelse handlers "except";;
  generic_visit.

(** [TreeVisitor.visit_TryExcept] *)
Definition visit_TryExcept (body handlers orelse : list ast.node)
  (generic_visit : M unit) : M unit :=
  _visit_block false true false true body;;
  _visit_block false true false false orelse;;
  _check_redundant_else orelse handlers "except";;
  generic_visit.

(** [TreeVisitor.visit_TryFinally] *)
Definition visit_TryFinally (body finalbody : list ast.node)
  (generic_visit : M unit) : M unit :=
  _visit_block false true false false body;;
  _visit_block false true false false finalbody;;
  generic_visit.

(** [TreeVisitor.visit_ExceptHandler] *)
Definition visit_ExceptHandler (body : list ast.node)
  (generic_visit : M unit) : M unit :=
  _visit_block true true false false body;;
  generic_visit.

(** [TreeVisitor.visit_comprehension] *)
Definition visit_comprehension (iter : ast.node) (generic_visit : M unit)
  : M unit :=
  _visit_iter iter;;
  generic_visit.

(** [TreeVisitor.visit_For] *)
Definition visit_For (iter : ast.node) (body orelse : list ast.node)
  (generic_visit : M unit) : M unit :=
  _visit_iter iter;;
  _visit_block true true false false body;;
  _visit_block false true false false orelse;;
  generic_visit.

(** [TreeVisitor.visit_While] *)
Definition visit_While (body orelse : list ast.node)
  (generic_visit : M unit) : M unit :=
  _visit_block true true false false body;;
  _visit_block false true false false orelse;;
  generic_visit.

(** [TreeVisitor.visit_BinOp] *)
Definition visit_BinOp (n left : ast.node) (op : ast.operator)
  (right : ast.node) (generic_visit : M unit) : M unit :=
  (match op with
   | ast.Mod =>
       if is_Str left
       then report n ("A107 use format() instead of " +:+
                      "% operator for string formatting")
       else ret tt
   | _ => ret tt
   end);;
  (match op, left with
   | ast.Add, ast.BinOp _ left_left ast.Add left_right =>
       if is_Str left_left || is_Str left_right || is_Str right
       then report n ("A108 use format() instead of " +:+
                      "+ operator when concatenating " +:+
                      "more than two strings")
       else ret tt
   | _, _ => ret tt
   end);;
  generic_visit.

(** [is_const] inside a method: its exception leaves the method. *)
Definition is_const_ (n : ast.node) : M bool :=
  fun v => match is_const py n with
           | Ok b => Ok (b, v)
           | Raise e => Raise e
           end.

Definition membership (op : ast.cmpop) : bool :=
  match op with ast.In | ast.NotIn => true | _ => false end.

Definition symmetric (op : ast.cmpop) : bool :=
  match op with
  | ast.Eq | ast.NotEq | ast.Is | ast.IsNot => true
  | _ => false
  end.

(** [consts_first = single and not membership or symmetric] *)
Definition consts_first (single : bool) (op : ast.cmpop) : bool :=
  single && negb (membership op) || symmetric op.

(** The loop of [visit_Compare] over [zip(node.ops, node.comparators)]. *)
Fixpoint visit_Compare_loop (single : bool) (left : ast.node)
  (ops : list ast.cmpop) (comparators : list ast.node) : M unit :=
  match ops, comparators with
  | op :: ops', right_ :: comparators' =>
      (match right_ with
       | ast.Tuple _ _ _ | ast.List _ _ _ =>
           if membership op
           then report right_ "A102 use sets for distinct unordered data"
           else ret tt
       | _ => ret tt
       end);;
      (if consts_first single op then
         left_const ← is_const_ left;
         if left_const then
           right_const ← is_const_ right_;
           if negb right_const then report left "A103 yoda condition"
           else ret tt
         else ret tt
       else ret tt);;
      visit_Compare_loop single right_ ops' comparators'
  | _, _ => ret tt
  end.

(** [TreeVisitor.visit_Compare] *)
Definition visit_Compare (left : ast.node) (ops : list ast.cmpop)
  (comparators : list ast.node) (generic_visit : M unit) : M unit :=
  visit_Compare_loop (length ops =? 1)%nat left ops comparators;;
  generic_visit.

(** [TreeVisitor._check_deprecated]; [name] is [None] when
    [get_identifier] found none. *)
Definition _check_deprecated (n : ast.node) (name : option string)
  : M unit :=
  match name ≫= (DISCOURAGED_APIS !!.) with
  | Some substitute =>
      match name with
      | Some name =>
          report n ("A301 use " +:+ substitute +:+ "() instead of " +:+
                    name +:+ "()")
      | None => ret tt
      end
  | None => ret tt
  end.

Definition is_Tuple_or_List (n : ast.node) : bool :=
  match n with ast.Tuple _ _ _ | ast.List _ _ _ => true | _ => false end.

(** [func in names] for the optional identifier of the callee. *)
Definition func_in (func : option string) (names_ : list string) : bool :=
  match func with
  | Some f => existsb (String.eqb f) names_
  | None => false
  end.

(** [TreeVisitor.visit_Call] *)
Definition visit_Call (n func_node : ast.node) (args : list ast.node)
  (generic_visit : M unit) : M unit :=
  let func := get_identifier func_node in
  let arg := head args in
  redundant_literal ←
    match arg with
    | Some (ast.Lambda _ _ _) =>
        (if (length args =? 2)%nat &&
            func_in func ["map"; "filter"; "imap"; "ifilter";
                          "itertools.imap"; "itertools.ifilter"]
         then
           match func with
           | Some f =>
               report n ("A104 use a comprehension instead of calling " +:+
                         f +:+ "() with lambda function")
           | None => ret tt
           end
         else ret tt);;
        ret false
    | Some (ast.List _ elts _) | Some (ast.Tuple _ elts _) =>
        if func_in func ["dict"]
        then ret (forallb is_Tuple_or_List elts)
        else ret (func_in func ["list"; "set"; "tuple"])
    | Some (ast.ListComp _ elt _) | Some (ast.GeneratorExp _ elt _) =>
        if func_in func ["dict"]
        then ret (is_Tuple_or_List elt)
        else ret (func_in func ["list"; "set"])
    | _ => ret false
    end;
  (if redundant_literal : bool then
     match func with
     | Some f =>
         report n ("A105 use a " +:+ f +:+ " literal or comprehension " +:+
                   "instead of calling " +:+ f +:+ "()")
     | None => ret tt
     end
   else ret tt);;
  _check_deprecated n func;;
  generic_visit.

(** [alias.asname or alias.name] *)
Definition bound_name (a : ast.alias) : string :=
  match ast.asname a with
  | Some s => if String.eqb s EmptyString then ast.name a else s
  | None => ast.name a
  end.

(** [TreeVisitor.visit_Import], also [visit_ImportFrom]; [module] is
    [None] on an [Import] node, which has no such attribute, and
    otherwise the text [format] gives for [node.module]. *)
Fixpoint visit_Import (n : ast.node) (module : option string)
  (names_ : list ast.alias) : M unit :=
  match names_ with
  | [] => ret tt
  | alias :: rest =>
      _visit_stored_name n (bound_name alias);;
      (match module with
       | Some m => _check_deprecated n (Some (m +:+ "." +:+ ast.name alias))
       | None => ret tt
       end);;
      visit_Import n module rest
  end.

(** [TreeVisitor.visit_Assign] *)
Definition visit_Assign (n : ast.node) (targets : list ast.node)
  (value : ast.node) (generic_visit : M unit) : M unit :=
  (match value, targets with
   | ast.BinOp _ (ast.Name _ left_id _) _ _, [ast.Name _ target_id _] =>
       if String.eqb target_id left_id
       then report n ("A106 use augment assignment, " +:+
                      "e.g. x += y instead x = x + y")
       else ret tt
   | _, _ => ret tt
   end);;
  generic_visit.

(** The loop of [_visit_hash_keys]; [keys] and [namespace] are its local
    variables. *)
Fixpoint _visit_hash_keys_loop (nodes : list (option ast.node))
  (what : string) (keys : list value) (ns : namespace) : M unit :=
  match nodes with
  | [] => ret tt
  | n :: rest =>
      match evaluate py n ns with
      | (Raise e, _) => raise e
      | (Ok VOLATILE, ns') => _visit_hash_keys_loop rest what keys ns'
      | (Ok (Value key), ns') =>
          match contains_value py keys key with
          | Raise e => raise e
          | Ok true =>
              (match n with
               | Some n => report n ("A207 duplicate " +:+ what)
               | None => ret tt
               end);;
              _visit_hash_keys_loop rest what keys ns'
          | Ok false => _visit_hash_keys_loop rest what (keys ++ [key]) ns'
          end
      end
  end.

(** [TreeVisitor._visit_hash_keys] *)
Definition _visit_hash_keys (nodes : list (option ast.node))
  (what : string) : M unit :=
  _visit_hash_keys_loop nodes what [] (builtins_namespace py).

(** [TreeVisitor.visit_Dict] *)
Definition visit_Dict (keys : list (option ast.node)) : M unit :=
  _visit_hash_keys keys "key in dict".

(** [TreeVisitor.visit_Set] *)
Definition visit_Set (elts : list ast.node) : M unit :=
  _visit_hash_keys (map Some elts) "item in set".

End TreeVisitor.

(** ** The traversal *)

Section traverse.
Context {A : Type} (f : A -> M unit).

(** [for item in value: self.visit(item)] *)
Fixpoint traverse (l : list A) : M unit :=
  match l with
  | [] => ret tt
  | x :: rest => f x;; traverse rest
  end.

(** A field that holds a node or [None]. *)
Definition traverse_option (o : option A) : M unit :=
  match o with
  | Some x => f x
  | None => ret tt
  end.
End traverse.

(** [ast.NodeVisitor.generic_visit]: [visit] on every node held by a field,
    in the order of the fields. *)
Definition generic_visit (visit : ast.node -> M unit) (n : ast.node)
  : M unit :=
  match n with
  | ast.Module body => traverse visit body
  | ast.FunctionDef _ _ args body decorator_list =>
      visit args;; traverse visit body;; traverse visit decorator_list
  | ast.ClassDef _ _ bases body decorator_list =>
      traverse visit bases;; traverse visit body;;
      traverse visit decorator_list
  | ast.Return _ value => traverse_option visit value
  | ast.Assign _ targets value => traverse visit targets;; visit value
  | ast.AugAssign _ target _ value => visit target;; visit value
  | ast.For _ target iter body orelse =>
      visit target;; visit iter;; traverse visit body;; traverse visit orelse
  | ast.While _ test body orelse | ast.If _ test body orelse =>
      visit test;; traverse visit body;; traverse visit orelse
  | ast.Raise _ exc cause =>
      traverse_option visit exc;; traverse_option visit cause
  | ast.Try _ body handlers orelse finalbody =>
      traverse visit body;; traverse visit handlers;;
      traverse visit orelse;; traverse visit finalbody
  | ast.TryExcept _ body handlers orelse =>
      traverse visit body;; traverse visit handlers;; traverse visit orelse
  | ast.TryFinally _ body finalbody =>
      traverse visit body;; traverse visit finalbody
  | ast.Import _ _ | ast.ImportFrom _ _ _ | ast.Global _ _
  | ast.Nonlocal _ _ | ast.Pass _ | ast.Break _ | ast.Continue _
  | ast.Num _ _ | ast.Str _ _ | ast.NameConstant _ _ | ast.Name _ _ _ =>
      ret tt
  | ast.Expr _ value => visit value
  | ast.BinOp _ left_ _ right_ => visit left_;; visit right_
  | ast.Lambda _ args body => visit args;; visit body
  | ast.Dict _ keys values =>
      traverse (traverse_option visit) keys;; traverse visit values
  | ast.Set_ _ elts | ast.List _ elts _ | ast.Tuple _ elts _ =>
      traverse visit elts
  | ast.ListComp _ elt generators | ast.GeneratorExp _ elt generators =>
      visit elt;; traverse visit generators
  | ast.Yield _ value => traverse_option visit value
  | ast.Compare _ left_ _ comparators =>
      visit left_;; traverse visit comparators
  | ast.Call _ func args => visit func;; traverse visit args
  | ast.Attribute _ value _ _ => visit value
  | ast.comprehension target iter ifs =>
      visit target;; visit iter;; traverse visit ifs
  | ast.ExceptHandler _ type _ body =>
      traverse_option visit type;; traverse visit body
  | ast.arguments args defaults =>
      traverse visit args;; traverse visit defaults
  | ast.arg _ _ annotation => traverse_option visit annotation
  end.

Section visit.
Variable py : interpreter.

(** The method [ast.NodeVisitor.visit] finds for the class of the node,
    [generic_visit] where the visitor has none; [generic_visit] is the
    call [self.generic_visit(node)]. *)
Definition visit_method (n : ast.node) (generic_visit : M unit) : M unit :=
  match n with
  | ast.If _ _ body orelse => visit_If n body orelse generic_visit
  | ast.Try _ body handlers orelse finalbody =>
      visit_Try body handlers orelse finalbody generic_visit
  | ast.TryExcept _ body handlers orelse =>
      visit_TryExcept body handlers orelse generic_visit
  | ast.TryFinally _ body finalbody =>
      visit_TryFinally body finalbody generic_visit
  | ast.ExceptHandler _ _ _ body => visit_ExceptHandler body generic_visit
  | ast.Name _ id ctx => visit_Name py n id ctx
  | ast.arg _ arg _ => visit_arg py n arg
  | ast.Module body => visit_Module n body generic_visit
  | ast.FunctionDef _ name _ body _ | ast.ClassDef _ name _ body _ =>
      visit_FunctionDef py n name body generic_visit
  | ast.Global _ _ | ast.Nonlocal _ _ => visit_Global n
  | ast.comprehension _ iter _ => visit_comprehension iter generic_visit
  | ast.For _ _ iter body orelse => visit_For iter body orelse generic_visit
  | ast.While _ _ body orelse => visit_While body orelse generic_visit
  | ast.BinOp _ left_ op right_ =>
      visit_BinOp n left_ op right_ generic_visit
  | ast.Compare _ left_ ops comparators =>
      visit_Compare py left_ ops comparators generic_visit
  | ast.Call _ func args => visit_Call n func args generic_visit
  | ast.Import _ names_ => visit_Import py n None names_
  | ast.ImportFrom _ module names_ =>
      visit_Import py n (Some (default "None" module)) names_
  | ast.Assign _ targets value => visit_Assign n targets value generic_visit
  | ast.Dict _ keys _ => visit_Dict py keys
  | ast.Set_ _ elts => visit_Set py elts
  | _ => generic_visit
  end.

(** [TreeVisitor.visit] *)
Fixpoint visit (n : ast.node) : M unit :=
  visit_method n (generic_visit visit n).

(** A finding as the host gets it: [(line, column, message, None)]. *)
Record finding : Set := mkFinding {
  line : Z;
  column : Z;
  message : string;
}.

(** The loop of [check_ast] over [visitor.errors]: the findings yielded,
    and the exception that ends the generator when a node has no
    [lineno]. *)
Fixpoint check_ast_yield (errs : list (ast.node * string))
  : list finding * option exn :=
  match errs with
  | [] => ([], None)
  | (n, error) :: rest =>
      match ast.position_of n with
      | Some p =>
          let (found, e) := check_ast_yield rest in
          (mkFinding (ast.lineno p) (ast.col_offset p) error :: found, e)
      | None => ([], Some AttributeError)
      end
  end.

(** [check_ast] *)
Definition check_ast (tree : ast.node) : list finding * option exn :=
  match visit tree TreeVisitor_init with
  | Ok (_, visitor) => check_ast_yield (errors visitor)
  | Raise e => ([], Some e)
  end.

End visit.

(** ** The physical line check *)

(** [\s] of a pattern.  A character of a string stands for the code point
    of its number, below 256.  On Python 2 the lines are byte strings and
    [\s] is the ASCII whitespace; on Python 3 they are text and [\s] also
    matches the separators 28 to 31, the next-line character 133 and the
    no-break space 160. *)
Definition is_space (py : interpreter) (c : ascii) : bool :=
  let n := nat_of_ascii c in
  ((9 <=? n) && (n <=? 13) || (n =? 32)
   || (3 <=? version_major py)%Z
      && ((28 <=? n) && (n <=? 31) || (n =? 133) || (n =? 160)))%nat.

Definition NEWLINE_CHAR : ascii := ascii_of_nat 10.
Definition QUOTE : ascii := ascii_of_nat 39.
Definition DQUOTE : ascii := ascii_of_nat 34.

Fixpoint skip_spaces (py : interpreter) (s : string) : string :=
  match s with
  | String c r => if is_space py c then skip_spaces py r else s
  | EmptyString => s
  end.

(** The text up to the first newline: what [.*] can match. *)
Fixpoint first_line (s : string) : string :=
  match s with
  | String c r =>
      if Ascii.eqb c NEWLINE_CHAR then EmptyString else String c (first_line r)
  | EmptyString => EmptyString
  end.

(** [re.search(r'^\s*#.*coding[:=]', physical_line)] finds a match. *)
Definition coding_declaration (py : interpreter) (physical_line : string)
  : bool :=
  match skip_spaces py physical_line with
  | String "#" rest =>
      contains "coding:" (first_line rest) ||
      contains "coding=" (first_line rest)
  | _ => false
  end.

(** [check_non_default_encoding]; [None] is the implicit return. *)
Definition check_non_default_encoding (py : interpreter)
  (physical_line : string) (line_number : Z) : option (Z * string) :=
  if (line_number <=? 2)%Z && coding_declaration py physical_line
  then Some (0, "A303 non-default file encoding")
  else None.

(** ** The logical line checks *)

Module tokenize.
(** The token types. *)
Inductive kind : Set :=
  | ENDMARKER | NAME | NUMBER | STRING | NEWLINE | INDENT | DEDENT
  | OP | COMMENT | NL | ERRORTOKEN.

Definition kind_eqb (a b : kind) : bool :=
  match a, b with
  | ENDMARKER, ENDMARKER | NAME, NAME | NUMBER, NUMBER | STRING, STRING
  | NEWLINE, NEWLINE | INDENT, INDENT | DEDENT, DEDENT | OP, OP
  | COMMENT, COMMENT | NL, NL | ERRORTOKEN, ERRORTOKEN => true
  | _, _ => false
  end.

(** A token: [(type, string, start, end, line)], positions as
    [(row, column)]. *)
Record token : Set := mkToken {
  type : kind;
  text : string;
  start : Z * Z;
  end_ : Z * Z;
  line : string;
}.
End tokenize.

(** A finding of a logical line check: [(position, message)]. *)
Definition line_finding : Set := (Z * Z) * string.

Fixpoint span (p : ascii -> bool) (s : string) : string * string :=
  match s with
  | String c r =>
      if p c then let (a, b) := span p r in (String c a, b)
      else (EmptyString, s)
  | EmptyString => (EmptyString, EmptyString)
  end.

(** [text] with [s = text + suffix], if [s] ends with [suffix]. *)
Fixpoint strip_suffix (suffix s : string) : option string :=
  if String.eqb s suffix then Some EmptyString
  else match s with
       | String c r => String c <$> strip_suffix suffix r
       | EmptyString => None
       end.

Fixpoint take_chars (k : nat) (s : string) : option (string * string) :=
  match k, s with
  | O, _ => Some (EmptyString, s)
  | S k', String c r =>
      '(a, b) ← take_chars k' r; Some (String c a, b)
  | S _, EmptyString => None
  end.

Definition is_prefix_char (c : ascii) : bool :=
  existsb (Ascii.eqb c) (list_ascii_of_string "rubRUB").

Definition is_quote_char (c : ascii) : bool :=
  Ascii.eqb c QUOTE || Ascii.eqb c DQUOTE.

Fixpoint all_chars (p : ascii -> bool) (s : string) : bool :=
  match s with
  | String c r => p c && all_chars p r
  | EmptyString => true
  end.

(** The quote group with [k] quote characters, then the text group (any
    characters, newlines too) followed by the quote group again and [$]:
    the text up to the same quote at the end of the string or before its
    final newline. *)
Definition match_quoted (k : nat) (s : string) : option (string * string) :=
  match take_chars k s with
  | Some (quote, r) =>
      if all_chars is_quote_char quote then
        match strip_suffix quote r with
        | Some text => Some (quote, text)
        | None =>
            (fun text => (quote, text)) <$>
              strip_suffix (quote +:+ String NEWLINE_CHAR EmptyString) r
        end
      else None
  | None => None
  end.

(** The [re.search] of [check_quotes] on a string token, with
    [re.IGNORECASE | re.DOTALL]: a run of the letters r, u, b, a group of
    one to three quote characters, the text, and the quote group again at
    the end.  The result is the three groups, [None] without a match.  The
    greedy quote group is tried with three, two and one character. *)
Definition match_string_token (token : string)
  : option (string * string * string) :=
  let (prefixes, s) := span is_prefix_char token in
  match match_quoted 3 s with
  | Some (quote, text) => Some (prefixes, quote, text)
  | None =>
      match match_quoted 2 s with
      | Some (quote, text) => Some (prefixes, quote, text)
      | None =>
          (fun '(quote, text) => (prefixes, quote, text)) <$> match_quoted 1 s
      end
  end.

(** [re.search(r'^(?:(?:def|class)\s|$)', previous_logical)] finds a
    match. *)
Definition after_def_or_blank (py : interpreter) (previous_logical : string)
  : bool :=
  match previous_logical with
  | EmptyString => true
  | String "d" (String "e" (String "f" (String c _))) => is_space py c
  | String "c" (String "l" (String "a" (String "s" (String "s"
      (String c _))))) => is_space py c
  | String c EmptyString => Ascii.eqb c NEWLINE_CHAR
  | _ => false
  end.

(** What a generator does when it is run to its end: the findings it
    yields, and the exception that ends it, if one does. *)
Definition generated : Set := list line_finding * option exn.

(** [yield] of [found], then the rest of the generator. *)
Definition yield_then (found : list line_finding) (rest : generated)
  : generated :=
  (found ++ fst rest, snd rest).

Definition A112_message : string :=
  "A112 use " +:+ String DQUOTE "from __future__ import unicode_literals" +:+
  String DQUOTE " instead of prefixing literals with " +:+
  String DQUOTE "u" +:+ String DQUOTE EmptyString.

Section check_quotes.
Variable py : interpreter.
Variable previous_logical : string.
(** [checker_state], after the update at the start of [check_quotes]. *)
Variable checker_state : gmap string bool.

(** The branches of the loop body after the A112 check: the findings
    about the quotes of one string token. *)
Definition check_quotes_style (first_token : bool) (t : tokenize.token)
  (prefixes quote text : string) : result (list line_finding) :=
  if first_token && after_def_or_blank py previous_logical then
    Ok []   (* Ignore docstrings *)
  else if negb (fst (tokenize.start t) =? fst (tokenize.end_ t))%Z then
    Ok []   (* Ignore multiline strings *)
  else if contains "r" prefixes then
    if negb (String.eqb quote (String QUOTE EmptyString)) &&
       negb (String.eqb quote (String DQUOTE EmptyString) &&
             contains (String QUOTE EmptyString) text)
    then Ok [(tokenize.start t, "A110 use single quotes for raw string")]
    else Ok []
  else
    let prefix :=
      if (3 <=? version_major py)%Z then
        if contains "b" prefixes then "b" else EmptyString
      else
        let u_literals := default false (checker_state !! "has_unicode_literals") in
        if contains "u" prefixes || u_literals && negb (contains "b" prefixes)
        then "u" else EmptyString in
    let literal := prefix +:+ quote +:+ text +:+ quote in
    match ascii_eval py literal with
    | Ok canonical =>
        if negb (String.eqb canonical literal)
        then Ok [(tokenize.start t,
                  "A110 string literal doesn't match " +:+ ascii_name py
                  +:+ "()")]
        else Ok []
    | Raise e => Raise e
    end.

(** The loop of [check_quotes] over the tokens. *)
Fixpoint check_quotes_loop (tokens : list tokenize.token)
  (first_token : bool) : generated :=
  match tokens with
  | [] => ([], None)
  | t :: rest =>
      match tokenize.type t with
      | tokenize.INDENT | tokenize.DEDENT =>
          check_quotes_loop rest first_token
      | tokenize.STRING =>
          match match_string_token (tokenize.text t) with
          | Some (prefixes, quote, text) =>
              let prefixes := lower prefixes in
              yield_then
                (if contains "u" prefixes
                 then [(tokenize.start t, A112_message)] else [])
                match check_quotes_style first_token t prefixes quote text
                with
                | Ok found =>
                    yield_then found (check_quotes_loop rest false)
                | Raise e => ([], Some e)
                end
          | None => ([], Some AttributeError)   (* match.groups() *)
          end
      | _ => check_quotes_loop rest false
      end
  end.
End check_quotes.

(** [check_quotes]: what the generator yields, how it ends, and
    [checker_state] as it leaves it. *)
Definition check_quotes (py : interpreter) (logical_line : string)
  (tokens : list tokenize.token) (previous_logical : string)
  (checker_state : gmap string bool) : generated * gmap string bool :=
  let token_strings := map tokenize.text tokens in
  let future_import :=
    bool_decide (take 3 token_strings = ["from"; "__future__"; "import"]) in
  let checker_state :=
    if future_import && bool_decide ("unicode_literals" ∈ token_strings)
    then <["has_unicode_literals" := true]> checker_state
    else checker_state in
  (check_quotes_loop py previous_logical checker_state tokens true,
   checker_state).

Definition is_op (t : tokenize.token) (s : string) : bool :=
  tokenize.kind_eqb (tokenize.type t) tokenize.OP &&
  String.eqb (tokenize.text t) s.

Section check_redundant_parenthesis.
Variable tokens : list tokenize.token.
Variable start_line : Z.

(** The loop of [check_redundant_parenthesis]: [rest] are the tokens
    still to come, the first of them at index [i]; [statement] holds
    [statement] and [pos] once they are set.  A [break] gives the final
    [return []]. *)
Fixpoint check_redundant_parenthesis_loop (i : nat)
  (rest : list tokenize.token) (level : Z)
  (statement : option (string * (Z * Z)))
  : result (list line_finding) :=
  match rest with
  | [] => Ok []
  | t :: rest' =>
      match tokenize.type t with
      | tokenize.INDENT | tokenize.DEDENT =>
          check_redundant_parenthesis_loop (S i) rest' level statement
      | kind =>
          match statement with
          | None =>
              if negb (tokenize.kind_eqb kind tokenize.NAME) ||
                 negb (existsb (String.eqb (tokenize.text t))
                         ["if"; "elif"; "while"])
              then Ok []
              else
                match tokens !! (i + 1)%nat with
                | None => Raise IndexError
                | Some next_token =>
                    if negb (is_op next_token "(") then Ok []
                    else
                      match tokens !! (i + 2)%nat with
                      | None => Raise IndexError
                      | Some after =>
                          if is_op after ")" then Ok []
                          else
                            check_redundant_parenthesis_loop (S i) rest'
                              level
                              (Some (tokenize.text t,
                                     tokenize.start next_token))
                      end
                end
          | Some (keyword, pos) =>
              if (start_line <? fst (tokenize.end_ t))%Z then Ok []
              else if tokenize.kind_eqb kind tokenize.OP then
                if String.eqb (tokenize.text t) "," then
                  if (level =? 1)%Z then Ok []
                  else check_redundant_parenthesis_loop (S i) rest' level
                         statement
                else if String.eqb (tokenize.text t) "(" then
                  check_redundant_parenthesis_loop (S i) rest' (level + 1)
                    statement
                else if String.eqb (tokenize.text t) ")" then
                  if (level - 1 =? 0)%Z then
                    match tokens !! (i + 1)%nat with
                    | None => Raise IndexError
                    | Some next_token =>
                        if negb (is_op next_token ":") then Ok []
                        else Ok [(pos, "A111 redundant parenthesis for "
                                       +:+ keyword +:+ " statement")]
                    end
                  else check_redundant_parenthesis_loop (S i) rest'
                         (level - 1) statement
                else check_redundant_parenthesis_loop (S i) rest' level
                       statement
              else check_redundant_parenthesis_loop (S i) rest' level
                     statement
          end
      end
  end.
End check_redundant_parenthesis.

(** [check_redundant_parenthesis] *)
Definition check_redundant_parenthesis (logical_line : string)
  (tokens : list tokenize.token) : result (list line_finding) :=
  match tokens with
  | [] => Raise IndexError   (* tokens[0] *)
  | first :: _ =>
      check_redundant_parenthesis_loop tokens (fst (tokenize.start first))
        0 tokens 0 None
  end.

(** ** A small interpreter *)

(** An interpreter to run the checks with: version 3, a handful of the
    built-in names, tuples of what it evaluates, and a call of [exit] or
    [quit] without arguments, which raises [SystemExit] as the objects the
    [site] module puts in [builtins] do.  A [Name] node for [__debug__] is
    a constant and one for [None], [True] or [False] is refused with
    [ValueError], as in Python 3.8.  It gives up with
    [NotImplementedError] on other compound expressions, on values that
    are not spelled out, and on the text of a string literal unless that
    is a one-character quote around plain printable characters, with or
    without the prefix b. *)
Definition sample_builtins : gmap string value :=
  list_to_map
    (("True", VBool true) :: ("False", VBool false) :: ("None", VNone) ::
     ("__debug__", VBool true) ::
     map (fun s => (s, VBuiltin s))
       ["abs"; "dict"; "exit"; "filter"; "len"; "list"; "map"; "object";
        "print"; "quit"; "set"; "str"; "tuple"]).

Definition sample_builtins_special (name : string)
  : is_special_name name = true -> is_Some (sample_builtins !! name).
Proof.
  unfold is_special_name. cbn [existsb]. intros H.
  repeat match type of H with
         | (String.eqb ?a ?b || _) = true =>
             destruct (String.eqb_spec a b) as [E|_];
             [rewrite E; eexists; vm_compute; reflexivity | cbn [orb] in H]
         end.
  discriminate H.
Qed.

Definition sample_name (n : ast.node) (ns : namespace)
  : result value * namespace :=
  match n with
  | ast.Name _ id ast.Load =>
      if String.eqb id "__debug__" then (Ok (VBool true), ns)
      else if is_special_name id then (Raise ValueError, ns)
      else (Raise NotImplementedError, ns)
  | _ => (Raise NotImplementedError, ns)
  end.

Definition sample_base : interpreter :=
  mkInterpreter 3 sample_builtins sample_name
    (fun _ _ => Raise NotImplementedError)
    (fun _ => Raise NotImplementedError) "ascii" sample_builtins_special.

Fixpoint sample_eval (n : ast.node) (ns : namespace)
  : result value * namespace :=
  match n with
  | ast.Tuple _ elts ast.Load =>
      let items :=
        (fix items (elts : list ast.node) (ns : namespace)
           : result (list value) * namespace :=
           match elts with
           | [] => (Ok [], ns)
           | e :: rest =>
               match sample_eval e ns with
               | (Ok v, ns') =>
                   match items rest ns' with
                   | (Ok vs, ns'') => (Ok (v :: vs), ns'')
                   | (Raise e, ns'') => (Raise e, ns'')
                   end
               | (Raise e, ns') => (Raise e, ns')
               end
           end) in
      match items elts ns with
      | (Ok vs, ns') => (Ok (VTuple vs), ns')
      | (Raise e, ns') => (Raise e, ns')
      end
  | ast.Call _ (ast.Name _ id ast.Load) [] =>
      match load_name sample_base id ns with
      | (Ok (VBuiltin callee), ns') =>
          if String.eqb callee "exit" || String.eqb callee "quit"
          then (Raise SystemExit, ns')
          else (Raise NotImplementedError, ns')
      | (_, ns') => (Raise NotImplementedError, ns')
      end
  | ast.Num _ _ | ast.Str _ _ | ast.NameConstant _ _
  | ast.Name _ _ ast.Load => py_eval sample_base (Some n) ns
  | _ => (Raise NotImplementedError, ns)
  end.

Definition is_plain_char (c : ascii) : bool :=
  let n := nat_of_ascii c in
  ((32 <=? n) && (n <? 127) && negb (n =? 34) && negb (n =? 39)
   && negb (n =? 92))%nat.

Definition sample_ascii_eval (literal : string) : result string :=
  let (prefix, s) := span (Ascii.eqb "b") literal in
  match match_quoted 1 s with
  | Some (_, text) =>
      if (String.length prefix <=? 1)%nat && all_chars is_plain_char text
      then Ok (prefix +:+ String QUOTE text +:+ String QUOTE EmptyString)
      else Raise NotImplementedError
  | None => Raise NotImplementedError
  end.

Definition sample : interpreter :=
  mkInterpreter 3 sample_builtins sample_eval
    (fun _ _ => Raise NotImplementedError) sample_ascii_eval "ascii"
    sample_builtins_special.

(** ** Reading the findings *)

(** The message of a finding starts with [code]. *)
Definition has_code (code : string) (e : ast.node * string) : bool :=
  String.prefix code (snd e).

(** The dead code finding a block calls for: the statement after the first
    statement that leaves the block, with the kind of that statement. *)
Fixpoint dead_code_finding (nodes : list ast.node)
  : list (ast.node * string) :=
  match nodes with
  | [] => []
  | n :: rest =>
      if LEAVE_BLOCK n then
        match rest with
        | first_dead :: _ =>
            [(first_dead, "A202 dead code after " +:+ get_statement n)]
        | [] => []
        end
      else dead_code_finding rest
  end.

(** The last [pass] statement of a block. *)
Definition last_pass (nodes : list ast.node) : option ast.node :=
  last (List.filter is_Pass nodes).

(** [m] returns [a] after appending the findings [errs], whatever the
    visitor it starts from. *)
Definition emits {A} (m : M A) (a : A) (errs : list (ast.node * string))
  : Prop :=
  forall v, m v = Ok (a, with_errors v errs).

(** The local variables of [_visit_block] after one iteration. *)
Definition next_locals (n : ast.node) (l : block_locals) : block_locals :=
  mkLocals (if is_Pass n then Some n else pass_node l)
           (if is_Pass n then has_non_pass l else true)
           (if LEAVE_BLOCK n then Some n else leave_node l)
           (match leave_node l with Some _ => true | None => dead_code l end).

(** The dead code finding of one iteration. *)
Definition step_dead_code (n : ast.node) (l : block_locals)
  : list (ast.node * string) :=
  match leave_node l with
  | Some leave =>
      if dead_code l then []
      else [(n, "A202 dead code after " +:+ get_statement leave)]
  | None => []
  end.

(** The dead code findings of the iterations still to come. *)
Fixpoint pending_dead_code (l : block_locals) (nodes : list ast.node)
  : list (ast.node * string) :=
  match nodes with
  | [] => []
  | n :: rest => step_dead_code n l ++ pending_dead_code (next_locals n l) rest
  end.

(** [is_const] returns [True], and returns [False]. *)
Definition folds_to_constant (py : interpreter) (n : ast.node) : bool :=
  match is_const py n with Ok true => true | _ => false end.

Definition does_not_fold (py : interpreter) (n : ast.node) : bool :=
  match is_const py n with Ok false => true | _ => false end.

(** The operators [==], [!=], [is] and [is not]. *)
Definition equality_or_identity (op : ast.cmpop) : bool :=
  match op with
  | ast.Eq | ast.NotEq | ast.Is | ast.IsNot => true
  | _ => false
  end.

(** The operators [in] and [not in]. *)
Definition membership_test (op : ast.cmpop) : bool :=
  match op with
  | ast.In | ast.NotIn => true
  | _ => false
  end.

(** The left operands of a comparison chain that are a constant compared
    with something that is not one, where the operator is an equality or
    identity operator, or the chain has a single operator
    ([single_operator]) and that is not a membership test. *)
Fixpoint yoda_operands (py : interpreter) (single_operator : bool)
  (left : ast.node) (ops : list ast.cmpop) (comparators : list ast.node)
  : list ast.node :=
  match ops, comparators with
  | op :: ops', right_ :: comparators' =>
      (if (equality_or_identity op
           || single_operator && negb (membership_test op))
          && folds_to_constant py left
          && does_not_fold py right_
       then [left] else [])
      ++ yoda_operands py single_operator right_ ops' comparators'
  | _, _ => []
  end.

(** A call [f()] as a statement: a body without findings. *)
Definition call_statement (p : ast.position) : ast.node :=
  ast.Expr p (ast.Call p (ast.Name p "f" ast.Load) []).

(** The module of the statement [if test: f()]. *)
Definition if_statement (p pb : ast.position) (test : ast.node) : ast.node :=
  ast.Module [ast.If p test [call_statement pb] []].

(** What a key folded to is spelled out, or the key did not fold. *)
Definition plain_folded (f : folded) : bool :=
  match f with
  | Value x => plain x
  | VOLATILE => true
  end.

(** The keys of a literal folded from left to right, each in the namespace
    the one before left; the exception of the first key whose folding is
    not caught. *)
Fixpoint fold_keys (py : interpreter) (nodes : list (option ast.node))
  (ns : namespace) : result (list folded) :=
  match nodes with
  | [] => Ok []
  | n :: rest =>
      match evaluate py n ns with
      | (Ok f, ns') =>
          match fold_keys py rest ns' with
          | Ok fs => Ok (f :: fs)
          | Raise e => Raise e
          end
      | (Raise e, _) => Raise e
      end
  end.

(** The keys that repeat an earlier one: those that fold to a value equal
    to the value of a key before them ([earlier] holds the values so far);
    a key that does not fold is skipped. *)
Fixpoint repeated_keys (earlier : list value) (nodes : list (option ast.node))
  (fs : list folded) : list ast.node :=
  match nodes, fs with
  | n :: nodes', Value key :: fs' =>
      (if existsb (fun k => py_eq k key) earlier then option_list n else [])
      ++ repeated_keys (earlier ++ [key]) nodes' fs'
  | _ :: nodes', VOLATILE :: fs' => repeated_keys earlier nodes' fs'
  | _, _ => []
  end.


(** A string token that the pattern of [check_quotes] does not match. *)
Definition unmatched_string (t : tokenize.token) : bool :=
  tokenize.kind_eqb (tokenize.type t) tokenize.STRING &&
  match match_string_token (tokenize.text t) with
  | Some _ => false
  | None => true
  end.






(** ** The depth of the scope stack *)

(** The node classes that open a scope. *)
Definition is_scope (n : ast.node) : bool :=
  match n with
  | ast.Module _ | ast.FunctionDef _ _ _ _ _ | ast.ClassDef _ _ _ _ _ => true
  | _ => false
  end.

(** [assert len(self.scope_stack) == d] *)
Definition assert_depth (d : nat) : M unit :=
  fun v => if (length (scope_stack v) =? d)%nat then Ok (tt, v)
           else Raise AssertionError.

(** The traversal with an assertion around every call of [visit]: on entry
    and on return, the scope stack has as many scopes as the node has
    module, function and class nodes above it in the tree ([d]); the nodes
    below a module, function or class node are one deeper. *)
Fixpoint visit_asserting (py : interpreter) (d : nat) (n : ast.node)
  : M unit :=
  assert_depth d;;
  visit_method py n
    (generic_visit (visit_asserting py (if is_scope n then S d else d)) n);;
  assert_depth d.

(** [m] leaves the scopes on the stack what they were: the same nodes in
    the same order. *)
Definition keeps_scopes {A} (m : M A) : Prop :=
  forall v a v',
    m v = Ok (a, v') -> map node (scope_stack v') = map node (scope_stack v).

(** [m'] and [m] do the same from a stack of depth [d], and [m] keeps the
    scopes. *)
Definition tracks {A} (d : nat) (m' m : M A) : Prop :=
  (forall v, length (scope_stack v) = d -> m' v = m v) /\ keeps_scopes m.

(** A module with a function that binds a name and declares a global, and
    a global declaration at the top. *)
Definition sample_module : ast.node :=
  ast.Module
    [ast.FunctionDef (ast.Pos 1 0) "f" (ast.arguments [] [])
       [ast.Assign (ast.Pos 2 4) [ast.Name (ast.Pos 2 4) "list" ast.Store]
          (ast.Num (ast.Pos 2 11) 1);
        ast.Global (ast.Pos 3 4) ["y"]] [];
     ast.Global (ast.Pos 4 0) ["z"]].

(** ** Parentheses on a logical line *)

Definition is_indentation (t : tokenize.token) : bool :=
  match tokenize.type t with
  | tokenize.INDENT | tokenize.DEDENT => true
  | _ => false
  end.

Definition is_keyword (t : tokenize.token) : bool :=
  tokenize.kind_eqb (tokenize.type t) tokenize.NAME &&
  existsb (String.eqb (tokenize.text t)) ["if"; "elif"; "while"].

(** The parentheses opened and not closed by [ts]. *)
Fixpoint paren_depth (ts : list tokenize.token) : Z :=
  match ts with
  | [] => 0
  | t :: rest =>
      (if is_op t "(" then 1 else if is_op t ")" then -1 else 0)
      + paren_depth rest
  end.

(** The tokens [ts], met at nesting level [level], stay inside the
    parentheses and on the line: every token of [ts] other than an
    indentation token ends on line [start_line] or before, no comma is at
    nesting level 1, and no closing parenthesis is at nesting level 1,
    where it would close the outer ones.  The nesting level counts the
    parentheses [(] and [)] only, as the check does: a comma between
    square brackets or braces that stand directly inside the outer
    parentheses is at nesting level 1. *)
Definition scans (start_line : Z) (level : Z) (ts : list tokenize.token)
  : Prop :=
  forall pre t post,
    ts = pre ++ t :: post ->
    is_indentation t = false ->
    fst (tokenize.end_ t) <= start_line
    /\ (is_op t "," = true -> level + paren_depth pre <> 1)
    /\ (is_op t ")" = true -> level + paren_depth pre <> 1).

(** The line of the first token. *)
Definition first_line_of (tokens : list tokenize.token) : Z :=
  match tokens with
  | first :: _ => fst (tokenize.start first)
  | [] => 0
  end.

(** The tokens of the lines [if (x):] and [if (x, y):]. *)
Definition tok (k : tokenize.kind) (s : string) (col : Z) : tokenize.token :=
  tokenize.mkToken k s (1, col) (1, col + Z.of_nat (String.length s)) EmptyString.

Definition if_x_line : list tokenize.token :=
  [tok tokenize.NAME "if" 0; tok tokenize.OP "(" 3; tok tokenize.NAME "x" 4;
   tok tokenize.OP ")" 5; tok tokenize.OP ":" 6; tok tokenize.NEWLINE EmptyString 7].

Definition if_x_y_line : list tokenize.token :=
  [tok tokenize.NAME "if" 0; tok tokenize.OP "(" 3; tok tokenize.NAME "x" 4;
   tok tokenize.OP "," 5; tok tokenize.NAME "y" 7; tok tokenize.OP ")" 8;
   tok tokenize.OP ":" 9; tok tokenize.NEWLINE EmptyString 10].

(** The tokens of the lines [if ([a]):], [if ([a, b]):] and
    [if (d[1, 2]):]. *)
Definition if_list_a_line : list tokenize.token :=
  [tok tokenize.NAME "if" 0; tok tokenize.OP "(" 3; tok tokenize.OP "[" 4;
   tok tokenize.NAME "a" 5; tok tokenize.OP "]" 6; tok tokenize.OP ")" 7;
   tok tokenize.OP ":" 8; tok tokenize.NEWLINE EmptyString 9].

Definition if_list_a_b_line : list tokenize.token :=
  [tok tokenize.NAME "if" 0; tok tokenize.OP "(" 3; tok tokenize.OP "[" 4;
   tok tokenize.NAME "a" 5; tok tokenize.OP "," 6; tok tokenize.NAME "b" 8;
   tok tokenize.OP "]" 9; tok tokenize.OP ")" 10; tok tokenize.OP ":" 11;
   tok tokenize.NEWLINE EmptyString 12].

Definition if_subscript_line : list tokenize.token :=
  [tok tokenize.NAME "if" 0; tok tokenize.OP "(" 3; tok tokenize.NAME "d" 4;
   tok tokenize.OP "[" 5; tok tokenize.NUMBER "1" 6; tok tokenize.OP "," 7;
   tok tokenize.NUMBER "2" 9; tok tokenize.OP "]" 10; tok tokenize.OP ")" 11;
   tok tokenize.OP ":" 12; tok tokenize.NEWLINE EmptyString 13].

(** [scans], decided. *)
Fixpoint scansb (start_line : Z) (level : Z) (ts : list tokenize.token)
  : bool :=
  match ts with
  | [] => true
  | t :: rest =>
      (is_indentation t ||
       (fst (tokenize.end_ t) <=? start_line)%Z &&
       negb ((is_op t "," || is_op t ")") && (level =? 1)%Z))
      && scansb start_line
           (level + (if is_op t "(" then 1 else if is_op t ")" then -1 else 0))
           rest
  end.

(** ** Further readings of the findings *)

(** The statement [n], at index [i] of a block, is an expression statement
    that the block check calls unused: bare expressions are not allowed
    here, it is not the docstring, and its value is neither a call nor a
    [yield]. *)
Definition unused_at (docstring can_have_unused_expr : bool) (i : nat)
  (n : ast.node) : bool :=
  match n with
  | ast.Expr _ value =>
      negb can_have_unused_expr
      && negb (docstring && (i =? 0)%nat && is_Str value)
      && negb (match value with
               | ast.Call _ _ _ | ast.Yield _ _ => true
               | _ => false
               end)
  | _ => false
  end.

(** The unused expression findings a block calls for, the first statement
    having index [i]. *)
Fixpoint unused_expressions (docstring can_have_unused_expr : bool) (i : nat)
  (nodes : list ast.node) : list (ast.node * string) :=
  match nodes with
  | [] => []
  | n :: rest =>
      (if unused_at docstring can_have_unused_expr i n
       then [(n, "A203 unused expression")] else [])
      ++ unused_expressions docstring can_have_unused_expr (S i) rest
  end.

(** The body of a handler has a statement that leaves the block. *)
Definition leaves (body : list ast.node) : bool :=
  match List.find LEAVE_BLOCK body with Some _ => true | None => false end.

(** The right operands of a comparison chain that are a tuple or list
    literal behind [in] or [not in]. *)
Fixpoint membership_literals (ops : list ast.cmpop)
  (comparators : list ast.node) : list ast.node :=
  match ops, comparators with
  | op :: ops', right_ :: comparators' =>
      (if membership op && is_Tuple_or_List right_ then [right_] else [])
      ++ membership_literals ops' comparators'
  | _, _ => []
  end.

(** A name in load context as the key of a dict or the item of a set. *)
Definition name_key (x : ast.position * string) : option ast.node :=
  Some (ast.Name (fst x) (snd x) ast.Load).

(** The names that repeat an earlier name of the list ([seen] holds the
    identifiers so far). *)
Fixpoint repeated_names (seen : list string)
  (l : list (ast.position * string)) : list ast.node :=
  match l with
  | [] => []
  | x :: rest =>
      if bool_decide (snd x ∈ seen)
      then ast.Name (fst x) (snd x) ast.Load :: repeated_names seen rest
      else repeated_names (seen ++ [snd x]) rest
  end.

(** The namespace of [_visit_hash_keys] after the names [seen] were looked
    up, with the objects made for them in [keys]. *)
Definition names_folded (py : interpreter) (seen : list string)
  (keys : list value) (ns : namespace) : Prop :=
  ns_default_factory ns = true
  /\ (forall id, id ∈ seen ->
        exists k, ns_items ns !! id = Some (VObject k) /\ VObject k ∈ keys)
  /\ (forall id, id ∉ seen -> ns_items ns !! id = vars_builtins py !! id)
  /\ (forall x, x ∈ keys ->
        exists k, x = VObject k /\ (k < ns_next_object ns)%nat).

(** [m] only adds findings: the errors it leaves start with the errors it
    found. *)
Definition grows {A} (m : M A) : Prop :=
  forall v a v', m v = Ok (a, v') -> exists errs, errors v' = errors v ++ errs.

(** The names that the declarations of a scope declare, each with its
    declaration, in order. *)
Definition declared (declarations : list ast.node)
  : list (ast.node * string) :=
  flat_map (fun d => match get_names d with
                     | Ok names_ => map (pair d) names_
                     | Raise _ => []
                     end) declarations.

(** The redundant declarations among [l]: a name that is not bound in the
    scope ([bound]), or that was declared before ([earlier]). *)
Fixpoint redundant (bound : gset string) (earlier : list string)
  (l : list (ast.node * string)) : list (ast.node * string) :=
  match l with
  | [] => []
  | (d, name) :: rest =>
      (if bool_decide (name ∉ bound) || bool_decide (name ∈ earlier)
       then [(d, "A201 redundant " +:+ get_statement d +:+
                 " declaration for " +:+ name)]
       else [])
      ++ redundant bound (earlier ++ [name]) rest
  end.

(** The scope object [s] after names were added to it and declarations
    appended: the same node, no name lost, the declarations so far first. *)
Definition scope_le (s s' : Scope) : Prop :=
  node s' = node s
  /\ names s ⊆ names s'
  /\ globals s `prefix_of` globals s'.

(** From [v] to [v'] the scope stack changed at its top only: it is empty
    in both, or the scopes below the top are the same and the top scope
    grew. *)
Definition top_only (v v' : TreeVisitor) : Prop :=
  (scope_stack v = [] /\ scope_stack v' = [])
  \/ (exists stack s s',
        scope_stack v = stack ++ [s]
        /\ scope_stack v' = stack ++ [s']
        /\ scope_le s s').

(** [m] changes the top of the scope stack only. *)
Definition frames {A} (m : M A) : Prop :=
  forall v a v', m v = Ok (a, v') -> top_only v v'.

(** The findings of one imported name: the name it binds is an essential
    built-in and the scope is a function; the name imported from [module]
    is one of the two discouraged APIs. *)
Definition import_findings (py : interpreter) (in_function : bool)
  (n : ast.node) (module : option string) (alias : ast.alias)
  : list (ast.node * string) :=
  (if bool_decide (bound_name alias ∈ ESSENTIAL_BUILTINS py) && in_function
   then [(n, "A302 redefined built-in " +:+ bound_name alias)] else [])
  ++ match module with
     | Some m =>
         if String.eqb (m +:+ "." +:+ ast.name alias) "re.match"
         then [(n, "A301 use re.search() instead of re.match()")]
         else if String.eqb (m +:+ "." +:+ ast.name alias) "codecs.open"
         then [(n, "A301 use io.open() instead of codecs.open()")]
         else []
     | None => []
     end.

(** * Properties *)

(** ** The visitor monad *)

Lemma with_errors_nil v : with_errors v [] = v.
Proof. destruct v; unfold with_errors; simpl. by rewrite app_nil_r. Qed.

Lemma with_errors_app v a b :
  with_errors (with_errors v a) b = with_errors v (a ++ b).
Proof. unfold with_errors; simpl. by rewrite app_assoc. Qed.

Lemma emits_ret {A} (a : A) : emits (ret a) a [].
Proof. intros v. unfold ret. by rewrite with_errors_nil. Qed.

Lemma emits_report n msg : emits (report n msg) tt [(n, msg)].
Proof. intros v. reflexivity. Qed.

Lemma emits_bind {A B} (m : M A) (k : A -> M B) a b e1 e2 :
  emits m a e1 -> emits (k a) b e2 -> emits (bind m k) b (e1 ++ e2).
Proof.
  intros Hm Hk v. unfold bind. rewrite Hm, Hk. by rewrite with_errors_app.
Qed.

(** ** Blocks *)

Section block_facts.
Variables (block_required nodes_required docstring can_have_unused_expr : bool).

Lemma unused_expr_emits i n :
  exists errs,
    emits (_visit_block_unused_expr docstring can_have_unused_expr i n) tt errs
    /\ Forall (fun e => snd e = "A203 unused expression") errs.
Proof.
  unfold _visit_block_unused_expr.
  destruct n; try (exists []; split; [apply emits_ret | constructor]).
  destruct can_have_unused_expr;
    [exists []; split; [apply emits_ret | constructor] |].
  destruct (docstring && (i =? 0)%nat && is_Str n);
    [exists []; split; [apply emits_ret | constructor] |].
  destruct n;
    first [ by (exists []; split; [apply emits_ret | constructor])
          | by (eexists; split; [apply emits_report | repeat constructor]) ].
Qed.

Lemma filter_other_code code errs msg :
  String.prefix code msg = false ->
  Forall (fun e : ast.node * string => snd e = msg) errs ->
  List.filter (has_code code) errs = [].
Proof.
  intros Hc. induction 1 as [|[n m] errs Hm _ IH]; simpl; [done|].
  simpl in Hm. subst m. unfold has_code at 1. simpl. by rewrite Hc.
Qed.

Lemma body_emits i n l :
  exists errs,
    emits (_visit_block_body docstring can_have_unused_expr i n l)
          (next_locals n l) errs
    /\ List.filter (has_code "A202") errs = step_dead_code n l
    /\ List.filter (has_code "A204") errs = []
    /\ List.filter (has_code "A205") errs = [].
Proof.
  destruct (unused_expr_emits i n) as (errs & Hu & Hall).
  assert (Hf : forall code, String.prefix code "A203 unused expression" = false ->
                 List.filter (has_code code) errs = [])
    by (intros; by eapply filter_other_code).
  unfold _visit_block_body, next_locals, step_dead_code.
  destruct (leave_node l) as [leave|] eqn:Hl; [destruct (dead_code l) eqn:Hd|];
    simpl.
  - exists ([] ++ errs ++ []). split.
    + eapply emits_bind; [apply emits_ret|].
      eapply emits_bind; [apply Hu|]. apply emits_ret.
    + simpl; rewrite ?app_nil_r. repeat split; apply Hf; reflexivity.
  - eexists (([_] ++ []) ++ errs ++ []). split.
    + eapply emits_bind;
        [eapply emits_bind; [apply emits_report | apply emits_ret]|].
      eapply emits_bind; [apply Hu|]. apply emits_ret.
    + simpl; rewrite ?app_nil_r.
      repeat split; first [apply Hf | f_equal; apply Hf]; reflexivity.
  - exists ([] ++ errs ++ []). split.
    + eapply emits_bind; [apply emits_ret|].
      eapply emits_bind; [apply Hu|]. apply emits_ret.
    + simpl; rewrite ?app_nil_r.
      repeat split; first [apply Hf | f_equal; apply Hf]; reflexivity.
Qed.

End block_facts.

Section block_loop.
Variables (block_required nodes_required docstring can_have_unused_expr : bool).

Lemma loop_emits nodes : forall i l,
  exists errs,
    emits (_visit_block_loop docstring can_have_unused_expr i nodes l)
          (fold_left (fun l n => next_locals n l) nodes l) errs
    /\ List.filter (has_code "A202") errs = pending_dead_code l nodes
    /\ List.filter (has_code "A204") errs = []
    /\ List.filter (has_code "A205") errs = [].
Proof.
  induction nodes as [|n rest IH]; intros i l; simpl.
  - exists []. split; [apply emits_ret | done].
  - destruct (body_emits docstring can_have_unused_expr i n l)
      as (e1 & H1 & H202 & H204 & H205).
    destruct (IH (S i) (next_locals n l)) as (e2 & H2 & K202 & K204 & K205).
    exists (e1 ++ e2). split; [by eapply emits_bind|].
    rewrite !List.filter_app, H202, H204, H205, K202, K204, K205. done.
Qed.

Lemma pending_dead_code_dead l nodes :
  dead_code l = true -> is_Some (leave_node l) ->
  pending_dead_code l nodes = [].
Proof.
  revert l. induction nodes as [|n rest IH]; intros l Hd [lv Hl]; [done|].
  simpl. unfold step_dead_code. rewrite Hl, Hd. simpl.
  apply IH; unfold next_locals; simpl; rewrite Hl; [done|].
  destruct (LEAVE_BLOCK n); eauto.
Qed.

Lemma pending_dead_code_live l nodes :
  dead_code l = false -> leave_node l = None ->
  pending_dead_code l nodes = dead_code_finding nodes.
Proof.
  revert l. induction nodes as [|n rest IH]; intros l Hd Hl; [done|].
  simpl. unfold step_dead_code. rewrite Hl. simpl.
  destruct (LEAVE_BLOCK n) eqn:Hleave.
  - destruct rest as [|first_dead rest]; [done|]. simpl.
    unfold step_dead_code, next_locals at 1 2. simpl. rewrite Hleave, Hl, Hd.
    simpl. f_equal. apply pending_dead_code_dead; simpl.
    + by rewrite Hleave.
    + unfold next_locals; simpl. rewrite Hleave.
      destruct (LEAVE_BLOCK first_dead); eauto.
  - apply IH; unfold next_locals; simpl; by rewrite ?Hleave, Hl.
Qed.

Lemma final_pass_node nodes : forall l,
  pass_node (fold_left (fun l n => next_locals n l) nodes l) =
  match last_pass nodes with Some p => Some p | None => pass_node l end.
Proof.
  unfold last_pass.
  induction nodes as [|n rest IH]; intros l; [done|].
  simpl. rewrite IH. unfold next_locals; simpl.
  destruct (is_Pass n) eqn:Hp; simpl.
  - destruct (List.filter is_Pass rest) as [|q qs] eqn:Hf; [done|].
    change (last (n :: q :: qs)) with (last (q :: qs)).
    destruct (last (q :: qs)) eqn:E; [done | by apply last_None in E].
  - by destruct (last (List.filter is_Pass rest)).
Qed.

Lemma final_has_non_pass nodes : forall l,
  has_non_pass (fold_left (fun l n => next_locals n l) nodes l) =
  has_non_pass l || negb (forallb is_Pass nodes).
Proof.
  induction nodes as [|n rest IH]; intros l; simpl;
    [by rewrite orb_false_r|].
  rewrite IH. unfold next_locals; simpl. destruct (is_Pass n); simpl; [done|].
  by rewrite orb_true_r.
Qed.

(** What [_visit_block] reports, by code. *)
Lemma visit_block_emits nodes :
  exists errs,
    emits (_visit_block block_required nodes_required docstring
             can_have_unused_expr nodes) tt errs
    /\ List.filter (has_code "A202") errs = dead_code_finding nodes
    /\ List.filter (has_code "A204") errs =
         match last_pass nodes with
         | Some p =>
             if negb nodes_required || (1 <? length nodes)%nat
             then [(p, "A204 redundant pass statement")] else []
         | None => []
         end
    /\ List.filter (has_code "A205") errs =
         match last_pass nodes with
         | Some p =>
             if negb block_required && forallb is_Pass nodes
             then [(p, "A205 empty block")] else []
         | None => []
         end.
Proof.
  destruct (loop_emits nodes 0 (mkLocals None false None false))
    as (e1 & H1 & H202 & H204 & H205).
  rewrite pending_dead_code_live in H202 by done.
  unfold _visit_block.
  set (l := fold_left _ nodes _) in *.
  assert (Hp : pass_node l = last_pass nodes).
  { subst l. rewrite final_pass_node. simpl. by destruct (last_pass nodes). }
  assert (Hn : has_non_pass l = negb (forallb is_Pass nodes)).
  { subst l. by rewrite final_has_non_pass. }
  rewrite <- Hp. destruct (pass_node l) as [p|] eqn:Hpn.
  - set (c4 := negb nodes_required || (1 <? length nodes)%nat).
    set (c5 := negb block_required && forallb is_Pass nodes).
    exists (e1 ++ (if c4 then [(p, "A204 redundant pass statement")] else [])
               ++ (if c5 then [(p, "A205 empty block")] else [])).
    split.
    + eapply emits_bind; [apply H1|]. cbv beta. fold l.
      rewrite Hpn, Hn, negb_involutive. fold c4 c5. eapply emits_bind.
      * destruct c4; [apply emits_report | apply emits_ret].
      * destruct c5; [apply emits_report | apply emits_ret].
    + rewrite !List.filter_app, H202, H204, H205. clearbody c4 c5.
      destruct c4, c5; simpl; rewrite ?app_nil_r; done.
  - exists (e1 ++ []). split.
    + eapply emits_bind; [apply H1|]. cbv beta. fold l. rewrite Hpn.
      apply emits_ret.
    + by rewrite app_nil_r.
Qed.

End block_loop.

(** C2. In every block, the dead code findings (A202) that [_visit_block]
    reports are exactly [dead_code_finding]: one finding, on the statement
    that follows the first [return], [raise], [continue] or [break] of the
    block, naming the kind of that statement, and none when nothing follows
    it or the block has no such statement.  So [[expr, raise X]] has no
    A202 finding and [[raise X, stmt_a, stmt_b]] has exactly one, on
    [stmt_a]. *)
Theorem visit_block_dead_code :
  forall (block_required nodes_required docstring can_have_unused_expr : bool)
         (nodes : list ast.node) (v : TreeVisitor),
    (exists errs,
       _visit_block block_required nodes_required docstring
         can_have_unused_expr nodes v = Ok (tt, with_errors v errs)
       /\ List.filter (has_code "A202") errs = dead_code_finding nodes)
    /\ (forall p e p' x cause,
          dead_code_finding [ast.Expr p e; ast.Raise p' x cause] = [])
    /\ (forall p x cause stmt_a stmt_b,
          dead_code_finding [ast.Raise p x cause; stmt_a; stmt_b] =
          [(stmt_a, "A202 dead code after raise")]).
Proof.
  intros. split; [|split; reflexivity].
  destruct (visit_block_emits block_required nodes_required docstring
              can_have_unused_expr nodes) as (errs & He & H202 & _).
  exists errs. split; [apply He | apply H202].
Qed.

(** C10. In every block, [_visit_block] reports at most one redundant pass
    finding (A204) and at most one empty block finding (A205), each on the
    last [pass] statement of the block, however many [pass] statements the
    block has. *)
Theorem visit_block_pass_findings :
  forall (block_required nodes_required docstring can_have_unused_expr : bool)
         (nodes : list ast.node) (v : TreeVisitor),
    exists errs,
      _visit_block block_required nodes_required docstring
        can_have_unused_expr nodes v = Ok (tt, with_errors v errs)
      /\ List.filter (has_code "A204") errs =
           match last_pass nodes with
           | Some p =>
               if negb nodes_required || (1 <? length nodes)%nat
               then [(p, "A204 redundant pass statement")] else []
           | None => []
           end
      /\ List.filter (has_code "A205") errs =
           match last_pass nodes with
           | Some p =>
               if negb block_required && forallb is_Pass nodes
               then [(p, "A205 empty block")] else []
           | None => []
           end.
Proof.
  intros.
  destruct (visit_block_emits block_required nodes_required docstring
              can_have_unused_expr nodes) as (errs & He & _ & H204 & H205).
  exists errs. split; [apply He | split; assumption].
Qed.

(** C1, as the code has it.  A function body of exactly one [pass] gets no
    finding at all: [visit_FunctionDef] checks the body as a block that is
    required and whose nodes are required, so neither A204 nor A205 is
    reported.  A function body of [[pass, return 1]] gets the A204 finding
    on the [pass] and no A205. *)
Theorem function_body_pass :
  forall (py : interpreter) (p : ast.position) (name : string)
         (pp pr pn : ast.position),
    check_ast py
      (ast.Module
         [ast.FunctionDef p name (ast.arguments [] []) [ast.Pass pp] []])
    = ([], None)
    /\ check_ast py
         (ast.Module
            [ast.FunctionDef p name (ast.arguments [] [])
               [ast.Pass pp; ast.Return pr (Some (ast.Num pn 1))] []])
       = ([mkFinding (ast.lineno pp) (ast.col_offset pp)
             "A204 redundant pass statement"], None)
    /\ (forall v, _visit_block true true true false [ast.Pass pp] v
                  = Ok (tt, v)).
Proof.
  intros. repeat split.
  - unfold check_ast. simpl.
    unfold visit_Module, visit_FunctionDef, _visit_with_scope,
      _visit_stored_name, bind, ret, top_scope, update_top; simpl.
    rewrite andb_false_r. reflexivity.
  - unfold check_ast. simpl.
    unfold visit_Module, visit_FunctionDef, _visit_with_scope,
      _visit_stored_name, bind, ret, top_scope, update_top; simpl.
    rewrite andb_false_r. reflexivity.
Qed.

(** C1 as stated fails: the tree check of [def f(): pass] reports neither
    A204 nor A205. *)
Lemma function_body_pass_only_no_finding :
  check_ast sample
    (ast.Module
       [ast.FunctionDef (ast.Pos 1 0) "f" (ast.arguments [] [])
          [ast.Pass (ast.Pos 1 9)] []])
  = ([], None).
Proof. vm_compute. reflexivity. Qed.

(** ** Comparisons *)

Lemma consts_first_spec single op :
  consts_first single op
  = equality_or_identity op || single && negb (membership_test op).
Proof. by destruct single, op. Qed.

Lemma visit_Compare_loop_spec py single ops : forall left comparators v,
  match visit_Compare_loop py single left ops comparators v with
  | Ok (_, v') =>
      exists errs,
        v' = with_errors v errs
        /\ List.filter (has_code "A103") errs =
           map (fun l => (l, "A103 yoda condition"))
               (yoda_operands py single left ops comparators)
  | Raise e => exists n, n ∈ left :: comparators /\ is_const py n = Raise e
  end.
Proof.
  induction ops as [|op ops IH]; intros left [|r cs] v; simpl;
    try (exists []; by rewrite with_errors_nil).
  set (a102 := match r with
               | ast.Tuple _ _ _ | ast.List _ _ _ =>
                   if membership op
                   then report r "A102 use sets for distinct unordered data"
                   else ret tt
               | _ => ret tt
               end).
  assert (H102 : exists e1, emits a102 tt e1
                  /\ List.filter (has_code "A103") e1 = []).
  { subst a102. destruct r; try (exists []; split; [apply emits_ret|done]);
      destruct (membership op);
      first [ by (exists []; split; [apply emits_ret|done])
            | by (eexists; split; [apply emits_report|done]) ]. }
  destruct H102 as (e1 & H102 & Hf1).
  unfold bind at 1. unfold bind at 1. rewrite H102.
  rewrite <- consts_first_spec.
  unfold folds_to_constant, does_not_fold, is_const_.
  destruct (consts_first single op); simpl.
  - unfold bind at 1.
    destruct (is_const py left) as [[|]|e] eqn:Hl; simpl.
    + unfold bind at 1.
      destruct (is_const py r) as [[|]|e] eqn:Hr; simpl.
      * specialize (IH r cs (with_errors v e1)).
        destruct (visit_Compare_loop _ _ _ _ _ _) as [[[] v']|e].
        -- destruct IH as (e2 & -> & Hf2). exists (e1 ++ e2).
           rewrite with_errors_app, List.filter_app, Hf1, Hf2. done.
        -- destruct IH as (n & Hmem & He). exists n. split; [|done].
           apply elem_of_cons. by right.
      * unfold report.
        specialize (IH r cs (with_errors (with_errors v e1)
                               [(left, "A103 yoda condition")])).
        change (mkTreeVisitor _ _)
          with (with_errors (with_errors v e1) [(left, "A103 yoda condition")]).
        destruct (visit_Compare_loop _ _ _ _ _ _) as [[[] v']|e].
        -- destruct IH as (e2 & -> & Hf2).
           exists (e1 ++ [(left, "A103 yoda condition")] ++ e2).
           rewrite !with_errors_app, !List.filter_app, Hf1, Hf2. done.
        -- destruct IH as (n & Hmem & He). exists n. split; [|done].
           apply elem_of_cons. by right.
      * exists r. split; [set_solver | done].
    + specialize (IH r cs (with_errors v e1)).
      destruct (visit_Compare_loop _ _ _ _ _ _) as [[[] v']|e].
      * destruct IH as (e2 & -> & Hf2). exists (e1 ++ e2).
        rewrite with_errors_app, List.filter_app, Hf1, Hf2. done.
      * destruct IH as (n & Hmem & He). exists n. split; [|done].
           apply elem_of_cons. by right.
    + exists left. split; [set_solver | done].
  - specialize (IH r cs (with_errors v e1)).
    destruct (visit_Compare_loop _ _ _ _ _ _) as [[[] v']|e].
    + destruct IH as (e2 & -> & Hf2). exists (e1 ++ e2).
      rewrite with_errors_app, List.filter_app, Hf1, Hf2. done.
    + destruct IH as (n & Hmem & He). exists n. split; [|done].
           apply elem_of_cons. by right.
Qed.

(** C3.  In a comparison chain, the method for a [Compare] node reports
    a yoda condition (A103) on the left operand of an operator exactly
    when the operator is [==], [!=], [is] or [is not], or is the only
    operator of the chain and not [in] or [not in], and the left operand
    folds to a constant under the namespace of [True], [False] and [None]
    while the right operand does not; it then goes on to the operands.
    The check ends normally when [is_const] returns for every operand.
    So [if 5 == x:] gets A103 at the literal [5], and [if x == 5:] and
    [if 5 == 6:] get no finding; [if 5 < x:] gets A103 and
    [if 5 in x:] and [if 0 < 5 < x:] get none, and [if y < 5 == x:] gets
    A103 at the [5]. *)
Theorem visit_Compare_yoda :
  forall (py : interpreter) (p : ast.position) (left : ast.node)
         (ops : list ast.cmpop) (comparators : list ast.node)
         (generic_visit : M unit) (v : TreeVisitor),
    (forall v',
       visit_method py (ast.Compare p left ops comparators) generic_visit v
       = Ok (tt, v') ->
       exists errs,
         generic_visit (with_errors v errs) = Ok (tt, v')
         /\ List.filter (has_code "A103") errs =
            map (fun l => (l, "A103 yoda condition"))
                (yoda_operands py (bool_decide (length ops = 1%nat)) left ops
                   comparators))
    /\ (Forall (fun n => exists b, is_const py n = Ok b) (left :: comparators) ->
        exists errs,
          visit_method py (ast.Compare p left ops comparators) generic_visit v
          = generic_visit (with_errors v errs))
    /\ (forall p pc p5 px pb,
          check_ast py
            (if_statement p pb
               (ast.Compare pc (ast.Num p5 5) [ast.Eq]
                  [ast.Name px "x" ast.Load]))
          = ([mkFinding (ast.lineno p5) (ast.col_offset p5)
                "A103 yoda condition"], None))
    /\ (forall p pc p5 px pb,
          check_ast py
            (if_statement p pb
               (ast.Compare pc (ast.Name px "x" ast.Load) [ast.Eq]
                  [ast.Num p5 5]))
          = ([], None))
    /\ (forall p pc p5 p6 pb,
          check_ast py
            (if_statement p pb
               (ast.Compare pc (ast.Num p5 5) [ast.Eq] [ast.Num p6 6]))
          = ([], None))
    /\ (forall p pc p5 px pb,
          check_ast py
            (if_statement p pb
               (ast.Compare pc (ast.Num p5 5) [ast.Lt]
                  [ast.Name px "x" ast.Load]))
          = ([mkFinding (ast.lineno p5) (ast.col_offset p5)
                "A103 yoda condition"], None))
    /\ (forall p pc p5 px pb,
          check_ast py
            (if_statement p pb
               (ast.Compare pc (ast.Num p5 5) [ast.In]
                  [ast.Name px "x" ast.Load]))
          = ([], None))
    /\ (forall p pc p0 p5 px pb,
          check_ast py
            (if_statement p pb
               (ast.Compare pc (ast.Num p0 0) [ast.Lt; ast.Lt]
                  [ast.Num p5 5; ast.Name px "x" ast.Load]))
          = ([], None))
    /\ (forall p pc py_ p5 px pb,
          check_ast py
            (if_statement p pb
               (ast.Compare pc (ast.Name py_ "y" ast.Load) [ast.Lt; ast.Eq]
                  [ast.Num p5 5; ast.Name px "x" ast.Load]))
          = ([mkFinding (ast.lineno p5) (ast.col_offset p5)
                "A103 yoda condition"], None)).
Proof.
  intros py p left ops comparators gv v.
  assert (Hsingle : (length ops =? 1)%nat = bool_decide (length ops = 1%nat)).
  { destruct (Nat.eqb_spec (length ops) 1).
    - by rewrite bool_decide_eq_true_2.
    - by rewrite bool_decide_eq_false_2. }
  pose proof (visit_Compare_loop_spec py (length ops =? 1)%nat ops left
                comparators v) as H.
  cbn [visit_method]. unfold visit_Compare, bind.
  split; [|split; [|split; [|split; [|split; [|split; [|split; [|split]]]]]]].
  - intros v' Hrun.
    destruct (visit_Compare_loop _ _ _ _ _ _) as [[[] v1]|e]; [|done].
    destruct H as (errs & -> & Hf). exists errs. by rewrite <- Hsingle.
  - intros Hall.
    destruct (visit_Compare_loop _ _ _ _ _ _) as [[[] v1]|e].
    + destruct H as (errs & -> & _). by exists errs.
    + destruct H as (n & Hn & He).
      rewrite Forall_forall in Hall. destruct (Hall n Hn) as [b Hb].
      congruence.
  - intros. vm_compute. reflexivity.
  - intros. vm_compute. reflexivity.
  - intros. vm_compute. reflexivity.
  - intros. vm_compute. reflexivity.
  - intros. vm_compute. reflexivity.
  - intros. vm_compute. reflexivity.
  - intros. vm_compute. reflexivity.
Qed.

(** C3 on [5 == x]. *)
Lemma visit_Compare_yoda_witness :
  (exists errs,
     ret tt (with_errors TreeVisitor_init errs)
     = Ok (tt, with_errors TreeVisitor_init
                 [(ast.Num (ast.Pos 1 3) 5, "A103 yoda condition")])
     /\ List.filter (has_code "A103") errs =
        map (fun l => (l, "A103 yoda condition"))
          (yoda_operands sample (bool_decide (length [ast.Eq] = 1%nat))
             (ast.Num (ast.Pos 1 3) 5) [ast.Eq]
             [ast.Name (ast.Pos 1 8) "x" ast.Load]))
  /\ (exists errs,
        visit_method sample
          (ast.Compare (ast.Pos 1 3) (ast.Num (ast.Pos 1 3) 5) [ast.Eq]
             [ast.Name (ast.Pos 1 8) "x" ast.Load])
          (ret tt) TreeVisitor_init
        = ret tt (with_errors TreeVisitor_init errs)).
Proof.
  split.
  - apply (proj1 (visit_Compare_yoda sample (ast.Pos 1 3)
                    (ast.Num (ast.Pos 1 3) 5)
                    [ast.Eq] [ast.Name (ast.Pos 1 8) "x" ast.Load]
                    (ret tt) TreeVisitor_init)).
    vm_compute. reflexivity.
  - apply (proj1 (proj2 (visit_Compare_yoda sample (ast.Pos 1 3)
                    (ast.Num (ast.Pos 1 3) 5)
                    [ast.Eq] [ast.Name (ast.Pos 1 8) "x" ast.Load]
                    (ret tt) TreeVisitor_init))).
    repeat constructor; eexists; vm_compute; reflexivity.
Defined.

(** ** Constant folding *)

Lemma py_eq_trans a : forall b c,
  py_eq a b = true -> py_eq b c = true -> py_eq a c = true.
Proof.
  induction a as [| | | |items IH| | |] using value_ind; intros u w Hab Hbc;
    destruct u; try discriminate Hab; destruct w; try discriminate Hbc;
    simpl in *; try done.
  - apply bool_decide_eq_true. apply bool_decide_eq_true in Hab, Hbc. congruence.
  - apply bool_decide_eq_true. apply bool_decide_eq_true in Hab, Hbc. congruence.
  - apply bool_decide_eq_true. apply bool_decide_eq_true in Hab, Hbc. congruence.
  - apply bool_decide_eq_true. apply bool_decide_eq_true in Hab, Hbc. congruence.
  - apply bool_decide_eq_true. apply bool_decide_eq_true in Hab, Hbc. congruence.
  - apply bool_decide_eq_true. apply bool_decide_eq_true in Hab, Hbc. congruence.
  - apply bool_decide_eq_true. apply bool_decide_eq_true in Hab, Hbc. congruence.
  - apply bool_decide_eq_true. apply bool_decide_eq_true in Hab, Hbc. congruence.
  - apply String.eqb_eq in Hab, Hbc. apply String.eqb_eq. congruence.
  - revert items0 items1 Hab Hbc.
    induction IH as [|x Hx l _ IHl]; intros [|y m] [|z k] Hab Hbc;
      try discriminate; try done.
    apply andb_true_iff in Hab as [Hxy Hlm], Hbc as [Hyz Hmk].
    apply andb_true_iff. split; [by eapply Hx | by eapply IHl].
  - apply String.eqb_eq in Hab, Hbc. apply String.eqb_eq. congruence.
  - apply Nat.eqb_eq in Hab, Hbc. apply Nat.eqb_eq. congruence.
Qed.

Lemma existsb_snoc {A} (f : A -> bool) l x :
  existsb f (l ++ [x]) = existsb f l || f x.
Proof. rewrite existsb_app. simpl. by rewrite orb_false_r. Qed.

Lemma contains_value_plain py keys key :
  Forall (fun k => plain k = true) keys -> plain key = true ->
  contains_value py keys key = Ok (existsb (fun k => py_eq k key) keys).
Proof.
  intros Hall Hkey. induction Hall as [|k keys Hk _ IH]; [done|].
  cbn [contains_value existsb]. unfold value_eq. rewrite Hk, Hkey.
  cbn [andb]. destruct (py_eq k key); [done|]. by rewrite IH.
Qed.

Lemma visit_hash_keys_loop_spec py what nodes : forall keys earlier ns v fs,
  fold_keys py nodes ns = Ok fs ->
  Forall (fun f => plain_folded f = true) fs ->
  Forall (fun k => plain k = true) keys ->
  (forall k, existsb (fun k' => py_eq k' k) keys
             = existsb (fun k' => py_eq k' k) earlier) ->
  _visit_hash_keys_loop py nodes what keys ns v =
  Ok (tt, with_errors v
            (map (fun n => (n, "A207 duplicate " +:+ what))
                 (repeated_keys earlier nodes fs))).
Proof.
  induction nodes as [|n rest IH]; intros keys earlier ns v fs Hfold Hplain
    Hkeys Hinv; cbn [fold_keys _visit_hash_keys_loop] in *.
  - inversion Hfold; subst. unfold ret. by rewrite with_errors_nil.
  - destruct (evaluate py n ns) as [[f|e] ns'] eqn:He; [|done].
    destruct (fold_keys py rest ns') as [fs'|e] eqn:Hrest; [|done].
    inversion Hfold; subst. inversion Hplain as [|? ? Hf Hfs']; subst.
    destruct f as [key|]; cbn [repeated_keys].
    + cbn [plain_folded] in Hf.
      rewrite (contains_value_plain py keys key Hkeys Hf), <- Hinv.
      destruct (existsb (fun k' => py_eq k' key) keys) eqn:Hdup.
      * assert (Hinv' : forall k, existsb (fun k' => py_eq k' k) keys
                          = existsb (fun k' => py_eq k' k) (earlier ++ [key])).
        { intros k. rewrite existsb_snoc, <- Hinv.
          destruct (py_eq key k) eqn:Hk; [|by rewrite orb_false_r].
          rewrite orb_true_r. apply existsb_exists.
          apply existsb_exists in Hdup as (k0 & Hin & Hk0).
          exists k0. split; [done|]. by eapply py_eq_trans. }
        unfold bind.
        destruct n as [n|]; cbn [option_list].
        -- unfold report.
           change (mkTreeVisitor _ _)
             with (with_errors v [(n, "A207 duplicate " +:+ what)]).
           rewrite (IH keys (earlier ++ [key]) ns' _ fs' Hrest Hfs' Hkeys
                      Hinv').
           by rewrite with_errors_app.
        -- unfold ret.
           by rewrite (IH keys (earlier ++ [key]) ns' _ fs' Hrest Hfs' Hkeys
                         Hinv').
      * apply IH; try done.
        -- apply Forall_app. split; [done|]. by constructor.
        -- intros k. by rewrite !existsb_snoc, Hinv.
    + by apply IH.
Qed.

(** X18.  When the keys of a literal fold, from left to right, to values
    that are spelled out or do not fold at all, [_visit_hash_keys] returns
    with one A207 finding for every key that folds to a value equal to
    the value of a key before it, at that key and in the order of the
    keys, and with no other finding: the first key of a value is
    accepted, every repetition is reported once, a key that does not fold
    is neither reported nor counted.  A visit of a dict node reports such
    keys as "key in dict" and a visit of a set node such elements as
    "item in set"; neither visits the children of the node. *)
Theorem visit_hash_keys_repeated :
  forall (py : interpreter) (nodes : list (option ast.node))
         (fs : list folded) (v : TreeVisitor),
    fold_keys py nodes (builtins_namespace py) = Ok fs ->
    Forall (fun f => plain_folded f = true) fs ->
    (forall what,
       _visit_hash_keys py nodes what v
       = Ok (tt, with_errors v
                   (map (fun n => (n, "A207 duplicate " +:+ what))
                        (repeated_keys [] nodes fs))))
    /\ (forall p values,
          visit py (ast.Dict p nodes values) v
          = Ok (tt, with_errors v
                      (map (fun n => (n, "A207 duplicate key in dict"))
                           (repeated_keys [] nodes fs))))
    /\ (forall p elts,
          nodes = map Some elts ->
          visit py (ast.Set_ p elts) v
          = Ok (tt, with_errors v
                      (map (fun n => (n, "A207 duplicate item in set"))
                           (repeated_keys [] nodes fs)))).
Proof.
  intros py nodes fs v Hfold Hplain.
  assert (H : forall what,
             _visit_hash_keys py nodes what v
             = Ok (tt, with_errors v
                         (map (fun n => (n, "A207 duplicate " +:+ what))
                              (repeated_keys [] nodes fs)))).
  { intros what. unfold _visit_hash_keys.
    by apply visit_hash_keys_loop_spec. }
  split; [exact H|]. split.
  - intros p values.
    change (visit py (ast.Dict p nodes values)) with (visit_Dict py nodes).
    exact (H "key in dict").
  - intros p elts ->.
    change (visit py (ast.Set_ p elts)) with (visit_Set py elts).
    exact (H "item in set").
Qed.

(** X18 on the dict [{1: 'a', x: 'b', True: 'c', x: 'd', 2: 'e'}] and on
    the set [{1, x, True, x, 2}]: [True] equals 1, and the second [x] is
    the object the namespace made for the first. *)
Lemma visit_hash_keys_repeated_witness :
  visit sample
    (ast.Dict (ast.Pos 1 0)
       [Some (ast.Num (ast.Pos 1 1) 1);
        Some (ast.Name (ast.Pos 1 9) "x" ast.Load);
        Some (ast.NameConstant (ast.Pos 1 17) ast.PyTrue);
        Some (ast.Name (ast.Pos 1 28) "x" ast.Load);
        Some (ast.Num (ast.Pos 1 36) 2)]
       [ast.Str (ast.Pos 1 4) "a"; ast.Str (ast.Pos 1 12) "b";
        ast.Str (ast.Pos 1 23) "c"; ast.Str (ast.Pos 1 31) "d";
        ast.Str (ast.Pos 1 39) "e"])
    TreeVisitor_init
  = Ok (tt, with_errors TreeVisitor_init
              [(ast.NameConstant (ast.Pos 1 17) ast.PyTrue,
                "A207 duplicate key in dict");
               (ast.Name (ast.Pos 1 28) "x" ast.Load,
                "A207 duplicate key in dict")])
  /\ visit sample
       (ast.Set_ (ast.Pos 1 0)
          [ast.Num (ast.Pos 1 1) 1;
           ast.Name (ast.Pos 1 4) "x" ast.Load;
           ast.NameConstant (ast.Pos 1 7) ast.PyTrue;
           ast.Name (ast.Pos 1 13) "x" ast.Load;
           ast.Num (ast.Pos 1 16) 2])
       TreeVisitor_init
     = Ok (tt, with_errors TreeVisitor_init
                 [(ast.NameConstant (ast.Pos 1 7) ast.PyTrue,
                   "A207 duplicate item in set");
                  (ast.Name (ast.Pos 1 13) "x" ast.Load,
                   "A207 duplicate item in set")]).
Proof.
  split.
  - apply (proj1 (proj2 (visit_hash_keys_repeated sample
             [Some (ast.Num (ast.Pos 1 1) 1);
              Some (ast.Name (ast.Pos 1 9) "x" ast.Load);
              Some (ast.NameConstant (ast.Pos 1 17) ast.PyTrue);
              Some (ast.Name (ast.Pos 1 28) "x" ast.Load);
              Some (ast.Num (ast.Pos 1 36) 2)]
             [Value (VInt 1); Value (VObject 0); Value (VBool true);
              Value (VObject 0); Value (VInt 2)]
             TreeVisitor_init ltac:(vm_compute; reflexivity)
             ltac:(repeat constructor)))).
  - apply (proj2 (proj2 (visit_hash_keys_repeated sample
             [Some (ast.Num (ast.Pos 1 1) 1);
              Some (ast.Name (ast.Pos 1 4) "x" ast.Load);
              Some (ast.NameConstant (ast.Pos 1 7) ast.PyTrue);
              Some (ast.Name (ast.Pos 1 13) "x" ast.Load);
              Some (ast.Num (ast.Pos 1 16) 2)]
             [Value (VInt 1); Value (VObject 0); Value (VBool true);
              Value (VObject 0); Value (VInt 2)]
             TreeVisitor_init ltac:(vm_compute; reflexivity)
             ltac:(repeat constructor)))).
    reflexivity.
Defined.

(** C4.  A dict or set literal whose keys fold to equal values gets A207
    on the repeated key, also when it stands inside a list, but not when
    it stands inside another dict or set literal: [visit_Dict] and
    [visit_Set] do not go on to the children of the node, as the other
    methods of the visitor do.  So [f({1: 'a', 1: 'b'})], [f({1, 1})] and
    [f([{1: 'a', 1: 'b'}])] get the finding, and [f({0: {1: 'a', 1: 'b'}})]
    and [f({0: {1, 1}})] get none. *)
Theorem visit_Dict_skips_nested_literals :
  forall (py : interpreter) (p pc pf pd p0 pi p1 p2 pa pb : ast.position),
    check_ast py
      (ast.Module
         [ast.Expr p
            (ast.Call pc (ast.Name pf "f" ast.Load)
               [ast.Dict pi [Some (ast.Num p1 1); Some (ast.Num p2 1)]
                  [ast.Str pa "a"; ast.Str pb "b"]])])
    = ([mkFinding (ast.lineno p2) (ast.col_offset p2)
          "A207 duplicate key in dict"], None)
    /\ check_ast py
         (ast.Module
            [ast.Expr p
               (ast.Call pc (ast.Name pf "f" ast.Load)
                  [ast.Set_ pi [ast.Num p1 1; ast.Num p2 1]])])
       = ([mkFinding (ast.lineno p2) (ast.col_offset p2)
             "A207 duplicate item in set"], None)
    /\ check_ast py
         (ast.Module
            [ast.Expr p
               (ast.Call pc (ast.Name pf "f" ast.Load)
                  [ast.List pd
                     [ast.Dict pi [Some (ast.Num p1 1); Some (ast.Num p2 1)]
                        [ast.Str pa "a"; ast.Str pb "b"]] ast.Load])])
       = ([mkFinding (ast.lineno p2) (ast.col_offset p2)
             "A207 duplicate key in dict"], None)
    /\ check_ast py
         (ast.Module
            [ast.Expr p
               (ast.Call pc (ast.Name pf "f" ast.Load)
                  [ast.Dict pd [Some (ast.Num p0 0)]
                     [ast.Dict pi [Some (ast.Num p1 1); Some (ast.Num p2 1)]
                        [ast.Str pa "a"; ast.Str pb "b"]]])])
       = ([], None)
    /\ check_ast py
         (ast.Module
            [ast.Expr p
               (ast.Call pc (ast.Name pf "f" ast.Load)
                  [ast.Dict pd [Some (ast.Num p0 0)]
                     [ast.Set_ pi [ast.Num p1 1; ast.Num p2 1]]])])
       = ([], None).
Proof.
  intros. split; [|split; [|split; [|split]]]; vm_compute; reflexivity.
Qed.

(** C5, as the code has it.  [evaluate] returns the value when evaluation
    returns one, and [VOLATILE] when evaluation raises an exception that
    derives from [Exception]; an exception that does not ([SystemExit],
    [KeyboardInterrupt], [GeneratorExit]) is not caught and leaves
    [evaluate]. *)
Theorem evaluate_catches_Exception :
  forall (py : interpreter) (n : option ast.node) (ns : namespace),
    (forall v ns', py_eval py n ns = (Ok v, ns') ->
                   evaluate py n ns = (Ok (Value v), ns'))
    /\ (forall e ns', py_eval py n ns = (Raise e, ns') ->
                      is_Exception e = true ->
                      evaluate py n ns = (Ok VOLATILE, ns'))
    /\ (forall e ns', py_eval py n ns = (Raise e, ns') ->
                      is_Exception e = false ->
                      evaluate py n ns = (Raise e, ns')).
Proof.
  intros. unfold evaluate. repeat split; intros ? ? ->; try done.
  - by intros ->.
  - by intros ->.
Qed.

(** C5 on an unbound name and on a call of [exit]. *)
Lemma evaluate_catches_Exception_witness :
  evaluate sample (Some (ast.Name (ast.Pos 1 0) "x" ast.Load))
    (const_namespace)
  = (Ok VOLATILE, const_namespace)
  /\ fst (evaluate sample
            (Some (ast.Call (ast.Pos 1 0)
                     (ast.Name (ast.Pos 1 0) "exit" ast.Load) []))
            (builtins_namespace sample))
     = Raise SystemExit
  /\ evaluate sample (Some (ast.Num (ast.Pos 1 0) 5)) const_namespace
     = (Ok (Value (VInt 5)), const_namespace).
Proof.
  split; [|split].
  - apply (proj1 (proj2 (evaluate_catches_Exception sample
             (Some (ast.Name (ast.Pos 1 0) "x" ast.Load)) const_namespace))
             NameError); reflexivity.
  - erewrite (proj2 (proj2 (evaluate_catches_Exception sample
             (Some (ast.Call (ast.Pos 1 0)
                     (ast.Name (ast.Pos 1 0) "exit" ast.Load) []))
             (builtins_namespace sample))) SystemExit);
      [reflexivity | vm_compute; reflexivity | reflexivity].
  - apply (proj1 (evaluate_catches_Exception sample
             (Some (ast.Num (ast.Pos 1 0) 5)) const_namespace)).
    reflexivity.
Defined.

(** C5 as stated fails: folding [exit()] in the namespace of the built-in
    names does not return; [SystemExit] leaves [evaluate]. *)
Lemma evaluate_propagates_SystemExit :
  fst (evaluate sample
         (Some (ast.Call (ast.Pos 1 1)
                  (ast.Name (ast.Pos 1 1) "exit" ast.Load) []))
         (builtins_namespace sample))
  = Raise SystemExit.
Proof. vm_compute. reflexivity. Qed.

(** ** The physical line check *)

(** C9.  [check_non_default_encoding] returns nothing for a line whose
    number is greater than 2, whatever the line holds; when it returns the
    A303 finding, the line has a coding declaration and its 1-based number
    is 1 or 2. *)
Theorem check_non_default_encoding_first_two_lines :
  forall (py : interpreter) (physical_line : string) (line_number : Z),
    (2 < line_number ->
     check_non_default_encoding py physical_line line_number = None)
    /\ (forall r,
          check_non_default_encoding py physical_line line_number = Some r ->
          1 <= line_number ->
          (line_number = 1 \/ line_number = 2)
          /\ r = (0, "A303 non-default file encoding")
          /\ coding_declaration py physical_line = true).
Proof.
  intros. unfold check_non_default_encoding. split.
  - intros H. destruct (Z.leb_spec line_number 2); [lia | done].
  - intros r H Hpos.
    destruct (Z.leb_spec line_number 2); simpl in H; [|done].
    destruct (coding_declaration py physical_line); [|done].
    inversion H. repeat split. lia.
Qed.

(** C9 on a coding declaration in line 3 and in line 1. *)
Lemma check_non_default_encoding_first_two_lines_witness :
  check_non_default_encoding sample "# -*- coding: latin-1 -*-" 3 = None
  /\ ((1 = 1 \/ 1 = 2)
      /\ (0, "A303 non-default file encoding")
         = (0, "A303 non-default file encoding")
      /\ coding_declaration sample "# -*- coding: latin-1 -*-" = true).
Proof.
  split.
  - apply (proj1 (check_non_default_encoding_first_two_lines sample
                    "# -*- coding: latin-1 -*-" 3)). lia.
  - apply (proj2 (check_non_default_encoding_first_two_lines sample
                    "# -*- coding: latin-1 -*-" 1)
             (0, "A303 non-default file encoding")); [reflexivity | lia].
Defined.

(** ** The quote check *)




Lemma check_quotes_loop_ends py prev state tokens : forall first_token,
  Forall (fun t => unmatched_string t = false) tokens ->
  (forall literal, exists canonical, ascii_eval py literal = Ok canonical) ->
  snd (check_quotes_loop py prev state tokens first_token) = None.
Proof.
  intros first_token Hall Hascii. revert first_token.
  induction Hall as [|t rest Ht _ IH]; intros first_token; [done|].
  simpl. unfold unmatched_string in Ht.
  destruct (tokenize.type t); simpl in *; try (by apply IH).
  destruct (match_string_token (tokenize.text t)) as [[[prefixes quote] text]|];
    [|done].
  destruct (check_quotes_style _ _ _ _ _ _ _ _) as [found|e] eqn:Hstyle;
    simpl; [by apply IH|].
  unfold check_quotes_style in Hstyle.
  repeat match type of Hstyle with
         | context [if ?c then _ else _] => destruct c
         end; try discriminate;
  match type of Hstyle with
  | context [ascii_eval ?p ?l] =>
      destruct (Hascii l) as [c Hc]; rewrite Hc in Hstyle
  end;
  repeat match type of Hstyle with
         | context [if ?c then _ else _] => destruct c
         end; discriminate.
Qed.

(** The generator runs to its end when the pattern matches every string
    token and the literals evaluate. *)
Lemma check_quotes_ends py logical_line tokens previous_logical checker_state :
  Forall (fun t => unmatched_string t = false) tokens ->
  (forall literal, exists canonical, ascii_eval py literal = Ok canonical) ->
  snd (fst (check_quotes py logical_line tokens previous_logical
              checker_state)) = None.
Proof. intros. unfold check_quotes. simpl. by apply check_quotes_loop_ends. Qed.




(** ** The scope stack *)

Lemma keeps_ret {A} (a : A) : keeps_scopes (ret a).
Proof. intros v a' v' H. by inversion H. Qed.

Lemma keeps_raise {A} e : keeps_scopes (@raise A e).
Proof. intros v a' v' H. inversion H. Qed.

Lemma keeps_bind {A B} (m : M A) (k : A -> M B) :
  keeps_scopes m -> (forall a, keeps_scopes (k a)) -> keeps_scopes (bind m k).
Proof.
  intros Hm Hk v b v' H. unfold bind in H.
  destruct (m v) as [[a w]|e] eqn:E; [|done].
  rewrite (Hk a w b v' H). by eapply Hm.
Qed.

Lemma keeps_emits {A} (m : M A) a errs : emits m a errs -> keeps_scopes m.
Proof. intros He v a' v' H. rewrite He in H. by inversion H. Qed.

Lemma keeps_report n msg : keeps_scopes (report n msg).
Proof. eapply keeps_emits, emits_report. Qed.

Lemma keeps_visit_block b1 b2 b3 b4 nodes :
  keeps_scopes (_visit_block b1 b2 b3 b4 nodes).
Proof.
  destruct (visit_block_emits b1 b2 b3 b4 nodes) as (errs & He & _).
  by eapply keeps_emits.
Qed.

Lemma keeps_top_scope : keeps_scopes top_scope.
Proof.
  intros v a v' H. unfold top_scope in H.
  destruct (last (scope_stack v)); by inversion H.
Qed.

Lemma map_removelast {A B} (f : A -> B) l :
  map f (removelast l) = removelast (map f l).
Proof.
  induction l as [|x [|y l] IH]; try done.
  change (f x :: map f (removelast (y :: l)) = f x :: removelast (map f (y :: l))).
  by rewrite IH.
Qed.

Lemma keeps_update_top f :
  (forall s, node (f s) = node s) -> keeps_scopes (update_top f).
Proof.
  intros Hf v a v' H. unfold update_top in H.
  destruct (last (scope_stack v)) as [s|] eqn:E; inversion H; subst; simpl.
  apply last_Some in E as [l ->].
  rewrite removelast_last, !map_app. simpl. by rewrite Hf.
Qed.

Ltac keeps_step :=
  first
    [ apply keeps_ret | apply keeps_raise | apply keeps_report
    | apply keeps_visit_block | apply keeps_top_scope
    | apply keeps_update_top; intros; reflexivity
    | assumption
    | apply keeps_bind; [|intros ?]
    | match goal with
      | |- keeps_scopes (match ?x with _ => _ end) => destruct x
      | |- keeps_scopes (if ?c then _ else _) => destruct c
      end ].

Ltac keeps_tac := repeat keeps_step.

Lemma keeps_visit_stored_name py n name :
  keeps_scopes (_visit_stored_name py n name).
Proof. unfold _visit_stored_name. keeps_tac. Qed.

Lemma keeps_visit_Global n : keeps_scopes (visit_Global n).
Proof. unfold visit_Global. keeps_tac. Qed.

Lemma keeps_check_deprecated n name : keeps_scopes (_check_deprecated n name).
Proof. unfold _check_deprecated. keeps_tac. Qed.

Lemma keeps_check_redundant_else orelse handlers clause :
  keeps_scopes (_check_redundant_else orelse handlers clause).
Proof. unfold _check_redundant_else. keeps_tac. Qed.

Lemma keeps_visit_iter n : keeps_scopes (_visit_iter n).
Proof. unfold _visit_iter. keeps_tac. Qed.

Lemma keeps_is_const py n : keeps_scopes (is_const_ py n).
Proof.
  intros v a v' H. unfold is_const_ in H.
  destruct (is_const py n); by inversion H.
Qed.

Lemma keeps_visit_Compare_loop py single ops : forall left comparators,
  keeps_scopes (visit_Compare_loop py single left ops comparators).
Proof.
  induction ops as [|op ops IH]; intros left [|r cs]; simpl;
    try apply keeps_ret.
  pose proof (keeps_is_const py). pose proof (IH r cs).
  apply keeps_bind; [|intros ?]; [keeps_tac|].
  apply keeps_bind; [|intros ?]; [|done].
  destruct (consts_first single op); [|apply keeps_ret].
  apply keeps_bind; [done|intros []]; [|apply keeps_ret].
  apply keeps_bind; [done|intros []]; keeps_tac.
Qed.

Lemma keeps_visit_Import py n module names_ :
  keeps_scopes (visit_Import py n module names_).
Proof.
  induction names_ as [|a rest IH]; simpl; [apply keeps_ret|].
  pose proof (keeps_visit_stored_name py n (bound_name a)).
  apply keeps_bind; [done|intros ?].
  apply keeps_bind; [|done].
  destruct module; [apply keeps_check_deprecated | apply keeps_ret].
Qed.

Lemma keeps_visit_hash_keys_loop py what nodes : forall keys ns,
  keeps_scopes (_visit_hash_keys_loop py nodes what keys ns).
Proof.
  induction nodes as [|n rest IH]; intros keys ns; simpl; [apply keeps_ret|].
  destruct (evaluate py n ns) as [[[key|]|e] ns']; [| |apply keeps_raise].
  - destruct (contains_value py keys key) as [[|]|e];
      [|apply IH|apply keeps_raise].
    apply keeps_bind; [|intros ?; apply IH]. keeps_tac.
  - apply IH.
Qed.

Lemma keeps_redundant_names scope declaration names_ : forall global_names,
  keeps_scopes (_redundant_names scope declaration names_ global_names).
Proof.
  induction names_ as [|name rest IH]; intros g; simpl; [apply keeps_ret|].
  destruct (_ || _); [|apply IH].
  apply keeps_bind; [apply keeps_report | intros ?; apply IH].
Qed.

Lemma keeps_redundant_declarations scope declarations : forall global_names,
  keeps_scopes (_redundant_declarations scope declarations global_names).
Proof.
  induction declarations as [|d rest IH]; intros g; simpl; [apply keeps_ret|].
  destruct (get_names d); [|apply keeps_raise].
  apply keeps_bind; [apply keeps_redundant_names | intros ?; apply IH].
Qed.

Lemma keeps_length {A} (m : M A) v a v' :
  keeps_scopes m -> m v = Ok (a, v') ->
  length (scope_stack v') = length (scope_stack v).
Proof.
  intros Hm H. apply Hm in H.
  by rewrite <- (length_map node (scope_stack v')), H, length_map.
Qed.

Lemma keeps_visit_with_scope n gv :
  keeps_scopes gv -> keeps_scopes (_visit_with_scope n gv).
Proof.
  intros Hgv v a v' H. unfold _visit_with_scope, bind, ret, top_scope in H.
  destruct (gv _) as [[[] w]|e] eqn:E; [|done].
  apply Hgv in E. simpl in E.
  destruct (last (scope_stack w)); inversion H; subst; simpl.
  rewrite map_removelast, E, map_app. simpl. by rewrite removelast_last.
Qed.

Lemma tracks_same {A} d (m : M A) : keeps_scopes m -> tracks d m m.
Proof. by split. Qed.

Lemma tracks_bind {A B} d (m' m : M A) (k' k : A -> M B) :
  tracks d m' m -> (forall a, tracks d (k' a) (k a)) ->
  tracks d (bind m' k') (bind m k).
Proof.
  intros [Hm Hkeep] Hk. split.
  - intros v Hd. unfold bind. rewrite (Hm v Hd).
    destruct (m v) as [[a w]|e] eqn:E; [|done].
    apply (Hk a). rewrite <- Hd. by eapply keeps_length.
  - apply keeps_bind; [done|]. intros a. apply (Hk a).
Qed.

Lemma tracks_traverse d (f' f : ast.node -> M unit) l :
  list_all ast.node (fun c => tracks d (f' c) (f c)) l ->
  tracks d (traverse f' l) (traverse f l).
Proof.
  induction 1 as [|c Hc l _ IH]; simpl.
  - apply tracks_same, keeps_ret.
  - apply tracks_bind; [done | by intros _].
Qed.

Lemma tracks_traverse_option d (f' f : ast.node -> M unit) o :
  option_all ast.node (fun c => tracks d (f' c) (f c)) o ->
  tracks d (traverse_option f' o) (traverse_option f o).
Proof. destruct 1; simpl; [done | apply tracks_same, keeps_ret]. Qed.

Lemma tracks_traverse_keys d (f' f : ast.node -> M unit) l :
  list_all (option ast.node)
    (option_all ast.node (fun c => tracks d (f' c) (f c))) l ->
  tracks d (traverse (traverse_option f') l) (traverse (traverse_option f) l).
Proof.
  induction 1 as [|c Hc l _ IH]; simpl.
  - apply tracks_same, keeps_ret.
  - apply tracks_bind; [by apply tracks_traverse_option | by intros _].
Qed.

Lemma tracks_visit_with_scope d n gv' gv :
  tracks (S d) gv' gv ->
  tracks d (_visit_with_scope n gv') (_visit_with_scope n gv).
Proof.
  intros [Hgv Hkeep]. split; [|by apply keeps_visit_with_scope].
  intros v Hd. unfold _visit_with_scope, bind. rewrite Hgv; [done|].
  simpl. rewrite length_app. simpl. lia.
Qed.

(** The method of a node does the same with either traversal of the
    children, when these do the same at the depth of the children. *)
Lemma tracks_visit_method py d n gv' gv :
  tracks (if is_scope n then S d else d) gv' gv ->
  tracks d (visit_method py n gv') (visit_method py n gv).
Proof.
  intros Hgv.
  pose proof (keeps_visit_stored_name py) as K1.
  pose proof keeps_visit_Global as K2.
  pose proof keeps_check_deprecated as K3.
  pose proof keeps_check_redundant_else as K4.
  pose proof keeps_visit_iter as K5.
  pose proof (keeps_visit_Compare_loop py) as K6.
  pose proof (keeps_visit_Import py) as K7.
  pose proof (keeps_visit_hash_keys_loop py) as K8.
  pose proof keeps_redundant_declarations as K9.
  destruct n; simpl in *; try exact Hgv;
    unfold visit_Module, visit_FunctionDef, visit_If, visit_Try,
      visit_TryExcept, visit_TryFinally, visit_ExceptHandler, visit_Name,
      visit_arg, visit_comprehension, visit_For, visit_While, visit_BinOp,
      visit_Compare, visit_Call, visit_Assign, visit_Dict, visit_Set,
      _visit_hash_keys;
    repeat first
      [ exact Hgv
      | apply tracks_visit_with_scope; exact Hgv
      | apply tracks_same; solve [keeps_tac; auto]
      | apply tracks_bind; [|intros ?] ].
Qed.

Lemma tracks_asserting d (m' m : M unit) :
  tracks d m' m ->
  tracks d (assert_depth d;; m';; assert_depth d) m.
Proof.
  intros [Hm Hkeep]. split; [|done].
  intros v Hd. unfold bind, assert_depth at 1. rewrite Hd, Nat.eqb_refl.
  rewrite (Hm v Hd). destruct (m v) as [[[] w]|e] eqn:E; [|done].
  unfold assert_depth. rewrite (keeps_length _ _ _ _ Hkeep E), Hd.
  by rewrite Nat.eqb_refl.
Qed.

Lemma visit_asserting_unfold py d n :
  visit_asserting py d n =
  (assert_depth d;;
   visit_method py n
     (generic_visit (visit_asserting py (if is_scope n then S d else d)) n);;
   assert_depth d).
Proof. by destruct n. Qed.

Lemma visit_unfold py n :
  visit py n = visit_method py n (generic_visit (visit py) n).
Proof. by destruct n. Qed.

Lemma list_all_mono {A} (P Q : A -> Prop) l :
  (forall x, P x -> Q x) -> list_all A P l -> list_all A Q l.
Proof. intros H. induction 1; constructor; auto. Qed.

Lemma option_all_mono {A} (P Q : A -> Prop) o :
  (forall x, P x -> Q x) -> option_all A P o -> option_all A Q o.
Proof. intros H. destruct 1; constructor; auto. Qed.

Lemma keys_all_mono (P Q : ast.node -> Prop) l :
  (forall x, P x -> Q x) ->
  list_all (option ast.node) (option_all ast.node P) l ->
  list_all (option ast.node) (option_all ast.node Q) l.
Proof.
  intros H. induction 1; constructor; [by eapply option_all_mono | done].
Qed.

(** The asserting traversal and the traversal do the same on every node,
    from every depth. *)
Lemma tracks_visit py n :
  forall d, tracks d (visit_asserting py d n) (visit py n).
Proof.
  induction n using ast.node_ind; intros d;
    rewrite visit_asserting_unfold, visit_unfold;
    apply tracks_asserting, tracks_visit_method;
    cbn [is_scope generic_visit];
    repeat first
      [ apply tracks_same, keeps_ret
      | apply tracks_bind; [|intros _]
      | apply tracks_traverse; eapply list_all_mono; [|eassumption];
          cbv beta; auto
      | apply tracks_traverse_option; eapply option_all_mono; [|eassumption];
          cbv beta; auto
      | match goal with H : forall d, tracks d _ _ |- _ => apply H end ].
  apply tracks_traverse_keys. eapply keys_all_mono; [|eassumption].
  intros c Hc. apply Hc.
Qed.

Lemma keeps_visit py n : keeps_scopes (visit py n).
Proof. apply (tracks_visit py n 0). Qed.

Lemma keeps_traverse {A} (f : A -> M unit) l :
  (forall x, keeps_scopes (f x)) -> keeps_scopes (traverse f l).
Proof.
  intros Hf. induction l as [|x l IH]; simpl; [apply keeps_ret|].
  apply keeps_bind; [apply Hf | by intros _].
Qed.

Lemma keeps_traverse_option {A} (f : A -> M unit) o :
  (forall x, keeps_scopes (f x)) -> keeps_scopes (traverse_option f o).
Proof. intros Hf. destruct o; simpl; [apply Hf | apply keeps_ret]. Qed.

Lemma keeps_generic_visit py n : keeps_scopes (generic_visit (visit py) n).
Proof.
  pose proof (keeps_visit py) as Hall.
  destruct n; cbn [generic_visit];
    repeat lazymatch goal with
           | |- keeps_scopes (ret _) => apply keeps_ret
           | |- keeps_scopes (bind _ _) => apply keeps_bind; [|intros _]
           | |- keeps_scopes (traverse (traverse_option _) _) =>
               apply keeps_traverse; intros ?; apply keeps_traverse_option;
               exact Hall
           | |- keeps_scopes (traverse _ _) => apply keeps_traverse; exact Hall
           | |- keeps_scopes (traverse_option _ _) =>
               apply keeps_traverse_option; exact Hall
           | |- keeps_scopes (visit _ _) => exact (Hall _)
           end.
Qed.

(** The scope that [_visit_with_scope] deletes and returns after the
    traversal of the children is the scope it pushed for the node, and the
    stack is then what it was before the push. *)
Lemma visit_with_scope_own_scope py n v scope v' :
  _visit_with_scope n (generic_visit (visit py) n) v = Ok (scope, v') ->
  node scope = n /\ map node (scope_stack v') = map node (scope_stack v).
Proof.
  intros H. unfold _visit_with_scope, bind, ret, top_scope in H.
  destruct (generic_visit _ _ _) as [[[] w]|e] eqn:E; [|done].
  apply keeps_generic_visit in E. simpl in E.
  destruct (last (scope_stack w)) as [s|] eqn:El; inversion H; subst; simpl.
  apply last_Some in El as [l El]. rewrite El in *.
  rewrite !removelast_last. rewrite !map_app in E. simpl in E.
  by apply app_inj_tail in E as [E1 E2].
Qed.

(** ** The parenthesis check *)

Section parenthesis.
Variable tokens : list tokenize.token.
Variable start_line : Z.

Abbreviation loop := (check_redundant_parenthesis_loop tokens start_line).

Lemma loop_at_most_one rest : forall i level statement r,
  loop i rest level statement = Ok r -> (length r <= 1)%nat.
Proof.
  induction rest as [|t rest IH]; intros i level statement r; simpl.
  - intros H. inversion H. simpl. lia.
  - repeat match goal with
           | |- context [match ?x with _ => _ end] =>
               lazymatch x with
               | check_redundant_parenthesis_loop _ _ _ _ _ _ => fail
               | _ => destruct x
               end
           end;
      try (intros H; inversion H; simpl; lia); apply IH.
Qed.

Lemma loop_skip_indentation indents : forall i rest level statement,
  Forall (fun t => is_indentation t = true) indents ->
  loop i (indents ++ rest) level statement
  = loop (i + length indents) rest level statement.
Proof.
  induction indents as [|t indents IH]; intros i rest level statement Hall.
  - simpl. by rewrite Nat.add_0_r.
  - inversion Hall as [|? ? Ht Hrest]; subst. simpl.
    unfold is_indentation in Ht.
    destruct (tokenize.type t); try discriminate Ht;
      rewrite IH by done; f_equal; lia.
Qed.

Lemma scans_tail level t ts :
  scans start_line level (t :: ts) ->
  scans start_line
    (level + (if is_op t "(" then 1 else if is_op t ")" then -1 else 0)) ts.
Proof.
  intros H pre u post -> Hu.
  destruct (H (t :: pre) u post eq_refl Hu) as (H1 & H2 & H3).
  simpl in H2, H3. split; [done|]. split; intros Hop.
  - specialize (H2 Hop). lia.
  - specialize (H3 Hop). lia.
Qed.

Lemma is_op_text t s : is_op t s = true ->
  tokenize.type t = tokenize.OP /\ tokenize.text t = s.
Proof.
  unfold is_op. intros H. apply andb_true_iff in H as [H1 H2].
  apply String.eqb_eq in H2. split; [|done].
  by destruct (tokenize.type t).
Qed.

Lemma loop_scan inner : forall i rest level st,
  scans start_line level inner ->
  loop i (inner ++ rest) level (Some st)
  = loop (i + length inner) rest (level + paren_depth inner) (Some st).
Proof.
  induction inner as [|t inner IH]; intros i rest level [keyword pos] Hs.
  - simpl. by rewrite Nat.add_0_r, Z.add_0_r.
  - pose proof (scans_tail _ _ _ Hs) as Htail.
    pose proof (Hs [] t inner eq_refl) as Hhead. simpl in Hhead.
    rewrite Z.add_0_r in Hhead.
    assert (Hnext : forall level',
              level' = level + (if is_op t "(" then 1
                                else if is_op t ")" then -1 else 0) ->
              loop (S i) (inner ++ rest) level' (Some (keyword, pos))
              = loop (i + length (t :: inner)) rest
                  (level + paren_depth (t :: inner)) (Some (keyword, pos))).
    { intros level' ->. rewrite IH by done. simpl. f_equal; lia. }
    change ((t :: inner) ++ rest) with (t :: inner ++ rest).
    cbn [check_redundant_parenthesis_loop].
    unfold is_indentation in Hhead. unfold is_op in Hnext, Hhead.
    destruct (tokenize.type t) eqn:Hty; simpl in *;
      try (apply Hnext; lia);
      destruct (Hhead eq_refl) as (Hline & Hcomma & Hclose);
      (destruct (Z.ltb_spec start_line (fst (tokenize.end_ t))); [lia|]);
      try (apply Hnext; lia).
    destruct (String.eqb (tokenize.text t) ",") eqn:E1.
    { destruct (Z.eqb_spec level 1); [by destruct Hcomma|].
      apply String.eqb_eq in E1.
      apply Hnext. rewrite E1. simpl. lia. }
    destruct (String.eqb (tokenize.text t) "(") eqn:E2.
    { apply Hnext. lia. }
    destruct (String.eqb (tokenize.text t) ")") eqn:E3.
    { destruct (Z.eqb_spec (level - 1) 0); [destruct Hclose; [done|lia]|].
      apply Hnext. lia. }
    apply Hnext. lia.
Qed.

End parenthesis.

Lemma lookup_after {A} (pre l : list A) k :
  (pre ++ l) !! (length pre + k)%nat = l !! k.
Proof. rewrite lookup_app_r by lia. f_equal. lia. Qed.

Lemma is_op_indentation t s : is_indentation t = true -> is_op t s = false.
Proof.
  unfold is_indentation, is_op. by destruct (tokenize.type t).
Qed.

(** The statement is found and the scan starts at the opening
    parenthesis. *)
Lemma loop_keyword tokens start_line indents kw open rest :
  tokens = indents ++ kw :: open :: rest ->
  Forall (fun t => is_indentation t = true) indents ->
  is_keyword kw = true ->
  is_op open "(" = true ->
  check_redundant_parenthesis_loop tokens start_line 0 tokens 0 None =
  match rest with
  | [] => Raise IndexError
  | after :: _ =>
      if is_op after ")" then Ok []
      else check_redundant_parenthesis_loop tokens start_line
             (S (length indents)) (open :: rest) 0
             (Some (tokenize.text kw, tokenize.start open))
  end.
Proof.
  intros Htok Hind Hkw Hopen.
  rewrite Htok at 2. rewrite loop_skip_indentation by done.
  cbn [check_redundant_parenthesis_loop]. simpl (0 + _)%nat.
  unfold is_keyword in Hkw. apply andb_true_iff in Hkw as [Hname Hset].
  assert (H1 : tokens !! (length indents + 1)%nat = Some open)
    by (rewrite Htok; by rewrite lookup_after).
  assert (H2 : tokens !! (length indents + 2)%nat = head rest)
    by (rewrite Htok, lookup_after; by destruct rest).
  destruct (tokenize.type kw); try discriminate Hname.
  cbn [tokenize.kind_eqb negb orb]. rewrite Hset.
  cbn [negb]. rewrite H1, Hopen. cbn [negb]. rewrite H2.
  by destruct rest.
Qed.

Lemma loop_open tokens start_line i open rest st :
  is_op open "(" = true ->
  check_redundant_parenthesis_loop tokens start_line i (open :: rest) 0
    (Some st) =
  if (start_line <? fst (tokenize.end_ open))%Z then Ok []
  else check_redundant_parenthesis_loop tokens start_line (S i) rest 1
         (Some st).
Proof.
  intros Hopen. apply is_op_text in Hopen as [Hty Htext]. destruct st.
  cbn [check_redundant_parenthesis_loop]. rewrite Hty, Htext. simpl.
  reflexivity.
Qed.

Lemma check_redundant_parenthesis_unfold logical_line tokens :
  tokens <> [] ->
  check_redundant_parenthesis logical_line tokens =
  check_redundant_parenthesis_loop tokens (first_line_of tokens) 0 tokens 0
    None.
Proof. by destruct tokens. Qed.

(** X19.  [check_redundant_parenthesis] returns at most one finding.  It
    returns the A111 finding, at the opening parenthesis, when the first
    token of the line after the indentation is [if], [elif] or [while],
    the next token opens a parenthesis, the tokens up to the parenthesis
    that closes it are not empty and stay on the first line without a
    comma at nesting level 1, and the token after the closing parenthesis
    is the colon.  It returns no finding when, before the outer
    parenthesis is closed, a comma comes at nesting level 1 or a token
    ends on a later line.  The nesting level is the number of parentheses
    open, square brackets and braces not counted.  So [if (x):] gets A111
    and [if (x, y):] gets no finding. *)
Theorem check_redundant_parenthesis_spec :
  forall (logical_line : string) (tokens : list tokenize.token),
    (forall r, check_redundant_parenthesis logical_line tokens = Ok r ->
               (length r <= 1)%nat)
    /\ (forall indents kw open inner close colon rest,
          tokens = indents ++ kw :: open :: inner ++ close :: colon :: rest ->
          Forall (fun t => is_indentation t = true) indents ->
          is_keyword kw = true ->
          is_op open "(" = true ->
          fst (tokenize.end_ open) <= first_line_of tokens ->
          inner <> [] ->
          scans (first_line_of tokens) 1 inner ->
          paren_depth inner = 0 ->
          is_op close ")" = true ->
          fst (tokenize.end_ close) <= first_line_of tokens ->
          is_op colon ":" = true ->
          check_redundant_parenthesis logical_line tokens
          = Ok [(tokenize.start open,
                 "A111 redundant parenthesis for " +:+ tokenize.text kw
                 +:+ " statement")])
    /\ (forall indents kw open inner bad rest,
          tokens = indents ++ kw :: open :: inner ++ bad :: rest ->
          Forall (fun t => is_indentation t = true) indents ->
          is_keyword kw = true ->
          is_op open "(" = true ->
          scans (first_line_of tokens) 1 inner ->
          is_indentation bad = false ->
          first_line_of tokens < fst (tokenize.end_ bad)
          \/ (is_op bad "," = true /\ paren_depth inner = 0) ->
          check_redundant_parenthesis logical_line tokens = Ok [])
    /\ check_redundant_parenthesis "if (x):" if_x_line
       = Ok [((1, 3), "A111 redundant parenthesis for if statement")]
    /\ check_redundant_parenthesis "if (x, y):" if_x_y_line = Ok [].
Proof.
  intros logical_line tokens. split; [|split; [|split; [|split]]].
  - intros r. destruct tokens as [|first rest]; [done|].
    unfold check_redundant_parenthesis. apply loop_at_most_one.
  - intros indents kw open inner close colon rest Htok Hind Hkw Hopen Hline
      Hinner Hscan Hdepth Hclose Hcline Hcolon.
    rewrite check_redundant_parenthesis_unfold
      by (rewrite Htok; by destruct indents).
    set (start_line := first_line_of tokens) in *.
    rewrite (loop_keyword tokens start_line indents kw open
               (inner ++ close :: colon :: rest) Htok Hind Hkw Hopen).
    destruct inner as [|t0 inner]; [done|]. simpl app at 1.
    assert (Ht0 : is_op t0 ")" = false).
    { destruct (is_indentation t0) eqn:Hi; [by apply is_op_indentation|].
      destruct (Hscan [] t0 inner eq_refl Hi) as (_ & _ & H3).
      destruct (is_op t0 ")"); [|done]. by destruct H3. }
    cbv beta iota. rewrite Ht0, loop_open by done.
    destruct (Z.ltb_spec start_line (fst (tokenize.end_ open))); [lia|].
    change (t0 :: inner ++ close :: colon :: rest)
      with ((t0 :: inner) ++ close :: colon :: rest).
    rewrite loop_scan by done. rewrite Hdepth.
    apply is_op_text in Hclose as [Hty Htext].
    cbn [check_redundant_parenthesis_loop]. rewrite Hty, Htext. simpl.
    destruct (Z.ltb_spec start_line (fst (tokenize.end_ close))); [lia|].
    assert (Hnext : forall k, k = (length indents + (2 + (length (t0 :: inner) + 1)))%nat ->
                      tokens !! k = Some colon).
    { intros k ->. rewrite Htok, lookup_after.
      change (kw :: open :: (t0 :: inner) ++ close :: colon :: rest)
        with ([kw; open] ++ ((t0 :: inner) ++ close :: colon :: rest)).
      rewrite (lookup_after [kw; open]), lookup_after. done. }
    erewrite Hnext by (simpl; lia). rewrite Hcolon. done.
  - intros indents kw open inner bad rest Htok Hind Hkw Hopen Hscan Hbad Hwhy.
    rewrite check_redundant_parenthesis_unfold
      by (rewrite Htok; by destruct indents).
    set (start_line := first_line_of tokens) in *.
    rewrite (loop_keyword tokens start_line indents kw open
               (inner ++ bad :: rest) Htok Hind Hkw Hopen).
    destruct (inner ++ bad :: rest) as [|after rest'] eqn:Hrest;
      [by destruct inner|].
    destruct (is_op after ")"); [done|].
    rewrite loop_open by done.
    destruct (Z.ltb_spec start_line (fst (tokenize.end_ open))); [done|].
    rewrite <- Hrest, loop_scan by done.
    cbn [check_redundant_parenthesis_loop].
    unfold is_indentation in Hbad.
    destruct Hwhy as [Hlate|[Hcomma Hdepth]].
    + destruct (Z.ltb_spec start_line (fst (tokenize.end_ bad))); [|lia].
      by destruct (tokenize.type bad).
    + destruct (Z.ltb_spec start_line (fst (tokenize.end_ bad)));
        [by destruct (tokenize.type bad)|].
      apply is_op_text in Hcomma as [Hty Htext].
      rewrite Hty, Htext, Hdepth. done.
  - reflexivity.
  - reflexivity.
Qed.

Lemma scansb_sound start_line ts : forall level,
  scansb start_line level ts = true -> scans start_line level ts.
Proof.
  induction ts as [|t ts IH]; intros level H pre u post Heq Hu.
  - by destruct pre.
  - simpl in H. apply andb_true_iff in H as [Ht Hrest].
    destruct pre as [|t' pre]; simpl in Heq; inversion Heq; subst.
    + rewrite Hu in Ht. simpl in Ht.
      apply andb_true_iff in Ht as [Hline Hno].
      apply Z.leb_le in Hline. simpl. rewrite Z.add_0_r.
      split; [done|].
      destruct (Z.eqb_spec level 1) as [->|]; [|done].
      rewrite andb_true_r in Hno. apply negb_true_iff in Hno.
      apply orb_false_iff in Hno as [-> ->]. done.
    + destruct (IH _ Hrest pre u post eq_refl Hu) as (H1 & H2 & H3).
      simpl. split; [done|]. split; intros Hop.
      * specialize (H2 Hop). lia.
      * specialize (H3 Hop). lia.
Qed.

(** X19 on the lines [if (x):] and [if (x, y):]. *)
Lemma check_redundant_parenthesis_spec_witness :
  check_redundant_parenthesis "if (x):" if_x_line
  = Ok [((1, 3), "A111 redundant parenthesis for if statement")]
  /\ check_redundant_parenthesis "if (x, y):" if_x_y_line = Ok []
  /\ (1 <= 1)%nat.
Proof.
  split; [|split].
  - apply (proj1 (proj2 (check_redundant_parenthesis_spec "if (x):" if_x_line))
             [] (tok tokenize.NAME "if" 0) (tok tokenize.OP "(" 3)
             [tok tokenize.NAME "x" 4] (tok tokenize.OP ")" 5)
             (tok tokenize.OP ":" 6) [tok tokenize.NEWLINE EmptyString 7]);
      first [ reflexivity | done | by apply scansb_sound ].
  - apply (proj1 (proj2 (proj2
             (check_redundant_parenthesis_spec "if (x, y):" if_x_y_line)))
             [] (tok tokenize.NAME "if" 0) (tok tokenize.OP "(" 3)
             [tok tokenize.NAME "x" 4] (tok tokenize.OP "," 5)
             [tok tokenize.NAME "y" 7; tok tokenize.OP ")" 8;
              tok tokenize.OP ":" 9; tok tokenize.NEWLINE EmptyString 10]);
      first [ reflexivity | done | by apply scansb_sound
            | right; split; reflexivity ].
  - apply (proj1 (check_redundant_parenthesis_spec "if (x):" if_x_line)
             [((1, 3), "A111 redundant parenthesis for if statement")]).
    reflexivity.
Defined.

(** C8.  The check counts parentheses only, so a comma between square
    brackets that stand directly inside the outer parentheses stops it as
    the comma of a tuple would, although the comment on that test reads
    "expression is non-empty tuple".  The condition of [if ([a, b]):] and
    of [if (d[1, 2]):] is parenthesized, not empty, on one line, closed
    just before the colon and not a tuple, and the check returns no
    finding for it; for [if ([a]):] and [if (x):] it returns A111, and for
    the tuple of [if (x, y):] none. *)
Theorem check_redundant_parenthesis_bracketed_comma :
  check_redundant_parenthesis "if ([a, b]):" if_list_a_b_line = Ok []
  /\ check_redundant_parenthesis "if (d[1, 2]):" if_subscript_line = Ok []
  /\ check_redundant_parenthesis "if ([a]):" if_list_a_line
     = Ok [((1, 3), "A111 redundant parenthesis for if statement")]
  /\ check_redundant_parenthesis "if (x):" if_x_line
     = Ok [((1, 3), "A111 redundant parenthesis for if statement")]
  /\ check_redundant_parenthesis "if (x, y):" if_x_y_line = Ok [].
Proof. repeat split; reflexivity. Qed.

(** ** Unused expressions *)

Section unused.
Variables (block_required nodes_required docstring can_have_unused_expr : bool).

Lemma unused_expr_emits_exact i n :
  emits (_visit_block_unused_expr docstring can_have_unused_expr i n) tt
    (if unused_at docstring can_have_unused_expr i n
     then [(n, "A203 unused expression")] else []).
Proof.
  unfold _visit_block_unused_expr, unused_at.
  destruct n; try apply emits_ret.
  destruct can_have_unused_expr; simpl; [apply emits_ret|].
  destruct (docstring && (i =? 0)%nat && is_Str n); simpl; [apply emits_ret|].
  destruct n; first [apply emits_ret | apply emits_report].
Qed.

Lemma body_emits_unused i n l :
  exists errs,
    emits (_visit_block_body docstring can_have_unused_expr i n l)
          (next_locals n l) errs
    /\ List.filter (has_code "A203") errs =
       (if unused_at docstring can_have_unused_expr i n
        then [(n, "A203 unused expression")] else []).
Proof.
  pose proof (unused_expr_emits_exact i n) as Hu.
  unfold _visit_block_body, next_locals.
  destruct (leave_node l) as [leave|]; [destruct (dead_code l)|]; simpl.
  - eexists ([] ++ _ ++ []). split.
    + eapply emits_bind; [apply emits_ret|].
      eapply emits_bind; [apply Hu | apply emits_ret].
    + simpl. rewrite app_nil_r.
      by destruct (unused_at docstring can_have_unused_expr i n).
  - eexists (([_] ++ []) ++ _ ++ []). split.
    + eapply emits_bind;
        [eapply emits_bind; [apply emits_report | apply emits_ret]|].
      eapply emits_bind; [apply Hu | apply emits_ret].
    + simpl. rewrite app_nil_r.
      by destruct (unused_at docstring can_have_unused_expr i n).
  - eexists ([] ++ _ ++ []). split.
    + eapply emits_bind; [apply emits_ret|].
      eapply emits_bind; [apply Hu | apply emits_ret].
    + simpl. rewrite app_nil_r.
      by destruct (unused_at docstring can_have_unused_expr i n).
Qed.

Lemma loop_emits_unused nodes : forall i l,
  exists errs,
    emits (_visit_block_loop docstring can_have_unused_expr i nodes l)
          (fold_left (fun l n => next_locals n l) nodes l) errs
    /\ List.filter (has_code "A203") errs =
       unused_expressions docstring can_have_unused_expr i nodes.
Proof.
  induction nodes as [|n rest IH]; intros i l; simpl.
  - exists []. split; [apply emits_ret | done].
  - destruct (body_emits_unused i n l) as (e1 & H1 & F1).
    destruct (IH (S i) (next_locals n l)) as (e2 & H2 & F2).
    exists (e1 ++ e2). split; [by eapply emits_bind|].
    by rewrite List.filter_app, F1, F2.
Qed.

(** X1.  The unused expression findings (A203) of a block are exactly the
    expression statements whose value is neither a call nor a [yield],
    unless the call site allows bare expressions, and except a string as
    the first statement where a docstring is allowed; one finding each, in
    the order of the statements. *)
Theorem visit_block_unused_expressions :
  forall (nodes : list ast.node) (v : TreeVisitor),
    exists errs,
      _visit_block block_required nodes_required docstring
        can_have_unused_expr nodes v = Ok (tt, with_errors v errs)
      /\ List.filter (has_code "A203") errs =
         unused_expressions docstring can_have_unused_expr 0 nodes.
Proof.
  intros nodes v.
  destruct (loop_emits_unused nodes 0 (mkLocals None false None false))
    as (e1 & H1 & F1).
  unfold _visit_block.
  set (l := fold_left _ nodes _) in *.
  destruct (pass_node l) as [p|] eqn:Hp.
  - set (c4 := negb nodes_required || (1 <? length nodes)%nat).
    set (c5 := negb block_required && negb (has_non_pass l)).
    exists (e1 ++ (if c4 then [(p, "A204 redundant pass statement")] else [])
               ++ (if c5 then [(p, "A205 empty block")] else [])).
    split.
    + apply (emits_bind _ _ l tt); [apply H1|]. cbv beta. rewrite Hp.
      fold c4 c5. eapply emits_bind.
      * destruct c4; [apply emits_report | apply emits_ret].
      * destruct c5; [apply emits_report | apply emits_ret].
    + rewrite !List.filter_app, F1. clearbody c4 c5.
      destruct c4, c5; simpl; by rewrite ?app_nil_r.
  - exists (e1 ++ []). split.
    + apply (emits_bind _ _ l tt); [apply H1|]. cbv beta. rewrite Hp.
      apply emits_ret.
    + by rewrite app_nil_r.
Qed.

End unused.

(** ** Redundant else *)

Lemma check_redundant_else_loop_spec handlers bodies :
  Forall2 (fun h b => get_body h = Ok b) handlers bodies ->
  forall leave0,
    _check_redundant_else_loop handlers leave0 =
    Ok (if forallb leaves bodies
        then Some (match last bodies ≫= List.find LEAVE_BLOCK with
                   | Some leave => Some leave
                   | None => leave0
                   end)
        else None).
Proof.
  induction 1 as [|h b hs bs Hb _ IH]; intros leave0; [done|].
  cbn [_check_redundant_else_loop forallb]. rewrite Hb. unfold leaves at 1.
  destruct (List.find LEAVE_BLOCK b) as [child|] eqn:Hfind; [|done].
  rewrite IH. simpl. destruct (forallb leaves bs) eqn:Hall; [|done].
  do 2 f_equal. destruct bs as [|b' bs]; simpl; [by rewrite Hfind|].
  change (last (b :: b' :: bs)) with (last (b' :: bs)).
  destruct (last (b' :: bs)) as [lb|] eqn:Hlast;
    [|by apply last_None in Hlast].
  simpl. assert (Hin : lb ∈ b' :: bs).
  { apply last_Some in Hlast as [l' ->]. set_solver. }
  rewrite forallb_forall in Hall. apply list_elem_of_In in Hin.
  specialize (Hall lb Hin). unfold leaves in Hall.
  by destruct (List.find LEAVE_BLOCK lb).
Qed.

(** X2.  [_check_redundant_else] reports nothing without an [else] block,
    and nothing when the body of some handler has no statement that leaves
    the block.  When the body of every handler has one, it reports one A206
    finding on the first statement of the [else] block, naming the first
    leaving statement of the last handler and the clause.  With an [else]
    block and no handler at all, [leave_node] is unbound and the method
    raises [UnboundLocalError]. *)
Theorem check_redundant_else_spec :
  forall (orelse handlers : list ast.node) (bodies : list (list ast.node))
         (clause : string) (v : TreeVisitor),
    Forall2 (fun h b => get_body h = Ok b) handlers bodies ->
    (orelse = [] ->
     _check_redundant_else orelse handlers clause v = Ok (tt, v))
    /\ (forallb leaves bodies = false ->
        _check_redundant_else orelse handlers clause v = Ok (tt, v))
    /\ (orelse <> [] -> handlers = [] ->
        _check_redundant_else orelse handlers clause v
        = Raise UnboundLocalError)
    /\ (forall first rest body leave,
          orelse = first :: rest ->
          forallb leaves bodies = true ->
          last bodies = Some body ->
          List.find LEAVE_BLOCK body = Some leave ->
          _check_redundant_else orelse handlers clause v
          = Ok (tt, with_errors v
                      [(first, "A206 Extraneous else statement after " +:+
                               get_statement leave +:+ " in " +:+ clause +:+
                               "-clause")])).
Proof.
  intros orelse handlers bodies clause v Hb.
  pose proof (check_redundant_else_loop_spec handlers bodies Hb None) as Hloop.
  split; [|split; [|split]].
  - by intros ->.
  - intros Hall. unfold _check_redundant_else.
    destruct orelse; [done|]. by rewrite Hloop, Hall.
  - intros Hne ->. inversion Hb; subst. by destruct orelse.
  - intros first rest body leave -> Hall Hlast Hfind.
    unfold _check_redundant_else. rewrite Hloop, Hall, Hlast. simpl.
    by rewrite Hfind.
Qed.

(** X2 on [if c: return / else: pass] and on an [else] without handlers. *)
Lemma check_redundant_else_spec_witness :
  _check_redundant_else [ast.Pass (ast.Pos 4 4)]
    [ast.If (ast.Pos 1 0) (ast.Name (ast.Pos 1 3) "c" ast.Load)
       [ast.Return (ast.Pos 2 4) None] [ast.Pass (ast.Pos 4 4)]]
    "if" TreeVisitor_init
  = Ok (tt, with_errors TreeVisitor_init
              [(ast.Pass (ast.Pos 4 4),
                "A206 Extraneous else statement after return in if-clause")])
  /\ _check_redundant_else [ast.Pass (ast.Pos 4 4)] [] "except"
       TreeVisitor_init
     = Raise UnboundLocalError
  /\ _check_redundant_else []
       [ast.If (ast.Pos 1 0) (ast.Name (ast.Pos 1 3) "c" ast.Load)
          [ast.Return (ast.Pos 2 4) None] []]
       "if" TreeVisitor_init
     = Ok (tt, TreeVisitor_init)
  /\ _check_redundant_else [ast.Pass (ast.Pos 4 4)]
       [ast.If (ast.Pos 1 0) (ast.Name (ast.Pos 1 3) "c" ast.Load)
          [ast.Pass (ast.Pos 2 4)] [ast.Pass (ast.Pos 4 4)]]
       "if" TreeVisitor_init
     = Ok (tt, TreeVisitor_init).
Proof.
  pose (ret_ := ast.Return (ast.Pos 2 4) None).
  pose (pass_ := ast.Pass (ast.Pos 4 4)).
  pose (cond := ast.Name (ast.Pos 1 3) "c" ast.Load).
  split; [|split; [|split]].
  - apply (proj2 (proj2 (proj2 (check_redundant_else_spec [pass_]
             [ast.If (ast.Pos 1 0) cond [ret_] [pass_]] [[ret_]] "if"
             TreeVisitor_init ltac:(by repeat constructor))))
             pass_ [] [ret_] ret_); reflexivity.
  - apply (proj1 (proj2 (proj2 (check_redundant_else_spec [pass_] [] []
             "except" TreeVisitor_init ltac:(by constructor)))));
      [discriminate | reflexivity].
  - apply (proj1 (check_redundant_else_spec []
             [ast.If (ast.Pos 1 0) cond [ret_] []] [[ret_]] "if"
             TreeVisitor_init ltac:(by repeat constructor))).
    reflexivity.
  - apply (proj1 (proj2 (check_redundant_else_spec [pass_]
             [ast.If (ast.Pos 1 0) cond [ast.Pass (ast.Pos 2 4)] [pass_]]
             [[ast.Pass (ast.Pos 2 4)]] "if"
             TreeVisitor_init ltac:(by repeat constructor)))).
    reflexivity.
Defined.

(** ** Membership tests *)

Lemma visit_Compare_loop_membership py single ops : forall left comparators v,
  match visit_Compare_loop py single left ops comparators v with
  | Ok (_, v') =>
      exists errs,
        v' = with_errors v errs
        /\ List.filter (has_code "A102") errs =
           map (fun r => (r, "A102 use sets for distinct unordered data"))
               (membership_literals ops comparators)
  | Raise e => True
  end.
Proof.
  induction ops as [|op ops IH]; intros left [|r cs] v; simpl;
    try (exists []; by rewrite with_errors_nil).
  set (a102 := match r with
               | ast.Tuple _ _ _ | ast.List _ _ _ =>
                   if membership op
                   then report r "A102 use sets for distinct unordered data"
                   else ret tt
               | _ => ret tt
               end).
  assert (H102 : emits a102 tt
                   (if membership op && is_Tuple_or_List r
                    then [(r, "A102 use sets for distinct unordered data")]
                    else [])).
  { subst a102. destruct r; rewrite ?andb_false_r; try apply emits_ret;
      destruct (membership op); first [apply emits_ret | apply emits_report]. }
  set (e1 := if membership op && is_Tuple_or_List r
             then [(r, "A102 use sets for distinct unordered data")]
             else []) in *.
  assert (Hf1 : List.filter (has_code "A102") e1 = e1)
    by (subst e1; by destruct (membership op && is_Tuple_or_List r)).
  assert (Hmap : map (fun r => (r, "A102 use sets for distinct unordered data"))
                   (if membership op && is_Tuple_or_List r then [r] else [])
                 = e1)
    by (subst e1; by destruct (membership op && is_Tuple_or_List r)).
  rewrite map_app, Hmap. clearbody e1 a102.
  unfold bind at 1. unfold bind at 1. rewrite H102. unfold is_const_.
  assert (Hrest : forall extra,
            List.filter (has_code "A102") extra = [] ->
            match visit_Compare_loop py single r ops cs
                    (with_errors (with_errors v e1) extra) with
            | Ok (_, v') =>
                exists errs,
                  v' = with_errors v errs
                  /\ List.filter (has_code "A102") errs =
                     e1 ++ map (fun r => (r, "A102 use sets for distinct unordered data"))
                             (membership_literals ops cs)
            | Raise _ => True
            end).
  { intros extra Hex. specialize (IH r cs (with_errors (with_errors v e1) extra)).
    destruct (visit_Compare_loop _ _ _ _ _ _) as [[[] v']|e]; [|done].
    destruct IH as (e2 & -> & Hf2). exists (e1 ++ extra ++ e2).
    rewrite !with_errors_app, !List.filter_app, Hf1, Hex, Hf2. done. }
  destruct (consts_first single op); simpl.
  - unfold bind at 1.
    destruct (is_const py left) as [[|]|e]; simpl; [| |done].
    + unfold bind at 1.
      destruct (is_const py r) as [[|]|e]; simpl; [| |done].
      * specialize (Hrest [] eq_refl). by rewrite with_errors_nil in Hrest.
      * apply (Hrest [(left, "A103 yoda condition")]). reflexivity.
    + specialize (Hrest [] eq_refl). by rewrite with_errors_nil in Hrest.
  - specialize (Hrest [] eq_refl). by rewrite with_errors_nil in Hrest.
Qed.

(** X3.  When the loop of [visit_Compare] returns, its A102 findings are
    exactly the right operands that are a tuple or list literal behind
    [in] or [not in], one each and in order, whatever the operands fold
    to. *)
Theorem visit_Compare_membership :
  forall (py : interpreter) (left : ast.node) (ops : list ast.cmpop)
         (comparators : list ast.node) (v v' : TreeVisitor),
    visit_Compare_loop py (length ops =? 1)%nat left ops comparators v
    = Ok (tt, v') ->
    exists errs,
      v' = with_errors v errs
      /\ List.filter (has_code "A102") errs =
         map (fun r => (r, "A102 use sets for distinct unordered data"))
             (membership_literals ops comparators).
Proof.
  intros py left ops comparators v v' Hrun.
  pose proof (visit_Compare_loop_membership py (length ops =? 1)%nat ops left
                comparators v) as H.
  by rewrite Hrun in H.
Qed.

(** X3 on [x in (1, 2)]. *)
Lemma visit_Compare_membership_witness :
  exists errs,
    with_errors TreeVisitor_init
      [(ast.Tuple (ast.Pos 1 5) [ast.Num (ast.Pos 1 6) 1; ast.Num (ast.Pos 1 9) 2]
          ast.Load, "A102 use sets for distinct unordered data")]
    = with_errors TreeVisitor_init errs
    /\ List.filter (has_code "A102") errs =
       map (fun r => (r, "A102 use sets for distinct unordered data"))
         (membership_literals [ast.In]
            [ast.Tuple (ast.Pos 1 5)
               [ast.Num (ast.Pos 1 6) 1; ast.Num (ast.Pos 1 9) 2] ast.Load]).
Proof.
  apply (visit_Compare_membership sample
           (ast.Name (ast.Pos 1 0) "x" ast.Load) [ast.In]
           [ast.Tuple (ast.Pos 1 5)
              [ast.Num (ast.Pos 1 6) 1; ast.Num (ast.Pos 1 9) 2] ast.Load]
           TreeVisitor_init).
  vm_compute. reflexivity.
Defined.

(** ** Constants *)

Lemma is_special_name_false id :
  is_special_name id = false ->
  id <> "None" /\ id <> "True" /\ id <> "False" /\ id <> "__debug__".
Proof.
  unfold is_special_name. cbn [existsb]. intros H.
  repeat (apply orb_false_iff in H as [?%String.eqb_neq H]). done.
Qed.

(** X4.  Whatever the interpreter and its built-in names, [is_const] holds
    for number, string and [True]/[False]/[None] literals.  Of the names
    that are looked up when the expression is evaluated, that is, every
    name but [None], [True], [False] and [__debug__], it holds for
    [__builtins__] alone: the namespace of [is_const] hides the built-in
    names, so that a name such as [len] or an unbound variable is never a
    constant. *)
Theorem is_const_names_and_literals :
  forall (py : interpreter) (p : ast.position),
    (forall id,
       is_special_name id = false ->
       is_const py (ast.Name p id ast.Load)
       = Ok (bool_decide (id = "__builtins__")))
    /\ (forall z, is_const py (ast.Num p z) = Ok true)
    /\ (forall s, is_const py (ast.Str p s) = Ok true)
    /\ (forall c, is_const py (ast.NameConstant p c) = Ok true).
Proof.
  intros py p. split; [|by repeat split].
  intros id Hid. unfold is_const, evaluate, py_eval. rewrite Hid.
  unfold load_name, const_namespace. cbn [ns_builtins ns_items].
  destruct (String.eqb_spec id "__builtins__") as [->|Hb]; [done|].
  rewrite lookup_empty. cbn [ns_default_factory ns_builtins mbind option_bind].
  apply is_special_name_false in Hid as (HN & HT & HF & _).
  rewrite !lookup_insert_ne, lookup_empty by done.
  cbn [fst is_Exception]. by rewrite bool_decide_eq_false_2.
Qed.

(** X4 on the names [len] and [__builtins__]. *)
Lemma is_const_names_and_literals_witness :
  is_const sample (ast.Name (ast.Pos 1 0) "len" ast.Load)
  = Ok (bool_decide ("len" = "__builtins__"))
  /\ is_const sample (ast.Name (ast.Pos 1 0) "__builtins__" ast.Load)
     = Ok (bool_decide ("__builtins__" = "__builtins__")).
Proof.
  split.
  - apply (proj1 (is_const_names_and_literals sample (ast.Pos 1 0)) "len").
    reflexivity.
  - apply (proj1 (is_const_names_and_literals sample (ast.Pos 1 0))
             "__builtins__").
    reflexivity.
Defined.

(** ** Names as keys *)

Lemma existsb_py_eq_object keys k :
  VObject k ∈ keys -> existsb (fun x => py_eq x (VObject k)) keys = true.
Proof.
  intros Hin. apply existsb_exists. exists (VObject k).
  split; [by apply list_elem_of_In|]. simpl. apply Nat.eqb_refl.
Qed.

Lemma existsb_py_eq_fresh keys next :
  (forall x, x ∈ keys -> exists k, x = VObject k /\ (k < next)%nat) ->
  existsb (fun x => py_eq x (VObject next)) keys = false.
Proof.
  intros Hall. apply not_true_is_false. intros H.
  apply existsb_exists in H as (x & Hin & Heq).
  apply list_elem_of_In in Hin. destruct (Hall x Hin) as (k & -> & Hlt).
  simpl in Heq. apply Nat.eqb_eq in Heq. lia.
Qed.

Lemma visit_hash_keys_loop_names py what l : forall seen keys ns v,
  Forall (fun x => snd x <> "__builtins__"
                   /\ vars_builtins py !! snd x = None) l ->
  names_folded py seen keys ns ->
  _visit_hash_keys_loop py (map name_key l) what keys ns v =
  Ok (tt, with_errors v (map (fun n => (n, "A207 duplicate " +:+ what))
                             (repeated_names seen l))).
Proof.
  induction l as [|[p id] rest IH]; intros seen keys ns v Hall Hinv.
  - simpl. unfold ret. by rewrite with_errors_nil.
  - inversion Hall as [|? ? [Hnb Hfree] Hrest]; subst. simpl in Hnb, Hfree.
    destruct Hinv as (Hfac & Hseen & Hother & Hkeys).
    cbn [map name_key _visit_hash_keys_loop fst snd repeated_names].
    change (name_key (p, id)) with (Some (ast.Name p id ast.Load)).
    assert (Hid : is_special_name id = false).
    { destruct (is_special_name id) eqn:E; [|done].
      destruct (vars_builtins_special py id E) as [x Hx]. congruence. }
    unfold evaluate, py_eval. cbv beta iota. rewrite Hid.
    unfold load_name. cbv zeta.
    apply String.eqb_neq in Hnb. rewrite Hnb.
    set (ns1 := match ns_builtins ns with
                | Some _ => ns
                | None => mkNamespace (ns_items ns) (Some (vars_builtins py))
                            (ns_default_factory ns) (ns_next_object ns)
                end).
    assert (H1 : ns_items ns1 = ns_items ns /\
                 ns_default_factory ns1 = ns_default_factory ns /\
                 ns_next_object ns1 = ns_next_object ns)
      by (subst ns1; by destruct (ns_builtins ns)).
    destruct H1 as (Hi1 & Hf1 & Hn1). rewrite Hi1, Hf1, Hn1.
    destruct (decide (id ∈ seen)) as [Hin|Hnin].
    + rewrite (bool_decide_eq_true_2 _ Hin).
      destruct (Hseen id Hin) as (k & Hlook & Hk). rewrite Hlook.
      rewrite (contains_value_plain py keys (VObject k)),
        (existsb_py_eq_object keys k Hk);
        [|apply Forall_forall; intros x Hx;
          by destruct (Hkeys x Hx) as (k' & -> & _)|done].
      unfold bind, report.
      change (mkTreeVisitor _ _)
        with (with_errors v [(ast.Name p id ast.Load,
                              "A207 duplicate " +:+ what)]).
      rewrite (IH seen keys ns1 _ Hrest).
      * by rewrite with_errors_app.
      * unfold names_folded. by rewrite Hi1, Hf1, Hn1.
    + rewrite (bool_decide_eq_false_2 _ Hnin).
      rewrite (Hother id Hnin), Hfree, Hfac.
      rewrite (contains_value_plain py keys (VObject (ns_next_object ns))),
        (existsb_py_eq_fresh keys (ns_next_object ns) Hkeys);
        [|apply Forall_forall; intros x Hx;
          by destruct (Hkeys x Hx) as (k' & -> & _)|done].
      apply IH; [done|].
      repeat split; simpl.
      * intros id' Hin'. apply elem_of_app in Hin' as [Hin'|Hin'].
        -- destruct (Hseen id' Hin') as (k & Hlook & Hk).
           exists k. split; [|set_solver].
           rewrite lookup_insert_ne; [done|]. by intros ->.
        -- apply list_elem_of_singleton in Hin' as ->.
           exists (ns_next_object ns). rewrite lookup_insert_eq.
           split; [done|set_solver].
      * intros id' Hnin'. rewrite lookup_insert_ne; [|set_solver].
        apply Hother. set_solver.
      * intros x Hx. apply elem_of_app in Hx as [Hx|Hx].
        -- destruct (Hkeys x Hx) as (k & -> & Hlt). exists k. split; [done|lia].
        -- apply list_elem_of_singleton in Hx as ->.
           exists (ns_next_object ns). split; [done|lia].
Qed.

(** X5.  In a dict or set literal whose keys are names that are not
    built-in names, [_visit_hash_keys] reports a duplicate (A207) on
    exactly the names that occurred before in the literal: the
    [defaultdict(object)] namespace gives every unbound name an object of
    its own and gives the same name the same object again, so two
    different names never collide and a repeated name always does. *)
Theorem visit_hash_keys_names :
  forall (py : interpreter) (l : list (ast.position * string))
         (what : string) (v : TreeVisitor),
    Forall (fun x => snd x <> "__builtins__"
                     /\ vars_builtins py !! snd x = None) l ->
    _visit_hash_keys py (map name_key l) what v =
    Ok (tt, with_errors v (map (fun n => (n, "A207 duplicate " +:+ what))
                               (repeated_names [] l))).
Proof.
  intros py l what v Hall. unfold _visit_hash_keys.
  apply visit_hash_keys_loop_names; [done|].
  split; [done|]. split; [intros id Hin; by apply elem_of_nil in Hin|].
  split; [done|]. intros x Hx. by apply elem_of_nil in Hx.
Qed.

(** X5 on the keys of [{x: 1, y: 2, x: 3}]. *)
Lemma visit_hash_keys_names_witness :
  _visit_hash_keys sample
    (map name_key
       [(ast.Pos 1 1, "x"); (ast.Pos 1 7, "y"); (ast.Pos 1 13, "x")])
    "key in dict" TreeVisitor_init
  = Ok (tt, with_errors TreeVisitor_init
              [(ast.Name (ast.Pos 1 13) "x" ast.Load,
                "A207 duplicate key in dict")]).
Proof.
  apply (visit_hash_keys_names sample
           [(ast.Pos 1 1, "x"); (ast.Pos 1 7, "y"); (ast.Pos 1 13, "x")]
           "key in dict" TreeVisitor_init).
  repeat constructor; vm_compute; congruence.
Defined.

(** ** Findings accumulate *)

Lemma grows_ret {A} (a : A) : grows (ret a).
Proof. intros v a' v' H. inversion H. exists []. by rewrite app_nil_r. Qed.

Lemma grows_raise {A} e : grows (@raise A e).
Proof. intros v a' v' H. inversion H. Qed.

Lemma grows_bind {A B} (m : M A) (k : A -> M B) :
  grows m -> (forall a, grows (k a)) -> grows (bind m k).
Proof.
  intros Hm Hk v b v' H. unfold bind in H.
  destruct (m v) as [[a w]|e] eqn:E; [|done].
  destruct (Hm _ _ _ E) as [e1 H1]. destruct (Hk a _ _ _ H) as [e2 H2].
  exists (e1 ++ e2). by rewrite H2, H1, app_assoc.
Qed.

Lemma grows_emits {A} (m : M A) a errs : emits m a errs -> grows m.
Proof. intros He v a' v' H. rewrite He in H. inversion H. by exists errs. Qed.

Lemma grows_report n msg : grows (report n msg).
Proof. eapply grows_emits, emits_report. Qed.

Lemma grows_visit_block b1 b2 b3 b4 nodes :
  grows (_visit_block b1 b2 b3 b4 nodes).
Proof.
  destruct (visit_block_emits b1 b2 b3 b4 nodes) as (errs & He & _).
  by eapply grows_emits.
Qed.

Lemma grows_top_scope : grows top_scope.
Proof.
  intros v a v' H. unfold top_scope in H.
  destruct (last (scope_stack v)); inversion H. exists []. by rewrite app_nil_r.
Qed.

Lemma grows_update_top f : grows (update_top f).
Proof.
  intros v a v' H. unfold update_top in H.
  destruct (last (scope_stack v)); inversion H. exists [].
  by rewrite app_nil_r.
Qed.

Ltac grows_step :=
  first
    [ apply grows_ret | apply grows_raise | apply grows_report
    | apply grows_visit_block | apply grows_top_scope
    | apply grows_update_top
    | assumption
    | apply grows_bind; [|intros ?]
    | match goal with
      | |- grows (match ?x with _ => _ end) => destruct x
      | |- grows (if ?c then _ else _) => destruct c
      end ].

Ltac grows_tac := repeat grows_step.

Lemma grows_visit_stored_name py n name : grows (_visit_stored_name py n name).
Proof. unfold _visit_stored_name. grows_tac. Qed.

Lemma grows_visit_Global n : grows (visit_Global n).
Proof. unfold visit_Global. grows_tac. Qed.

Lemma grows_check_deprecated n name : grows (_check_deprecated n name).
Proof. unfold _check_deprecated. grows_tac. Qed.

Lemma grows_check_redundant_else orelse handlers clause :
  grows (_check_redundant_else orelse handlers clause).
Proof. unfold _check_redundant_else. grows_tac. Qed.

Lemma grows_visit_iter n : grows (_visit_iter n).
Proof. unfold _visit_iter. grows_tac. Qed.

Lemma grows_is_const py n : grows (is_const_ py n).
Proof.
  intros v a v' H. unfold is_const_ in H.
  destruct (is_const py n); inversion H. exists []. by rewrite app_nil_r.
Qed.

Lemma grows_visit_Compare_loop py single ops : forall left comparators,
  grows (visit_Compare_loop py single left ops comparators).
Proof.
  induction ops as [|op ops IH]; intros left [|r cs]; simpl;
    try apply grows_ret.
  pose proof (grows_is_const py). pose proof (IH r cs).
  apply grows_bind; [|intros ?]; [grows_tac|].
  apply grows_bind; [|intros ?]; [|done].
  destruct (consts_first single op); [|apply grows_ret].
  apply grows_bind; [done|intros []]; [|apply grows_ret].
  apply grows_bind; [done|intros []]; grows_tac.
Qed.

Lemma grows_visit_Import py n module names_ :
  grows (visit_Import py n module names_).
Proof.
  induction names_ as [|a rest IH]; simpl; [apply grows_ret|].
  pose proof (grows_visit_stored_name py n (bound_name a)).
  apply grows_bind; [done|intros ?].
  apply grows_bind; [|done].
  destruct module; [apply grows_check_deprecated | apply grows_ret].
Qed.

Lemma grows_visit_hash_keys_loop py what nodes : forall keys ns,
  grows (_visit_hash_keys_loop py nodes what keys ns).
Proof.
  induction nodes as [|n rest IH]; intros keys ns; simpl; [apply grows_ret|].
  destruct (evaluate py n ns) as [[[key|]|e] ns']; [| |apply grows_raise].
  - destruct (contains_value py keys key) as [[|]|e];
      [|apply IH|apply grows_raise].
    apply grows_bind; [|intros ?; apply IH]. grows_tac.
  - apply IH.
Qed.

Lemma grows_redundant_names scope declaration names_ : forall global_names,
  grows (_redundant_names scope declaration names_ global_names).
Proof.
  induction names_ as [|name rest IH]; intros g; simpl; [apply grows_ret|].
  destruct (_ || _); [|apply IH].
  apply grows_bind; [apply grows_report | intros ?; apply IH].
Qed.

Lemma grows_redundant_declarations scope declarations : forall global_names,
  grows (_redundant_declarations scope declarations global_names).
Proof.
  induction declarations as [|d rest IH]; intros g; simpl; [apply grows_ret|].
  destruct (get_names d); [|apply grows_raise].
  apply grows_bind; [apply grows_redundant_names | intros ?; apply IH].
Qed.

Lemma grows_visit_with_scope n gv : grows gv -> grows (_visit_with_scope n gv).
Proof.
  intros Hgv. unfold _visit_with_scope.
  apply grows_bind; [|intros _].
  { intros v a v' H. inversion H. exists []. by rewrite app_nil_r. }
  apply grows_bind; [done|intros _].
  apply grows_bind; [apply grows_top_scope|intros scope].
  apply grows_bind; [|intros _; apply grows_ret].
  intros v a v' H. inversion H. exists []. by rewrite app_nil_r.
Qed.

Lemma grows_visit_method py n gv : grows gv -> grows (visit_method py n gv).
Proof.
  intros Hgv.
  pose proof (grows_visit_stored_name py) as K1.
  pose proof grows_visit_Global as K2.
  pose proof grows_check_deprecated as K3.
  pose proof grows_check_redundant_else as K4.
  pose proof grows_visit_iter as K5.
  pose proof (grows_visit_Compare_loop py) as K6.
  pose proof (grows_visit_Import py) as K7.
  pose proof (grows_visit_hash_keys_loop py) as K8.
  pose proof grows_redundant_declarations as K9.
  pose proof (grows_visit_with_scope n gv Hgv) as K10.
  destruct n; simpl in *; try exact Hgv;
    unfold visit_Module, visit_FunctionDef, visit_If, visit_Try,
      visit_TryExcept, visit_TryFinally, visit_ExceptHandler, visit_Name,
      visit_arg, visit_comprehension, visit_For, visit_While, visit_BinOp,
      visit_Compare, visit_Call, visit_Assign, visit_Dict, visit_Set,
      _visit_hash_keys;
    repeat lazymatch goal with
           | |- grows (_visit_with_scope _ _) => exact K10
           | |- grows (_visit_block _ _ _ _ _) => apply grows_visit_block
           | |- grows (bind _ _) => apply grows_bind; [|intros ?]
           | |- grows gv => exact Hgv
           | |- _ => solve [grows_tac; auto]
           end.
Qed.

Lemma grows_traverse {A} (f : A -> M unit) l :
  (forall x, x ∈ l -> grows (f x)) -> grows (traverse f l).
Proof.
  induction l as [|x l IH]; intros Hf; simpl; [apply grows_ret|].
  apply grows_bind; [apply Hf; set_solver | intros _; apply IH].
  intros y Hy. apply Hf. set_solver.
Qed.

Lemma list_all_elem (P : ast.node -> Prop) l :
  list_all ast.node P l -> forall x, x ∈ l -> P x.
Proof.
  induction 1 as [|a Ha l _ IH]; intros x Hx; [by apply elem_of_nil in Hx|].
  apply elem_of_cons in Hx as [->|Hx]; auto.
Qed.

Lemma grows_visit py n : grows (visit py n).
Proof.
  induction n using ast.node_ind;
    rewrite visit_unfold; apply grows_visit_method;
    cbn [generic_visit];
    repeat lazymatch goal with
           | |- grows (ret _) => apply grows_ret
           | |- grows (bind _ _) => apply grows_bind; [|intros _]
           | H : list_all (option ast.node) _ ?l
             |- grows (traverse (traverse_option _) ?l) =>
               clear -H; induction H as [|o Ho l _ IH]; simpl;
               [apply grows_ret
               |apply grows_bind;
                 [destruct Ho; simpl; [assumption | apply grows_ret]
                 |intros _; exact IH]]
           | H : list_all ast.node _ ?l |- grows (traverse _ ?l) =>
               apply grows_traverse; exact (list_all_elem _ _ H)
           | H : option_all ast.node _ ?o |- grows (traverse_option _ ?o) =>
               clear -H; destruct H; simpl; [assumption | apply grows_ret]
           | H : grows (visit py ?c) |- grows (visit py ?c) => exact H
           end.
Qed.

(** X6.  A traversal never removes or changes a finding: when [visit]
    returns, the errors of the visitor are the errors it started with
    followed by the findings of the traversal. *)
Theorem visit_findings_accumulate :
  forall (py : interpreter) (tree : ast.node) (v v' : TreeVisitor),
    visit py tree v = Ok (tt, v') ->
    exists errs, errors v' = errors v ++ errs.
Proof. intros py tree v v' H. by eapply grows_visit. Qed.

(** X6 on the module with a function and two global declarations. *)
Lemma visit_findings_accumulate_witness :
  exists errs,
    [(ast.Pass (ast.Pos 9 9), "earlier finding");
     (ast.Global (ast.Pos 4 0) ["z"], "A201 global declaration on top-level")]
    = [(ast.Pass (ast.Pos 9 9), "earlier finding")] ++ errs.
Proof.
  apply (visit_findings_accumulate sample
           (ast.Module [ast.Global (ast.Pos 4 0) ["z"]])
           (mkTreeVisitor [(ast.Pass (ast.Pos 9 9), "earlier finding")] [])
           (mkTreeVisitor
              [(ast.Pass (ast.Pos 9 9), "earlier finding");
               (ast.Global (ast.Pos 4 0) ["z"],
                "A201 global declaration on top-level")] [])).
  vm_compute. reflexivity.
Defined.

(** ** Redundant declarations *)

Lemma redundant_names_spec scope d names_ : forall g earlier,
  (forall x, x ∈ g <-> x ∈ earlier /\ x ∈ names scope) ->
  exists g',
    emits (_redundant_names scope d names_ g) g'
      (redundant (names scope) earlier (map (pair d) names_))
    /\ (forall x, x ∈ g' <-> x ∈ earlier ++ names_ /\ x ∈ names scope).
Proof.
  induction names_ as [|name rest IH]; intros g earlier Hinv.
  - exists g. split; [apply emits_ret|]. by rewrite app_nil_r.
  - cbn [_redundant_names map redundant].
    assert (Htest : negb (bool_decide (name ∈ names scope))
                    || bool_decide (name ∈ g)
                    = bool_decide (name ∉ names scope)
                      || bool_decide (name ∈ earlier)).
    { destruct (decide (name ∈ names scope)) as [Hb|Hb].
      - rewrite (bool_decide_eq_true_2 _ Hb).
        rewrite (bool_decide_eq_false_2 (name ∉ names scope)) by tauto.
        simpl. apply bool_decide_ext. rewrite Hinv. tauto.
      - rewrite (bool_decide_eq_false_2 _ Hb).
        by rewrite (bool_decide_eq_true_2 (name ∉ names scope)). }
    rewrite Htest.
    destruct (bool_decide (name ∉ names scope) || bool_decide (name ∈ earlier))
      eqn:Hflag.
    + destruct (IH g (earlier ++ [name])) as (g' & He & Hg').
      { intros x. rewrite Hinv, elem_of_app, list_elem_of_singleton.
        split; [tauto|]. intros [[Hx| ->] Hb]; [tauto|].
        apply orb_true_iff in Hflag as [Hf|Hf];
          apply bool_decide_eq_true in Hf; tauto. }
      exists g'. split.
      * eapply emits_bind; [apply emits_report | apply He].
      * intros x. rewrite Hg', <- app_assoc. done.
    + destruct (IH ({[name]} ∪ g) (earlier ++ [name])) as (g' & He & Hg').
      { intros x. rewrite elem_of_union, elem_of_singleton, Hinv, elem_of_app,
          list_elem_of_singleton.
        apply orb_false_iff in Hflag as [Hf _].
        apply bool_decide_eq_false in Hf.
        split; [intros [->|[??]]; [|tauto] | intros [[?| ->] ?]; tauto].
        split; [tauto|]. by destruct (decide (name ∈ names scope)). }
      exists g'. split; [apply He|].
      intros x. rewrite Hg', <- app_assoc. done.
Qed.

Lemma redundant_app bound l1 : forall earlier l2,
  redundant bound earlier (l1 ++ l2) =
  redundant bound earlier l1 ++ redundant bound (earlier ++ map snd l1) l2.
Proof.
  induction l1 as [|[d name] l1 IH]; intros earlier l2; simpl.
  - by rewrite app_nil_r.
  - rewrite IH, <- !app_assoc. done.
Qed.

Lemma redundant_declarations_spec scope declarations : forall g earlier,
  Forall (fun d => exists names_, get_names d = Ok names_) declarations ->
  (forall x, x ∈ g <-> x ∈ earlier /\ x ∈ names scope) ->
  emits (_redundant_declarations scope declarations g) tt
    (redundant (names scope) earlier (declared declarations)).
Proof.
  induction declarations as [|d rest IH]; intros g earlier Hall Hinv.
  - apply emits_ret.
  - inversion Hall as [|? ? [names_ Hd] Hrest]; subst.
    cbn [_redundant_declarations]. unfold declared. cbn [flat_map].
    rewrite Hd. fold (declared rest). rewrite redundant_app.
    destruct (redundant_names_spec scope d names_ g earlier Hinv)
      as (g' & He & Hg').
    eapply emits_bind; [apply He|]. apply IH; [done|].
    intros x. rewrite Hg'.
    replace (map snd (map (pair d) names_)) with names_; [done|].
    rewrite map_map. simpl. by rewrite map_id.
Qed.

(** X7.  After the body of a function or class, the loop over the [global]
    and [nonlocal] declarations of its scope reports one A201 finding for
    every declared name that is not bound in the scope, and for every
    declared name that was already declared in the scope, on the
    declaration that holds it; a name that is bound in the scope gets no
    finding at its first declaration. *)
Theorem redundant_declarations_findings :
  forall (scope : Scope) (declarations : list ast.node) (v : TreeVisitor),
    Forall (fun d => exists names_, get_names d = Ok names_) declarations ->
    _redundant_declarations scope declarations ∅ v
    = Ok (tt, with_errors v
                (redundant (names scope) [] (declared declarations))).
Proof.
  intros scope declarations v Hall.
  apply redundant_declarations_spec; [done|].
  intros x. rewrite elem_of_empty, elem_of_nil. tauto.
Qed.

(** X7 on [global a, b] and [global a] in a scope that binds [a]. *)
Lemma redundant_declarations_findings_witness :
  _redundant_declarations (mkScope (ast.Pass (ast.Pos 1 0)) {["a"]} [])
    [ast.Global (ast.Pos 2 4) ["a"; "b"]; ast.Global (ast.Pos 3 4) ["a"]]
    ∅ TreeVisitor_init
  = Ok (tt, with_errors TreeVisitor_init
              [(ast.Global (ast.Pos 2 4) ["a"; "b"],
                "A201 redundant global declaration for b");
               (ast.Global (ast.Pos 3 4) ["a"],
                "A201 redundant global declaration for a")]).
Proof.
  etransitivity; [|vm_compute; reflexivity].
  exact (redundant_declarations_findings
           (mkScope (ast.Pass (ast.Pos 1 0)) {["a"]} [])
           [ast.Global (ast.Pos 2 4) ["a"; "b"]; ast.Global (ast.Pos 3 4) ["a"]]
           TreeVisitor_init
           ltac:(repeat constructor; eexists; reflexivity)).
Defined.

(** ** The pattern for string tokens *)

Lemma span_spec p s : forall a b,
  span p s = (a, b) -> s = a +:+ b /\ all_chars p a = true.
Proof.
  induction s as [|c s IH]; intros a b H; simpl in H.
  - by inversion H.
  - destruct (p c) eqn:Hc.
    + destruct (span p s) as [a' b'] eqn:Hs. inversion H; subst.
      destruct (IH a' b eq_refl) as [-> Hall]. simpl. by rewrite Hc.
    + by inversion H.
Qed.

Lemma take_chars_spec k : forall s a b,
  take_chars k s = Some (a, b) -> s = a +:+ b /\ String.length a = k.
Proof.
  induction k as [|k IH]; intros s a b H; simpl in H.
  - by inversion H.
  - destruct s as [|c s]; [done|].
    destruct (take_chars k s) as [[a' b']|] eqn:Hs; [|done].
    simpl in H. inversion H; subst.
    destruct (IH s a' b Hs) as [-> <-]. by split.
Qed.

Lemma strip_suffix_unfold suffix s :
  strip_suffix suffix s =
  if String.eqb s suffix then Some EmptyString
  else match s with
       | String c r => String c <$> strip_suffix suffix r
       | EmptyString => None
       end.
Proof. by destruct s. Qed.

Lemma strip_suffix_spec suffix s : forall text,
  strip_suffix suffix s = Some text -> s = text +:+ suffix.
Proof.
  induction s as [|c s IH]; intros text H; rewrite strip_suffix_unfold in H;
    match type of H with
    | context [String.eqb ?x ?y] =>
        destruct (String.eqb_spec x y) as [<-|]
    end; try (by inversion H); try done.
  destruct (strip_suffix suffix s) as [t|] eqn:Hs; [|done].
  simpl in H. inversion H; subst. simpl. by rewrite (IH t eq_refl).
Qed.

Lemma match_quoted_spec k s quote text :
  match_quoted k s = Some (quote, text) ->
  all_chars is_quote_char quote = true
  /\ String.length quote = k
  /\ (s = quote +:+ text +:+ quote
      \/ s = quote +:+ text +:+ quote +:+ String NEWLINE_CHAR EmptyString).
Proof.
  unfold match_quoted. intros H.
  destruct (take_chars k s) as [[q r]|] eqn:Ht; [|discriminate H].
  destruct (take_chars_spec _ _ _ _ Ht) as [-> Hlen].
  destruct (all_chars is_quote_char q) eqn:Hq; [|discriminate H].
  destruct (strip_suffix q r) as [t|] eqn:H1.
  - inversion H; subst. apply strip_suffix_spec in H1 as ->. auto.
  - destruct (strip_suffix (q +:+ String NEWLINE_CHAR EmptyString) r)
      as [t|] eqn:H2; [|discriminate H].
    simpl in H. inversion H; subst. apply strip_suffix_spec in H2 as ->. auto.
Qed.

(** X8.  When the pattern of [check_quotes] matches a string token, its
    three groups put the token together again: the token is the prefix,
    the quote, the text and the same quote (a newline may follow), the
    prefix holds only the letters r, u, b in either case, and the quote is
    one to three quote characters.  So the literal that [check_quotes]
    evaluates, [prefix + quote + text + quote], is the token with at most
    its prefix changed. *)
Theorem match_string_token_groups :
  forall (token prefixes quote text : string),
    match_string_token token = Some (prefixes, quote, text) ->
    all_chars is_prefix_char prefixes = true
    /\ all_chars is_quote_char quote = true
    /\ (1 <= String.length quote <= 3)%nat
    /\ (token = prefixes +:+ quote +:+ text +:+ quote
        \/ token = prefixes +:+ quote +:+ text +:+ quote
                   +:+ String NEWLINE_CHAR EmptyString).
Proof.
  intros token prefixes quote text H. unfold match_string_token in H.
  destruct (span is_prefix_char token) as [p s] eqn:Hspan.
  destruct (span_spec _ _ _ _ Hspan) as [-> Hp].
  assert (Hcase : exists k, (1 <= k <= 3)%nat
                            /\ match_quoted k s = Some (quote, text)
                            /\ p = prefixes).
  { destruct (match_quoted 3 s) as [[q t]|] eqn:H3.
    { inversion H; subst. exists 3%nat. auto with lia. }
    destruct (match_quoted 2 s) as [[q t]|] eqn:H2.
    { inversion H; subst. exists 2%nat. auto with lia. }
    destruct (match_quoted 1 s) as [[q t]|] eqn:H1; [|done].
    simpl in H. inversion H; subst. exists 1%nat. auto with lia. }
  destruct Hcase as (k & Hk & Hm & ->).
  destruct (match_quoted_spec _ _ _ _ Hm) as (Hq & Hlen & Hs).
  repeat split; try done; try lia.
  destruct Hs as [-> | ->]; auto.
Qed.

(** X8 on the token [u'abc']. *)
Lemma match_string_token_groups_witness :
  all_chars is_prefix_char "u" = true
  /\ all_chars is_quote_char "'" = true
  /\ (1 <= String.length "'" <= 3)%nat
  /\ ("u'abc'" = "u" +:+ "'" +:+ "abc" +:+ "'"
      \/ "u'abc'" = "u" +:+ "'" +:+ "abc" +:+ "'"
                    +:+ String NEWLINE_CHAR EmptyString).
Proof.
  apply (match_string_token_groups "u'abc'" "u" "'" "abc"). reflexivity.
Defined.

(** ** Indentation tokens and string tokens in the quote check *)

Lemma check_quotes_loop_filter py prev state tokens : forall first_token,
  check_quotes_loop py prev state tokens first_token
  = check_quotes_loop py prev state
      (List.filter (fun t => negb (is_indentation t)) tokens) first_token.
Proof.
  induction tokens as [|t rest IH]; intros first_token; [done|].
  cbn [List.filter]. unfold is_indentation at 1.
  destruct (tokenize.type t) eqn:Hty; cbn [negb];
    cbn [check_quotes_loop]; rewrite Hty; rewrite <- ?IH; reflexivity.
Qed.

(** X9.  The loop of [check_quotes] passes over INDENT and DEDENT tokens
    without a finding and without clearing [first_token]: it yields what
    it yields on the tokens without them.  So a string that follows only
    indentation tokens is still the first token of its line, and is taken
    for a docstring after a [def] or [class] line. *)
Theorem check_quotes_ignores_indentation :
  forall (py : interpreter) (previous_logical : string)
         (checker_state : gmap string bool) (tokens : list tokenize.token)
         (first_token : bool),
    check_quotes_loop py previous_logical checker_state tokens first_token
    = check_quotes_loop py previous_logical checker_state
        (List.filter (fun t => negb (is_indentation t)) tokens) first_token
    /\ (forall indents rest,
          Forall (fun t => is_indentation t = true) indents ->
          check_quotes_loop py previous_logical checker_state
            (indents ++ rest) first_token
          = check_quotes_loop py previous_logical checker_state rest
              first_token).
Proof.
  intros py prev state tokens first_token. split.
  - apply check_quotes_loop_filter.
  - intros indents rest Hall.
    induction Hall as [|t indents Ht _ IH]; [done|].
    change ((t :: indents) ++ rest) with (t :: indents ++ rest).
    cbn [check_quotes_loop]. unfold is_indentation in Ht.
    by destruct (tokenize.type t).
Qed.

(** X9 on an indented docstring. *)
Lemma check_quotes_ignores_indentation_witness :
  check_quotes_loop sample "def f():" ∅
    ([tokenize.mkToken tokenize.INDENT "    " (2, 0) (2, 4) EmptyString]
     ++ [tokenize.mkToken tokenize.STRING "'doc'" (2, 4) (2, 9) EmptyString])
    true
  = check_quotes_loop sample "def f():" ∅
      [tokenize.mkToken tokenize.STRING "'doc'" (2, 4) (2, 9) EmptyString]
      true.
Proof.
  apply (proj2 (check_quotes_ignores_indentation sample "def f():" ∅ [] true)
           [tokenize.mkToken tokenize.INDENT "    " (2, 0) (2, 4) EmptyString]
           [tokenize.mkToken tokenize.STRING "'doc'" (2, 4) (2, 9)
              EmptyString]).
  repeat constructor.
Defined.

Lemma check_quotes_style_positions py prev state first_token t prefixes quote
    text found :
  check_quotes_style py prev state first_token t prefixes quote text
    = Ok found ->
  Forall (fun f => fst f = tokenize.start t
                   /\ String.prefix "A110" (snd f) = true) found.
Proof.
  unfold check_quotes_style. intros H.
  repeat match type of H with
         | (if ?c then _ else _) = _ => destruct c
         | (let _ := _ in _) = _ => cbv zeta in H
         | match ?x with _ => _ end = _ => destruct x
         end;
    inversion H; subst; repeat constructor.
Qed.

Lemma check_quotes_loop_positions py prev state tokens : forall first_token,
  Forall (fun f => (exists t, t ∈ tokens
                              /\ tokenize.type t = tokenize.STRING
                              /\ fst f = tokenize.start t)
                   /\ (String.prefix "A110" (snd f) = true
                       \/ snd f = A112_message))
    (fst (check_quotes_loop py prev state tokens first_token)).
Proof.
  induction tokens as [|t rest IH]; intros first_token; [constructor|].
  assert (Hrest : forall ft,
    Forall (fun f => (exists t0, t0 ∈ t :: rest
                                 /\ tokenize.type t0 = tokenize.STRING
                                 /\ fst f = tokenize.start t0)
                     /\ (String.prefix "A110" (snd f) = true
                         \/ snd f = A112_message))
      (fst (check_quotes_loop py prev state rest ft))).
  { intros ft. eapply Forall_impl; [apply IH|].
    intros f [(t0 & Hin & Hty & Hpos) Hmsg]. split; [|done].
    exists t0. split; [apply elem_of_cons; by right|done]. }
  cbn [check_quotes_loop].
  destruct (tokenize.type t) eqn:Hty; try apply Hrest.
  destruct (match_string_token (tokenize.text t)) as [[[prefixes quote] text]|];
    [|constructor].
  unfold yield_then. cbn [fst]. apply Forall_app. split.
  - destruct (contains "u" (lower prefixes)); [|constructor].
    constructor; [|constructor]. split; [|by right].
    exists t. split; [apply elem_of_cons; by left|done].
  - destruct (check_quotes_style py prev state first_token t (lower prefixes)
                quote text) as [found|e] eqn:Hstyle; [|constructor].
    cbn [fst]. apply Forall_app. split; [|apply Hrest].
    eapply Forall_impl; [exact (check_quotes_style_positions _ _ _ _ _ _ _ _ _ Hstyle)|].
    intros f [Hpos Hmsg]. split; [|by left].
    exists t. split; [apply elem_of_cons; by left|done].
Qed.

Lemma check_quotes_loop_no_strings py prev state tokens first_token :
  Forall (fun t => tokenize.type t <> tokenize.STRING) tokens ->
  check_quotes_loop py prev state tokens first_token = ([], None).
Proof.
  intros Hall. revert first_token.
  induction Hall as [|t rest Ht _ IH]; intros first_token; [done|].
  cbn [check_quotes_loop].
  destruct (tokenize.type t) eqn:Hty; try apply IH. by destruct Ht.
Qed.

(** X10.  Every finding of [check_quotes] is at the start of a STRING
    token of the line, and is an A110 finding or the A112 finding; a line
    without a STRING token yields nothing and ends without an exception. *)
Theorem check_quotes_findings_at_strings :
  forall (py : interpreter) (logical_line : string)
         (tokens : list tokenize.token) (previous_logical : string)
         (checker_state : gmap string bool),
    Forall (fun f => (exists t, t ∈ tokens
                                /\ tokenize.type t = tokenize.STRING
                                /\ fst f = tokenize.start t)
                     /\ (String.prefix "A110" (snd f) = true
                         \/ snd f = A112_message))
      (fst (fst (check_quotes py logical_line tokens previous_logical
                   checker_state)))
    /\ (Forall (fun t => tokenize.type t <> tokenize.STRING) tokens ->
        fst (check_quotes py logical_line tokens previous_logical
               checker_state) = ([], None)).
Proof.
  intros py logical_line tokens prev state. split.
  - unfold check_quotes. cbn [fst]. apply check_quotes_loop_positions.
  - intros Hall. unfold check_quotes. cbn [fst].
    by apply check_quotes_loop_no_strings.
Qed.

(** X10 on the line [x = 1]. *)
Lemma check_quotes_findings_at_strings_witness :
  fst (check_quotes sample "x = 1"
         [tok tokenize.NAME "x" 0; tok tokenize.OP "=" 2;
          tok tokenize.NUMBER "1" 4] EmptyString ∅) = ([], None).
Proof.
  apply (proj2 (check_quotes_findings_at_strings sample "x = 1"
                  [tok tokenize.NAME "x" 0; tok tokenize.OP "=" 2;
                   tok tokenize.NUMBER "1" 4] EmptyString ∅)).
  repeat constructor; discriminate.
Defined.

(** ** Lines the parenthesis check passes over, and lines it fails on *)

Lemma loop_first_token tokens start_line indents t rest :
  tokens = indents ++ t :: rest ->
  Forall (fun t => is_indentation t = true) indents ->
  is_indentation t = false ->
  check_redundant_parenthesis_loop tokens start_line 0 tokens 0 None =
  if negb (is_keyword t) then Ok []
  else match rest with
       | [] => Raise IndexError
       | next_token :: rest' =>
           if negb (is_op next_token "(") then Ok []
           else match rest' with
                | [] => Raise IndexError
                | after :: _ =>
                    if is_op after ")" then Ok []
                    else check_redundant_parenthesis_loop tokens start_line
                           (S (length indents)) rest 0
                           (Some (tokenize.text t, tokenize.start next_token))
                end
       end.
Proof.
  intros Htok Hind Ht.
  rewrite Htok at 2. rewrite loop_skip_indentation by done.
  cbn [check_redundant_parenthesis_loop]. simpl (0 + _)%nat.
  assert (H1 : tokens !! (length indents + 1)%nat = head rest)
    by (rewrite Htok, lookup_after; by destruct rest).
  assert (H2 : tokens !! (length indents + 2)%nat = head (tail rest))
    by (rewrite Htok, lookup_after; by destruct rest as [|? [|? ?]]).
  unfold is_indentation in Ht. unfold is_keyword.
  rewrite H1, H2. rewrite negb_andb.
  destruct (tokenize.type t); try discriminate Ht; cbn [tokenize.kind_eqb negb orb];
    try reflexivity;
    destruct (negb (existsb (String.eqb (tokenize.text t)) ["if"; "elif"; "while"]));
    try reflexivity;
    destruct rest as [|next_token [|after rest']]; cbn [head tail];
    try reflexivity;
    destruct (negb (is_op next_token "(")); reflexivity.
Qed.

(** X11.  [check_redundant_parenthesis] returns no finding for a line
    whose first token after the indentation is not the name [if], [elif]
    or [while]; for such a keyword followed by a token other than an
    opening parenthesis; and for the keyword, an opening parenthesis and
    a closing parenthesis right after it, the empty tuple. *)
Theorem check_redundant_parenthesis_passes :
  forall (logical_line : string) (indents : list tokenize.token)
         (t : tokenize.token) (rest : list tokenize.token),
    Forall (fun t => is_indentation t = true) indents ->
    is_indentation t = false ->
    (is_keyword t = false ->
     check_redundant_parenthesis logical_line (indents ++ t :: rest) = Ok [])
    /\ (forall next_token rest',
          rest = next_token :: rest' ->
          is_op next_token "(" = false ->
          check_redundant_parenthesis logical_line (indents ++ t :: rest)
          = Ok [])
    /\ (forall open close rest',
          rest = open :: close :: rest' ->
          is_op close ")" = true ->
          check_redundant_parenthesis logical_line (indents ++ t :: rest)
          = Ok []).
Proof.
  intros logical_line indents t rest Hind Ht.
  assert (Hloop := fun start_line =>
            loop_first_token (indents ++ t :: rest) start_line indents t rest
              eq_refl Hind Ht).
  assert (Hne : indents ++ t :: rest <> []) by (by destruct indents).
  rewrite check_redundant_parenthesis_unfold by done.
  rewrite Hloop. split; [|split].
  - by intros ->.
  - intros next_token rest' -> Hopen. rewrite Hopen.
    by destruct (negb (is_keyword t)).
  - intros open close rest' -> Hclose. rewrite Hclose.
    destruct (negb (is_keyword t)); [done|].
    by destruct (negb (is_op open "(")).
Qed.

(** X11 on the lines [x = 1], [if x:] and [if ():]. *)
Lemma check_redundant_parenthesis_passes_witness :
  check_redundant_parenthesis "x = 1"
    ([] ++ tok tokenize.NAME "x" 0
        :: [tok tokenize.OP "=" 2; tok tokenize.NUMBER "1" 4]) = Ok []
  /\ check_redundant_parenthesis "if x:"
       ([] ++ tok tokenize.NAME "if" 0
           :: [tok tokenize.NAME "x" 3; tok tokenize.OP ":" 4]) = Ok []
  /\ check_redundant_parenthesis "if ():"
       ([] ++ tok tokenize.NAME "if" 0
           :: [tok tokenize.OP "(" 3; tok tokenize.OP ")" 4;
               tok tokenize.OP ":" 5]) = Ok [].
Proof.
  split; [|split].
  - apply (proj1 (check_redundant_parenthesis_passes "x = 1" []
                    (tok tokenize.NAME "x" 0)
                    [tok tokenize.OP "=" 2; tok tokenize.NUMBER "1" 4]
                    ltac:(constructor) eq_refl)).
    reflexivity.
  - apply (proj1 (proj2 (check_redundant_parenthesis_passes "if x:" []
                    (tok tokenize.NAME "if" 0)
                    [tok tokenize.NAME "x" 3; tok tokenize.OP ":" 4]
                    ltac:(constructor) eq_refl))
             (tok tokenize.NAME "x" 3) [tok tokenize.OP ":" 4]);
      reflexivity.
  - apply (proj2 (proj2 (check_redundant_parenthesis_passes "if ():" []
                    (tok tokenize.NAME "if" 0)
                    [tok tokenize.OP "(" 3; tok tokenize.OP ")" 4;
                     tok tokenize.OP ":" 5]
                    ltac:(constructor) eq_refl))
             (tok tokenize.OP "(" 3) (tok tokenize.OP ")" 4)
             [tok tokenize.OP ":" 5]);
      reflexivity.
Defined.

(** X12.  [check_redundant_parenthesis] indexes the token list without a
    bounds check: it raises [IndexError] on an empty token list, when the
    keyword [if], [elif] or [while] is the last token, when the opening
    parenthesis after the keyword is the last token, and when the
    parenthesis that closes the outer one is the last token. *)
Theorem check_redundant_parenthesis_IndexError :
  forall (logical_line : string),
    check_redundant_parenthesis logical_line [] = Raise IndexError
    /\ (forall indents kw,
          Forall (fun t => is_indentation t = true) indents ->
          is_keyword kw = true ->
          check_redundant_parenthesis logical_line (indents ++ [kw])
          = Raise IndexError)
    /\ (forall indents kw open,
          Forall (fun t => is_indentation t = true) indents ->
          is_keyword kw = true ->
          is_op open "(" = true ->
          check_redundant_parenthesis logical_line (indents ++ [kw; open])
          = Raise IndexError)
    /\ (forall tokens indents kw open inner close,
          tokens = indents ++ kw :: open :: inner ++ [close] ->
          Forall (fun t => is_indentation t = true) indents ->
          is_keyword kw = true ->
          is_op open "(" = true ->
          fst (tokenize.end_ open) <= first_line_of tokens ->
          inner <> [] ->
          scans (first_line_of tokens) 1 inner ->
          paren_depth inner = 0 ->
          is_op close ")" = true ->
          fst (tokenize.end_ close) <= first_line_of tokens ->
          check_redundant_parenthesis logical_line tokens
          = Raise IndexError).
Proof.
  intros logical_line. split; [done|]. split; [|split].
  - intros indents kw Hind Hkw.
    rewrite check_redundant_parenthesis_unfold by (by destruct indents).
    assert (Hi : is_indentation kw = false).
    { unfold is_keyword in Hkw. unfold is_indentation.
      by destruct (tokenize.type kw). }
    rewrite (loop_first_token _ _ indents kw [] eq_refl Hind Hi).
    by rewrite Hkw.
  - intros indents kw open Hind Hkw Hopen.
    rewrite check_redundant_parenthesis_unfold by (by destruct indents).
    assert (Hi : is_indentation kw = false).
    { unfold is_keyword in Hkw. unfold is_indentation.
      by destruct (tokenize.type kw). }
    rewrite (loop_first_token _ _ indents kw [open] eq_refl Hind Hi).
    by rewrite Hkw, Hopen.
  - intros tokens indents kw open inner close Htok Hind Hkw Hopen Hline
      Hinner Hscan Hdepth Hclose Hcline.
    rewrite check_redundant_parenthesis_unfold
      by (rewrite Htok; by destruct indents).
    set (start_line := first_line_of tokens) in *.
    rewrite (loop_keyword tokens start_line indents kw open
               (inner ++ [close]) Htok Hind Hkw Hopen).
    destruct inner as [|t0 inner]; [done|]. simpl app at 1.
    assert (Ht0 : is_op t0 ")" = false).
    { destruct (is_indentation t0) eqn:Hi; [by apply is_op_indentation|].
      destruct (Hscan [] t0 inner eq_refl Hi) as (_ & _ & H3).
      destruct (is_op t0 ")"); [|done]. by destruct H3. }
    cbv beta iota. rewrite Ht0, loop_open by done.
    destruct (Z.ltb_spec start_line (fst (tokenize.end_ open))); [lia|].
    change (t0 :: inner ++ [close]) with ((t0 :: inner) ++ [close]).
    rewrite loop_scan by done. rewrite Hdepth.
    apply is_op_text in Hclose as [Hty Htext].
    cbn [check_redundant_parenthesis_loop]. rewrite Hty, Htext. simpl.
    destruct (Z.ltb_spec start_line (fst (tokenize.end_ close))); [lia|].
    assert (Hnext : forall k,
              k = (length indents + (2 + (length (t0 :: inner) + 1)))%nat ->
              tokens !! k = None).
    { intros k ->. rewrite Htok, lookup_after.
      change (kw :: open :: (t0 :: inner) ++ [close])
        with ([kw; open] ++ ((t0 :: inner) ++ [close])).
      rewrite (lookup_after [kw; open]), lookup_after. done. }
    erewrite Hnext by (simpl; lia). done.
Qed.

(** X12 on the token lists of [if], [if (] and [if (x)], each without
    the tokens that end a line. *)
Lemma check_redundant_parenthesis_IndexError_witness :
  check_redundant_parenthesis "if" ([] ++ [tok tokenize.NAME "if" 0])
  = Raise IndexError
  /\ check_redundant_parenthesis "if ("
       ([] ++ [tok tokenize.NAME "if" 0; tok tokenize.OP "(" 3])
     = Raise IndexError
  /\ check_redundant_parenthesis "if (x)"
       [tok tokenize.NAME "if" 0; tok tokenize.OP "(" 3;
        tok tokenize.NAME "x" 4; tok tokenize.OP ")" 5]
     = Raise IndexError.
Proof.
  split; [|split].
  - apply (proj1 (proj2 (check_redundant_parenthesis_IndexError "if")) []
             (tok tokenize.NAME "if" 0)); [constructor|reflexivity].
  - apply (proj1 (proj2 (proj2 (check_redundant_parenthesis_IndexError "if (")))
             [] (tok tokenize.NAME "if" 0) (tok tokenize.OP "(" 3));
      [constructor|reflexivity|reflexivity].
  - apply (proj2 (proj2 (proj2 (check_redundant_parenthesis_IndexError "if (x)")))
             [tok tokenize.NAME "if" 0; tok tokenize.OP "(" 3;
              tok tokenize.NAME "x" 4; tok tokenize.OP ")" 5]
             [] (tok tokenize.NAME "if" 0) (tok tokenize.OP "(" 3)
             [tok tokenize.NAME "x" 4] (tok tokenize.OP ")" 5));
      first [ reflexivity | done | by apply scansb_sound ].
Defined.

(** ** The scopes below the top *)

Lemma scope_le_refl s : scope_le s s.
Proof. by repeat split. Qed.

Lemma scope_le_trans s1 s2 s3 : scope_le s1 s2 -> scope_le s2 s3 -> scope_le s1 s3.
Proof.
  intros (N1 & S1 & G1) (N2 & S2 & G2). repeat split.
  - by rewrite N2.
  - by transitivity (names s2).
  - by transitivity (globals s2).
Qed.

Lemma top_only_same v v' : scope_stack v' = scope_stack v -> top_only v v'.
Proof.
  intros H. destruct (last (scope_stack v)) as [s|] eqn:E.
  - apply last_Some in E as [stack E]. right. exists stack, s, s.
    rewrite H. repeat split; try done.
  - apply last_None in E. left. by rewrite H.
Qed.

Lemma top_only_trans v1 v2 v3 : top_only v1 v2 -> top_only v2 v3 -> top_only v1 v3.
Proof.
  intros [[H1 H2]|(st & s & s' & H1 & H2 & Hle)]
         [[K1 K2]|(st' & t & t' & K1 & K2 & Kle)].
  - by left.
  - rewrite H2 in K1. by destruct st'.
  - rewrite H2 in K1. by destruct st.
  - rewrite H2 in K1. apply app_inj_tail in K1 as [-> ->].
    right. exists st', s, t'. repeat split; try done.
    + by destruct Kle as (-> & _), Hle as (-> & _).
    + destruct Kle as (_ & ? & _), Hle as (_ & ? & _). by transitivity (names t).
    + destruct Kle as (_ & _ & ?), Hle as (_ & _ & ?).
      by transitivity (globals t).
Qed.

Lemma frames_ret {A} (a : A) : frames (ret a).
Proof. intros v a' v' H. inversion H. by apply top_only_same. Qed.

Lemma frames_raise {A} e : frames (@raise A e).
Proof. intros v a' v' H. inversion H. Qed.

Lemma frames_bind {A B} (m : M A) (k : A -> M B) :
  frames m -> (forall a, frames (k a)) -> frames (bind m k).
Proof.
  intros Hm Hk v b v' H. unfold bind in H.
  destruct (m v) as [[a w]|e] eqn:E; [|done].
  eapply top_only_trans; [by eapply Hm | by eapply Hk].
Qed.

Lemma frames_emits {A} (m : M A) a errs : emits m a errs -> frames m.
Proof.
  intros He v a' v' H. rewrite He in H. inversion H. by apply top_only_same.
Qed.

Lemma frames_report n msg : frames (report n msg).
Proof. eapply frames_emits, emits_report. Qed.

Lemma frames_visit_block b1 b2 b3 b4 nodes :
  frames (_visit_block b1 b2 b3 b4 nodes).
Proof.
  destruct (visit_block_emits b1 b2 b3 b4 nodes) as (errs & He & _).
  by eapply frames_emits.
Qed.

Lemma frames_top_scope : frames top_scope.
Proof.
  intros v a v' H. unfold top_scope in H.
  destruct (last (scope_stack v)); inversion H. by apply top_only_same.
Qed.

Lemma frames_update_top f :
  (forall s, scope_le s (f s)) -> frames (update_top f).
Proof.
  intros Hf v a v' H. unfold update_top in H.
  destruct (last (scope_stack v)) as [s|] eqn:E; inversion H; subst.
  apply last_Some in E as [stack E]. right. exists stack, s, (f s).
  cbn [scope_stack]. rewrite E, removelast_last. by repeat split; try apply Hf.
Qed.

Ltac frames_step :=
  first
    [ apply frames_ret | apply frames_raise | apply frames_report
    | apply frames_visit_block | apply frames_top_scope
    | solve [auto]
    | apply frames_bind; [|intros ?]
    | match goal with
      | |- frames (match ?x with _ => _ end) => destruct x
      | |- frames (if ?c then _ else _) => destruct c
      end ].

Ltac frames_tac := repeat frames_step.

Lemma frames_visit_stored_name py n name : frames (_visit_stored_name py n name).
Proof.
  unfold _visit_stored_name.
  apply frames_bind; [apply frames_top_scope|intros scope].
  apply frames_bind; [|intros _; frames_tac].
  apply frames_update_top. intros s. repeat split; cbn [node names globals].
  - apply union_subseteq_r.
  - done.
Qed.

Lemma frames_visit_Global n : frames (visit_Global n).
Proof.
  unfold visit_Global.
  apply frames_bind; [apply frames_top_scope|intros scope].
  apply frames_bind; [|intros _; frames_tac].
  apply frames_update_top. intros s. repeat split; cbn [node names globals].
  - done.
  - by apply prefix_app_r.
Qed.

Lemma frames_check_deprecated n name : frames (_check_deprecated n name).
Proof. unfold _check_deprecated. frames_tac. Qed.

Lemma frames_check_redundant_else orelse handlers clause :
  frames (_check_redundant_else orelse handlers clause).
Proof. unfold _check_redundant_else. frames_tac. Qed.

Lemma frames_visit_iter n : frames (_visit_iter n).
Proof. unfold _visit_iter. frames_tac. Qed.

Lemma frames_is_const py n : frames (is_const_ py n).
Proof.
  intros v a v' H. unfold is_const_ in H.
  destruct (is_const py n); inversion H. by apply top_only_same.
Qed.

Lemma frames_visit_Compare_loop py single ops : forall left comparators,
  frames (visit_Compare_loop py single left ops comparators).
Proof.
  induction ops as [|op ops IH]; intros left [|r cs]; simpl;
    try apply frames_ret.
  pose proof (frames_is_const py). pose proof (IH r cs).
  apply frames_bind; [|intros ?]; [frames_tac|].
  apply frames_bind; [|intros ?]; [|done].
  destruct (consts_first single op); [|apply frames_ret].
  apply frames_bind; [done|intros []]; [|apply frames_ret].
  apply frames_bind; [done|intros []]; frames_tac.
Qed.

Lemma frames_visit_Import py n module names_ :
  frames (visit_Import py n module names_).
Proof.
  induction names_ as [|a rest IH]; simpl; [apply frames_ret|].
  pose proof (frames_visit_stored_name py n (bound_name a)).
  apply frames_bind; [done|intros ?].
  apply frames_bind; [|done].
  destruct module; [apply frames_check_deprecated | apply frames_ret].
Qed.

Lemma frames_visit_hash_keys_loop py what nodes : forall keys ns,
  frames (_visit_hash_keys_loop py nodes what keys ns).
Proof.
  induction nodes as [|n rest IH]; intros keys ns; simpl; [apply frames_ret|].
  destruct (evaluate py n ns) as [[[key|]|e] ns']; [| |apply frames_raise].
  - destruct (contains_value py keys key) as [[|]|e];
      [|apply IH|apply frames_raise].
    apply frames_bind; [|intros ?; apply IH]. frames_tac.
  - apply IH.
Qed.

Lemma frames_redundant_names scope declaration names_ : forall global_names,
  frames (_redundant_names scope declaration names_ global_names).
Proof.
  induction names_ as [|name rest IH]; intros g; simpl; [apply frames_ret|].
  destruct (_ || _); [|apply IH].
  apply frames_bind; [apply frames_report | intros ?; apply IH].
Qed.

Lemma frames_redundant_declarations scope declarations : forall global_names,
  frames (_redundant_declarations scope declarations global_names).
Proof.
  induction declarations as [|d rest IH]; intros g; simpl; [apply frames_ret|].
  destruct (get_names d); [|apply frames_raise].
  apply frames_bind; [apply frames_redundant_names | intros ?; apply IH].
Qed.

(** The scope pushed by [_visit_with_scope] is the one it deletes: the
    stack is afterwards what it was. *)
Lemma frames_visit_with_scope n gv :
  frames gv -> frames (_visit_with_scope n gv).
Proof.
  intros Hgv v a v' H. apply top_only_same.
  unfold _visit_with_scope, bind, ret, top_scope in H.
  destruct (gv _) as [[[] w]|e] eqn:E; [|done].
  apply Hgv in E. cbn [scope_stack] in E.
  destruct E as [[E _]|(stack & s & s' & E1 & E2 & _)];
    [by destruct (scope_stack v)|].
  apply app_inj_tail in E1 as [<- _].
  rewrite E2, last_snoc in H. inversion H; subst. cbn [scope_stack].
  by rewrite E2, removelast_last.
Qed.

Lemma frames_visit_method py n gv : frames gv -> frames (visit_method py n gv).
Proof.
  intros Hgv.
  pose proof (frames_visit_stored_name py) as K1.
  pose proof frames_visit_Global as K2.
  pose proof frames_check_deprecated as K3.
  pose proof frames_check_redundant_else as K4.
  pose proof frames_visit_iter as K5.
  pose proof (frames_visit_Compare_loop py) as K6.
  pose proof (frames_visit_Import py) as K7.
  pose proof (frames_visit_hash_keys_loop py) as K8.
  pose proof frames_redundant_declarations as K9.
  pose proof (frames_visit_with_scope n gv Hgv) as K10.
  destruct n; simpl in *; try exact Hgv;
    unfold visit_Module, visit_FunctionDef, visit_If, visit_Try,
      visit_TryExcept, visit_TryFinally, visit_ExceptHandler, visit_Name,
      visit_arg, visit_comprehension, visit_For, visit_While, visit_BinOp,
      visit_Compare, visit_Call, visit_Assign, visit_Dict, visit_Set,
      _visit_hash_keys;
    repeat lazymatch goal with
           | |- frames (_visit_with_scope _ _) => exact K10
           | |- frames (_visit_block _ _ _ _ _) => apply frames_visit_block
           | |- frames (bind _ _) => apply frames_bind; [|intros ?]
           | |- frames gv => exact Hgv
           | |- _ => solve [frames_tac; auto]
           end.
Qed.

Lemma frames_traverse {A} (f : A -> M unit) l :
  (forall x, x ∈ l -> frames (f x)) -> frames (traverse f l).
Proof.
  induction l as [|x l IH]; intros Hf; simpl; [apply frames_ret|].
  apply frames_bind; [apply Hf, elem_of_cons; by left | intros _; apply IH].
  intros y Hy. apply Hf, elem_of_cons. by right.
Qed.

Lemma frames_visit py n : frames (visit py n).
Proof.
  induction n using ast.node_ind;
    rewrite visit_unfold; apply frames_visit_method;
    cbn [generic_visit];
    repeat lazymatch goal with
           | |- frames (ret _) => apply frames_ret
           | |- frames (bind _ _) => apply frames_bind; [|intros _]
           | H : list_all (option ast.node) _ ?l
             |- frames (traverse (traverse_option _) ?l) =>
               clear -H; induction H as [|o Ho l _ IH]; simpl;
               [apply frames_ret
               |apply frames_bind;
                 [destruct Ho; simpl; [assumption | apply frames_ret]
                 |intros _; exact IH]]
           | H : list_all ast.node _ ?l |- frames (traverse _ ?l) =>
               apply frames_traverse; exact (list_all_elem _ _ H)
           | H : option_all ast.node _ ?o |- frames (traverse_option _ ?o) =>
               clear -H; destruct H; simpl; [assumption | apply frames_ret]
           | H : frames (visit py ?c) |- frames (visit py ?c) => exact H
           end.
Qed.

(** X13.  A traversal changes the scope stack at its top only.  When
    [visit] returns, the scopes below the top are the ones it started
    with, and the top scope has the same node, all the names it had and
    the declarations it had at the head of its list; every scope pushed
    during the traversal has been deleted again. *)
Theorem visit_changes_top_scope_only :
  forall (py : interpreter) (tree : ast.node) (v v' : TreeVisitor)
         (stack : list Scope) (scope : Scope),
    visit py tree v = Ok (tt, v') ->
    scope_stack v = stack ++ [scope] ->
    exists scope',
      scope_stack v' = stack ++ [scope']
      /\ node scope' = node scope
      /\ names scope ⊆ names scope'
      /\ globals scope `prefix_of` globals scope'.
Proof.
  intros py tree v v' stack scope H Hstack.
  destruct (frames_visit py tree v tt v' H)
    as [[E _]|(stack' & s & s' & E1 & E2 & Hle)].
  - rewrite Hstack in E. by destruct stack.
  - rewrite Hstack in E1. apply app_inj_tail in E1 as [-> ->].
    by exists s'.
Qed.

(** X13 on a function definition visited below a module scope and a
    class scope. *)
Lemma visit_changes_top_scope_only_witness :
  exists scope',
    scope_stack
      (mkTreeVisitor []
         [mkScope (ast.Module []) {["m"]} [];
          mkScope (ast.ClassDef (ast.Pos 1 0) "C" [] [] []) {["f"; "c"]} []])
    = [mkScope (ast.Module []) {["m"]} []] ++ [scope']
    /\ node scope' = node (mkScope (ast.ClassDef (ast.Pos 1 0) "C" [] [] []) {["c"]} [])
    /\ names (mkScope (ast.ClassDef (ast.Pos 1 0) "C" [] [] []) {["c"]} []) ⊆ names scope'
    /\ globals (mkScope (ast.ClassDef (ast.Pos 1 0) "C" [] [] []) {["c"]} [])
         `prefix_of` globals scope'.
Proof.
  apply (visit_changes_top_scope_only sample
           (ast.FunctionDef (ast.Pos 2 4) "f" (ast.arguments [] [])
              [ast.Assign (ast.Pos 3 8) [ast.Name (ast.Pos 3 8) "x" ast.Store]
                 (ast.Num (ast.Pos 3 12) 1)] [])
           (mkTreeVisitor []
              [mkScope (ast.Module []) {["m"]} [];
               mkScope (ast.ClassDef (ast.Pos 1 0) "C" [] [] []) {["c"]} []])).
  - vm_compute. reflexivity.
  - reflexivity.
Defined.

(** ** Scopes pushed and popped *)

Lemma frames_generic_visit py n : frames (generic_visit (visit py) n).
Proof.
  pose proof (frames_visit py) as Hall.
  destruct n; cbn [generic_visit];
    repeat lazymatch goal with
           | |- frames (ret _) => apply frames_ret
           | |- frames (bind _ _) => apply frames_bind; [|intros _]
           | |- frames (traverse (traverse_option _) _) =>
               apply frames_traverse; intros [?|] _; cbn [traverse_option];
               [exact (Hall _) | apply frames_ret]
           | |- frames (traverse _ _) =>
               apply frames_traverse; intros ? _; exact (Hall _)
           | |- frames (traverse_option _ ?o) =>
               destruct o; cbn [traverse_option];
               [exact (Hall _) | apply frames_ret]
           | |- frames (visit _ _) => exact (Hall _)
           end.
Qed.

(** [_visit_with_scope] runs the traversal of the children on the stack
    with a fresh scope of the node appended; the scope it returns is the
    top of the stack after that traversal, and the stack it leaves is the
    one it was called with. *)
Lemma visit_with_scope_pushes n gv v scope v' :
  frames gv ->
  _visit_with_scope n gv v = Ok (scope, v') ->
  exists w,
    gv (mkTreeVisitor (errors v) (scope_stack v ++ [mkScope n ∅ []]))
    = Ok (tt, w)
    /\ scope_stack w = scope_stack v ++ [scope]
    /\ node scope = n
    /\ v' = mkTreeVisitor (errors w) (scope_stack v).
Proof.
  intros Hgv H. unfold _visit_with_scope, bind, ret, top_scope in H.
  destruct (gv _) as [[[] w]|e] eqn:E; [|done].
  exists w. pose proof (Hgv _ _ _ E) as F. cbn [scope_stack] in F.
  destruct F as [[F _]|(stack & s & s' & F1 & F2 & Hle)];
    [by destruct (scope_stack v)|].
  apply app_inj_tail in F1 as [<- <-].
  rewrite F2, last_snoc in H. inversion H; subst.
  rewrite F2, removelast_last. repeat split; try done.
  by destruct Hle as (-> & _).
Qed.

Lemma redundant_names_stack scope d names_ : forall g v g' v',
  _redundant_names scope d names_ g v = Ok (g', v') ->
  scope_stack v' = scope_stack v.
Proof.
  induction names_ as [|name rest IH]; intros g v g' v' H; simpl in H.
  - by inversion H.
  - destruct (_ || _).
    + unfold bind, report in H. apply IH in H. exact H.
    + by apply IH in H.
Qed.

Lemma redundant_declarations_stack scope ds : forall g v v',
  _redundant_declarations scope ds g v = Ok (tt, v') ->
  scope_stack v' = scope_stack v.
Proof.
  induction ds as [|d rest IH]; intros g v v' H; simpl in H.
  - by inversion H.
  - destruct (get_names d) as [ns|e]; [|done].
    unfold bind in H.
    destruct (_redundant_names _ _ _ _ _) as [[g' w]|e] eqn:E; [|done].
    apply redundant_names_stack in E. apply IH in H. by rewrite H.
Qed.

(** What a module, function or class node does with the stack. *)
Lemma scope_node_pushes py n v v' :
  is_scope n = true ->
  visit py n v = Ok (tt, v') ->
  exists v1 w scope,
    map node (scope_stack v1) = map node (scope_stack v)
    /\ (is_Module n = true -> exists errs, v1 = with_errors v errs)
    /\ generic_visit (visit py) n
         (mkTreeVisitor (errors v1) (scope_stack v1 ++ [mkScope n ∅ []]))
       = Ok (tt, w)
    /\ scope_stack w = scope_stack v1 ++ [scope]
    /\ node scope = n
    /\ scope_stack v' = scope_stack v1
    /\ (is_Module n = true -> errors v' = errors w).
Proof.
  intros Hs H. rewrite visit_unfold in H.
  destruct n; try discriminate Hs; cbn [visit_method] in H.
  - unfold visit_Module, bind, ret in H.
    destruct (visit_block_emits true false true false body) as (errs & He & _).
    rewrite He in H.
    destruct (_visit_with_scope _ _ _) as [[s v2]|e] eqn:E; [|done].
    inversion H; subst.
    apply visit_with_scope_pushes in E as (w & Ew & Es & En & ->);
      [|apply frames_generic_visit].
    exists (with_errors v errs), w, s. repeat split; try done.
    intros _. by exists errs.
  - unfold visit_FunctionDef, bind in H.
    destruct (_visit_stored_name _ _ _ _) as [[[] va]|e] eqn:Ea; [|done].
    apply keeps_visit_stored_name in Ea.
    destruct (visit_block_emits true true true false body) as (errs & He & _).
    rewrite He in H.
    destruct (_visit_with_scope _ _ _) as [[s v2]|e] eqn:E; [|done].
    apply redundant_declarations_stack in H.
    apply visit_with_scope_pushes in E as (w & Ew & Es & En & ->);
      [|apply frames_generic_visit].
    exists (with_errors va errs), w, s. repeat split; try done.
  - unfold visit_FunctionDef, bind in H.
    destruct (_visit_stored_name _ _ _ _) as [[[] va]|e] eqn:Ea; [|done].
    apply keeps_visit_stored_name in Ea.
    destruct (visit_block_emits true true true false body) as (errs & He & _).
    rewrite He in H.
    destruct (_visit_with_scope _ _ _) as [[s v2]|e] eqn:E; [|done].
    apply redundant_declarations_stack in H.
    apply visit_with_scope_pushes in E as (w & Ew & Es & En & ->);
      [|apply frames_generic_visit].
    exists (with_errors va errs), w, s. repeat split; try done.
Qed.

(** C6.  During the traversal of a tree the scope stack has, at every call
    of [visit] and at its return, as many scopes as the node visited has
    module, function and class nodes above it: the traversal that asserts
    this around every call behaves as the traversal itself, so no
    assertion fails.  A call of [visit] that returns leaves the scopes of
    the stack as it found them, and an empty stack empty.  A module,
    function or class node that is visited appends a fresh scope of the
    node (no names, no declarations) to the stack, visits its children
    from that stack, finds the scope of the node on top of the same lower
    scopes when the children are done, and deletes it: the stack it leaves
    is the one it pushed on.  For the module visited from the empty stack,
    the children are visited from the stack that holds the fresh scope of
    the module alone, the stack after them holds the scope of the module
    alone, and the traversal ends with the empty stack: the scope of the
    module is pushed first and popped last. *)
Theorem scope_stack_depth :
  forall (py : interpreter) (tree : ast.node) (v : TreeVisitor),
    visit_asserting py (length (scope_stack v)) tree v = visit py tree v
    /\ (forall v',
          visit py tree v = Ok (tt, v') ->
          map node (scope_stack v') = map node (scope_stack v)
          /\ (scope_stack v = [] -> scope_stack v' = [])
          /\ (is_scope tree = true ->
              exists v1 w scope,
                map node (scope_stack v1) = map node (scope_stack v)
                /\ generic_visit (visit py) tree
                     (mkTreeVisitor (errors v1)
                        (scope_stack v1 ++ [mkScope tree ∅ []]))
                   = Ok (tt, w)
                /\ scope_stack w = scope_stack v1 ++ [scope]
                /\ node scope = tree
                /\ scope_stack v' = scope_stack v1)
          /\ (is_Module tree = true -> scope_stack v = [] ->
              exists errs w scope,
                generic_visit (visit py) tree
                  (mkTreeVisitor (errors v ++ errs) [mkScope tree ∅ []])
                = Ok (tt, w)
                /\ scope_stack w = [scope]
                /\ node scope = tree
                /\ v' = mkTreeVisitor (errors w) [])).
Proof.
  intros py tree v. split.
  - by apply (tracks_visit py tree (length (scope_stack v))).
  - intros v' H. pose proof (keeps_visit _ _ _ _ _ H) as K.
    split; [done|]. split; [|split].
    + intros Hv. rewrite Hv in K. by destruct (scope_stack v').
    + intros Hs.
      destruct (scope_node_pushes py tree v v' Hs H)
        as (v1 & w & s & E1 & _ & E2 & E3 & E4 & E5 & _).
      by exists v1, w, s.
    + intros Hm Hv.
      assert (is_scope tree = true) as Hs by by destruct tree.
      destruct (scope_node_pushes py tree v v' Hs H)
        as (v1 & w & s & _ & E1 & E2 & E3 & E4 & E5 & E6).
      destruct (E1 Hm) as (errs & ->). cbn [with_errors errors scope_stack] in *.
      rewrite Hv in *. exists errs, w, s. repeat split; try done.
      destruct v' as [e' s']. cbn [errors scope_stack] in *.
      by rewrite E5, (E6 Hm).
Qed.

(** C6 on a module with a function and two global declarations. *)
Lemma scope_stack_depth_witness :
  visit_asserting sample 0 sample_module TreeVisitor_init
  = visit sample sample_module TreeVisitor_init
  /\ match visit sample sample_module TreeVisitor_init with
     | Ok (_, v') =>
         scope_stack v' = []
         /\ exists errs w scope,
              generic_visit (visit sample) sample_module
                (mkTreeVisitor ([] ++ errs) [mkScope sample_module ∅ []])
              = Ok (tt, w)
              /\ scope_stack w = [scope]
              /\ node scope = sample_module
              /\ v' = mkTreeVisitor (errors w) []
     | Raise _ => False
     end.
Proof.
  split.
  - apply (proj1 (scope_stack_depth sample sample_module TreeVisitor_init)).
  - destruct (visit sample sample_module TreeVisitor_init) as [[[] v']|e] eqn:E.
    + destruct (proj2 (scope_stack_depth sample sample_module TreeVisitor_init)
                  v' E) as (_ & H1 & _ & H2).
      split; [by apply H1 | by apply H2].
    + vm_compute in E. discriminate E.
Defined.

(** ** Imports *)

Lemma visit_stored_name_spec py n name v stack scope :
  scope_stack v = stack ++ [scope] ->
  _visit_stored_name py n name v
  = Ok (tt, mkTreeVisitor
              (errors v ++
               (if bool_decide (name ∈ ESSENTIAL_BUILTINS py)
                   && is_FunctionDef (node scope)
                then [(n, "A302 redefined built-in " +:+ name)] else []))
              (stack ++ [mkScope (node scope) ({[name]} ∪ names scope)
                           (globals scope)])).
Proof.
  intros Hstack.
  unfold _visit_stored_name, bind, top_scope, update_top.
  rewrite Hstack, last_snoc. cbv beta iota.
  rewrite Hstack, last_snoc, removelast_last.
  destruct (bool_decide (name ∈ ESSENTIAL_BUILTINS py)
            && is_FunctionDef (node scope)).
  - reflexivity.
  - unfold ret. by rewrite app_nil_r.
Qed.

Lemma visit_stored_name_empty py n name v :
  scope_stack v = [] -> _visit_stored_name py n name v = Raise IndexError.
Proof.
  intros Hstack. unfold _visit_stored_name, bind, top_scope.
  by rewrite Hstack.
Qed.

Lemma check_deprecated_spec n name v :
  _check_deprecated n (Some name) v
  = Ok (tt, with_errors v
              (if String.eqb name "re.match"
               then [(n, "A301 use re.search() instead of re.match()")]
               else if String.eqb name "codecs.open"
               then [(n, "A301 use io.open() instead of codecs.open()")]
               else [])).
Proof.
  unfold _check_deprecated, DISCOURAGED_APIS. cbn [mbind option_bind].
  destruct (String.eqb_spec name "re.match") as [->|H1].
  { by rewrite lookup_insert_eq. }
  rewrite lookup_insert_ne by done.
  destruct (String.eqb_spec name "codecs.open") as [->|H2].
  { by rewrite lookup_insert_eq. }
  rewrite lookup_insert_ne by done. rewrite lookup_empty.
  unfold ret. by rewrite with_errors_nil.
Qed.

Lemma visit_Import_spec py n module names_ : forall v stack scope,
  scope_stack v = stack ++ [scope] ->
  visit_Import py n module names_ v
  = Ok (tt, mkTreeVisitor
              (errors v ++
               flat_map (import_findings py (is_FunctionDef (node scope)) n
                           module) names_)
              (stack ++ [mkScope (node scope)
                           (list_to_set (map bound_name names_) ∪ names scope)
                           (globals scope)])).
Proof.
  induction names_ as [|alias rest IH]; intros v stack scope Hstack.
  - cbn [visit_Import flat_map map list_to_set]. unfold ret.
    rewrite app_nil_r, (left_id_L ∅ (∪)).
    destruct scope as [nd nm gl]. cbn [node names globals].
    rewrite <- Hstack. by destruct v.
  - cbn [visit_Import]. unfold bind at 1.
    rewrite (visit_stored_name_spec py n (bound_name alias) v stack scope Hstack).
    unfold bind at 1.
    set (v1 := mkTreeVisitor _ _).
    set (scope1 := mkScope (node scope) ({[bound_name alias]} ∪ names scope)
                     (globals scope)).
    assert (Hdep : exists errs,
              (match module with
               | Some m =>
                   _check_deprecated n (Some (m +:+ "." +:+ ast.name alias))
               | None => ret tt
               end) v1 = Ok (tt, with_errors v1 errs)
              /\ import_findings py (is_FunctionDef (node scope)) n module alias
                 = (if bool_decide (bound_name alias ∈ ESSENTIAL_BUILTINS py)
                       && is_FunctionDef (node scope)
                    then [(n, "A302 redefined built-in " +:+ bound_name alias)]
                    else []) ++ errs).
    { unfold import_findings. destruct module as [m|].
      - eexists. split; [apply check_deprecated_spec|done].
      - exists []. split; [|done]. unfold ret. by rewrite with_errors_nil. }
    destruct Hdep as (errs & -> & Hfind).
    rewrite (IH (with_errors v1 errs) stack scope1 eq_refl).
    cbn [flat_map map list_to_set]. rewrite Hfind.
    subst v1 scope1. cbn [with_errors errors scope_stack node names globals].
    rewrite <- !app_assoc.
    rewrite (assoc_L (∪)), (comm_L (∪) (list_to_set _) {[bound_name alias]}).
    reflexivity.
Qed.

(** X14.  An import statement binds its names in the scope on top of the
    stack and leaves the other scopes alone: each alias binds its [as]
    name, or its name without one.  Its findings are, alias by alias, A302
    when the bound name is an essential built-in and the scope is that of
    a function, then A301 when the statement has a module and
    [module.name] is [re.match] or [codecs.open]; a plain [import], which
    has no module, never gets A301.  With an empty scope stack an import
    of at least one name raises [IndexError]. *)
Theorem visit_Import_binds_names :
  forall (py : interpreter) (n : ast.node) (module : option string)
         (names_ : list ast.alias) (v : TreeVisitor),
    (forall stack scope,
       scope_stack v = stack ++ [scope] ->
       visit_Import py n module names_ v
       = Ok (tt, mkTreeVisitor
                   (errors v ++
                    flat_map (import_findings py (is_FunctionDef (node scope))
                                n module) names_)
                   (stack ++ [mkScope (node scope)
                                (list_to_set (map bound_name names_)
                                 ∪ names scope)
                                (globals scope)])))
    /\ (forall in_function,
          List.filter (has_code "A301")
            (flat_map (import_findings py in_function n None) names_) = [])
    /\ (scope_stack v = [] -> names_ <> [] ->
        visit_Import py n module names_ v = Raise IndexError).
Proof.
  intros py n module names_ v. split; [|split].
  - intros stack scope. apply visit_Import_spec.
  - intros in_function. induction names_ as [|alias rest IH]; [done|].
    cbn [flat_map]. rewrite List.filter_app, IH.
    unfold import_findings. rewrite !app_nil_r.
    by destruct (_ && _).
  - intros Hstack Hne. destruct names_ as [|alias rest]; [done|].
    cbn [visit_Import]. unfold bind at 1.
    by rewrite visit_stored_name_empty.
Qed.

(** X14 on [from re import match as m, sub] in a module scope. *)
Lemma visit_Import_binds_names_witness :
  visit_Import sample (ast.ImportFrom (ast.Pos 1 0) (Some "re")
                         [ast.Alias "match" (Some "m"); ast.Alias "sub" None])
    (Some "re") [ast.Alias "match" (Some "m"); ast.Alias "sub" None]
    (mkTreeVisitor [] [mkScope (ast.Module []) ∅ []])
  = Ok (tt, mkTreeVisitor
              [(ast.ImportFrom (ast.Pos 1 0) (Some "re")
                  [ast.Alias "match" (Some "m"); ast.Alias "sub" None],
                "A301 use re.search() instead of re.match()")]
              [mkScope (ast.Module []) {["m"; "sub"]} []]).
Proof.
  etransitivity; [|vm_compute; reflexivity].
  exact (proj1 (visit_Import_binds_names sample
                  (ast.ImportFrom (ast.Pos 1 0) (Some "re")
                     [ast.Alias "match" (Some "m"); ast.Alias "sub" None])
                  (Some "re") [ast.Alias "match" (Some "m"); ast.Alias "sub" None]
                  (mkTreeVisitor [] [mkScope (ast.Module []) ∅ []]))
           [] (mkScope (ast.Module []) ∅ []) eq_refl).
Defined.

(** ** The quote check on Python 3 *)

Lemma check_quotes_style_python3 py prev state state' first_token t prefixes
    quote text :
  3 <= version_major py ->
  check_quotes_style py prev state first_token t prefixes quote text
  = check_quotes_style py prev state' first_token t prefixes quote text.
Proof.
  intros Hv. unfold check_quotes_style.
  destruct (Z.leb_spec 3 (version_major py)); [reflexivity | lia].
Qed.

Lemma check_quotes_loop_python3 py prev state state' tokens :
  3 <= version_major py ->
  forall first_token,
    check_quotes_loop py prev state tokens first_token
    = check_quotes_loop py prev state' tokens first_token.
Proof.
  intros Hv. induction tokens as [|t rest IH]; intros first_token; [done|].
  cbn [check_quotes_loop].
  destruct (tokenize.type t); try apply IH.
  destruct (match_string_token (tokenize.text t)) as [[[prefixes quote] text]|];
    [|done].
  rewrite (check_quotes_style_python3 py prev state state') by done.
  by rewrite IH.
Qed.

(** X16.  On Python 3 the findings of [check_quotes] do not depend on
    [checker_state]: whether an import of [unicode_literals] was seen, on
    this line or on an earlier one, changes nothing. *)
Theorem check_quotes_python3_ignores_state :
  forall (py : interpreter) (logical_line : string)
         (tokens : list tokenize.token) (previous_logical : string)
         (checker_state checker_state' : gmap string bool),
    3 <= version_major py ->
    fst (check_quotes py logical_line tokens previous_logical checker_state)
    = fst (check_quotes py logical_line tokens previous_logical
             checker_state').
Proof.
  intros py logical_line tokens prev state state' Hv.
  unfold check_quotes. cbn [fst]. by apply check_quotes_loop_python3.
Qed.

(** X16 on the line [x = 'a'], with and without the import seen. *)
Lemma check_quotes_python3_ignores_state_witness :
  fst (check_quotes sample "x = 'a'"
         [tok tokenize.NAME "x" 0; tok tokenize.OP "=" 2;
          tok tokenize.STRING "'a'" 4]
         EmptyString ∅)
  = fst (check_quotes sample "x = 'a'"
           [tok tokenize.NAME "x" 0; tok tokenize.OP "=" 2;
            tok tokenize.STRING "'a'" 4]
           EmptyString {["has_unicode_literals" := true]}).
Proof.
  apply (check_quotes_python3_ignores_state sample "x = 'a'"
           [tok tokenize.NAME "x" 0; tok tokenize.OP "=" 2;
            tok tokenize.STRING "'a'" 4]
           EmptyString ∅ {["has_unicode_literals" := true]}).
  vm_compute. discriminate.
Defined.

(** ** The pattern for a coding declaration *)

Lemma prefix_spec a : forall s,
  String.prefix a s = true <-> exists post, s = a +:+ post.
Proof.
  induction a as [|c a IH]; intros [|d s]; simpl.
  - split; [intros _; by exists EmptyString | done].
  - split; [intros _; by exists (String d s) | done].
  - split; [done | by intros [? ?]].
  - destruct (ascii_dec c d) as [->|Hne].
    + rewrite IH. split; intros [post H]; exists post; [by rewrite H|].
      by inversion H.
    + split; [done|]. intros [post H]. by inversion H.
Qed.

Lemma contains_spec needle : forall hay,
  contains needle hay = true
  <-> exists pre post, hay = pre +:+ needle +:+ post.
Proof.
  induction hay as [|c hay IH].
  - cbn [contains]. rewrite orb_false_r, prefix_spec. split.
    + intros [post H]. by exists EmptyString, post.
    + intros (pre & post & H). destruct pre; [by exists post|]. done.
  - cbn [contains]. rewrite orb_true_iff, prefix_spec, IH. split.
    + intros [[post H]|(pre & post & H)].
      * by exists EmptyString, post.
      * exists (String c pre), post. simpl. by rewrite H.
    + intros (pre & post & H). destruct pre as [|d pre].
      * left. by exists post.
      * right. exists pre, post. by inversion H.
Qed.

Lemma append_cons c (a b : string) : String c a +:+ b = String c (a +:+ b).
Proof. reflexivity. Qed.

Lemma append_nil (b : string) : EmptyString +:+ b = b.
Proof. reflexivity. Qed.

Lemma skip_spaces_spec py s :
  exists ws, s = ws +:+ skip_spaces py s /\ all_chars (is_space py) ws = true.
Proof.
  induction s as [|c s (ws & IH & Hws)]; [by exists EmptyString|].
  cbn [skip_spaces]. destruct (is_space py c) eqn:Hc.
  - exists (String c ws). split; [rewrite append_cons; by f_equal|].
    cbn [all_chars]. by rewrite Hc.
  - by exists EmptyString.
Qed.

Lemma skip_spaces_app py ws s :
  all_chars (is_space py) ws = true ->
  skip_spaces py (ws +:+ s) = skip_spaces py s.
Proof.
  induction ws as [|c ws IH]; [done|]. cbn [all_chars].
  intros H. apply andb_true_iff in H as [Hc Hws].
  rewrite append_cons. cbn [skip_spaces]. rewrite Hc. by apply IH.
Qed.

Lemma first_line_spec s :
  exists rest, s = first_line s +:+ rest
               /\ all_chars (fun c => negb (Ascii.eqb c NEWLINE_CHAR))
                    (first_line s) = true.
Proof.
  induction s as [|c s (rest & IH & Hall)]; [by exists EmptyString|].
  cbn [first_line]. destruct (Ascii.eqb c NEWLINE_CHAR) eqn:Hc.
  - by exists (String c s).
  - exists rest. split; [rewrite append_cons; by f_equal|].
    cbn [all_chars]. by rewrite Hc.
Qed.

Lemma first_line_app a s :
  all_chars (fun c => negb (Ascii.eqb c NEWLINE_CHAR)) a = true ->
  first_line (a +:+ s) = a +:+ first_line s.
Proof.
  induction a as [|c a IH]; [done|]. cbn [all_chars].
  intros H. apply andb_true_iff in H as [Hc Ha].
  rewrite !append_cons. cbn [first_line].
  apply negb_true_iff in Hc. rewrite Hc. by rewrite IH.
Qed.

Lemma all_chars_app p a b :
  all_chars p (a +:+ b) = all_chars p a && all_chars p b.
Proof.
  induction a as [|c a IH]; [done|].
  rewrite append_cons. cbn [all_chars]. by rewrite IH, andb_assoc.
Qed.

Lemma append_assoc (a b c : string) : (a +:+ b) +:+ c = a +:+ b +:+ c.
Proof.
  induction a as [|x a IH]; [done|]. rewrite !append_cons. by rewrite IH.
Qed.

Lemma is_space_hash py : is_space py "#" = false.
Proof. unfold is_space. cbn -[Z.leb]. apply andb_false_r. Qed.

(** X17.  [check_non_default_encoding] takes a line for a coding
    declaration exactly when the line is whitespace, a [#], text without
    a newline, the word [coding], a colon or an equals sign, and any
    text: the first two lines of a file get A303 then, and no other line
    does.  Whitespace is what [\s] matches on the version of the
    interpreter, and the characters of the line are code points below
    256. *)
Theorem coding_declaration_shape :
  forall (py : interpreter) (physical_line : string),
    coding_declaration py physical_line = true
    <-> exists ws comment sign rest,
          physical_line
          = ws +:+ "#" +:+ comment +:+ "coding" +:+ sign +:+ rest
          /\ all_chars (is_space py) ws = true
          /\ all_chars (fun c => negb (Ascii.eqb c NEWLINE_CHAR)) comment
             = true
          /\ (sign = ":" \/ sign = "=").
Proof.
  intros py line. unfold coding_declaration. split.
  - destruct (skip_spaces_spec py line) as (ws & Hline & Hws).
    destruct (skip_spaces py line) as [|c rest0] eqn:Hskip; [done|].
    destruct (Ascii.eqb_spec c "#") as [->|Hne].
    2:{ intros H. exfalso. revert H.
        destruct c as [[] [] [] [] [] [] [] []];
          first [done | by destruct Hne]. }
    intros H.
    assert (Hc : exists sign, (sign = ":" \/ sign = "=")
               /\ contains ("coding" +:+ sign) (first_line rest0) = true).
    { apply orb_true_iff in H as [H|H].
      - exists ":". split; [by left|done].
      - exists "=". split; [by right|done]. }
    destruct Hc as (sign & Hsign & Hc).
    apply contains_spec in Hc as (pre & post & Hfl).
    destruct (first_line_spec rest0) as (rest1 & Hrest & Hall).
    rewrite Hfl in Hrest, Hall.
    rewrite all_chars_app in Hall. apply andb_true_iff in Hall as [Hpre _].
    exists ws, pre, sign, (post +:+ rest1).
    repeat split; try done.
    rewrite Hline, Hrest. f_equal.
    rewrite (append_cons "#" EmptyString), append_nil. f_equal.
    by rewrite !append_assoc.
  - intros (ws & comment & sign & rest & -> & Hws & Hcomment & Hsign).
    rewrite skip_spaces_app by done.
    rewrite (append_cons "#" EmptyString), append_nil. cbn [skip_spaces].
    rewrite is_space_hash.
    rewrite first_line_app by done.
    apply orb_true_iff.
    destruct Hsign as [-> | ->]; [left|right]; apply contains_spec.
    + exists comment, (first_line rest). reflexivity.
    + exists comment, (first_line rest). reflexivity.
Qed.

(** X17 on the line [# -*- coding: utf-8 -*-], and on the same after a
    no-break space, which is whitespace for Python 3. *)
Lemma coding_declaration_shape_witness :
  coding_declaration sample "# -*- coding: utf-8 -*-" = true
  /\ coding_declaration sample
       (String (ascii_of_nat 160) "# -*- coding: utf-8 -*-") = true.
Proof.
  split.
  - apply (proj2 (coding_declaration_shape sample "# -*- coding: utf-8 -*-")).
    exists EmptyString, " -*- ", ":", " utf-8 -*-".
    repeat split. by left.
  - apply (proj2 (coding_declaration_shape sample
                    (String (ascii_of_nat 160) "# -*- coding: utf-8 -*-"))).
    exists (String (ascii_of_nat 160) EmptyString), " -*- ", ":",
      " utf-8 -*-".
    repeat split. by left.
Defined.
